(** * Ship / Offshore proxy: framing codec, serializer and CONNECT bridges

    A shallow embedding of [ship_proxy.py] and [offshore_server.py].

    - Python [bytes] are [list byte]; Python [str] is [list ascii], a
      sequence of code points in the range U+0000..U+00FF (text with
      code points above U+00FF is outside the model).
    - Python [int] is [Z]; [len] returns a [Z].
    - A header dictionary is a JSON object: an insertion-ordered
      association list with string keys.
    - An asyncio [StreamReader] is the list of chunks that will still
      arrive on the socket, followed by end-of-stream; a [StreamWriter] is
      the bytes written so far together with the transport's closing flag.
    - Exceptions are values of [exn]; code that can raise runs in the
      state-and-exception monad [M], in which a raised exception keeps
      the side effects performed before it.
    - A [while] loop is a [Fixpoint] on fuel, called with fuel computed
      from the data the loop consumes.
    - [print] calls, the limit of [StreamReader.readline] and the
      interpreter's recursion limit are not modelled; its limit on the
      digits of an integer is modelled for [int] of a [str], not for the
      integers of JSON text.
    - A connection fails only once the program itself has closed it: a
      transport lost to the network, or reset because the peer has gone,
      is not modelled.

    The first part of the file holds the definitions, in the order of the
    sources; the second part the lemmas and the theorems. *)

From Stdlib Require Import Ascii String Strings.Byte.
From Stdlib Require Import List ZArith Lia Bool Arith.
From Stdlib Require DecimalPos DecimalFacts.
Import ListNotations.
Open Scope Z_scope.

Set Warnings "-register-all".

(** ** Basic data *)

Definition bytes := list byte.
Definition str := list ascii.

(** String and bytes literals of the source. *)
Definition str_of (s : string) : str := list_ascii_of_string s.
Definition bytes_of (s : string) : bytes := list_byte_of_string s.

Definition len {A} (l : list A) : Z := Z.of_nat (length l).

Definition CR : ascii := ascii_of_nat 13.
Definition LF : ascii := ascii_of_nat 10.
Definition bCR : byte := byte_of_ascii CR.
Definition bLF : byte := byte_of_ascii LF.
Definition bCRLF : bytes := [bCR; bLF].

Fixpoint str_eqb (a b : str) : bool :=
  match a, b with
  | [], [] => true
  | x :: a', y :: b' => Ascii.eqb x y && str_eqb a' b'
  | _, _ => false
  end.

Fixpoint bytes_eqb (a b : bytes) : bool :=
  match a, b with
  | [], [] => true
  | x :: a', y :: b' => Byte.eqb x y && bytes_eqb a' b'
  | _, _ => false
  end.

(** Exceptions raised by the source or by the library calls it makes.  All
    of them are subclasses of Python's [Exception].  [RecursionError] is
    only produced by a loop of the model that runs out of fuel; the
    totality lemmas below show that the fuel given always suffices.
    [OutsideModel] is not a Python exception: the model reports it when an
    input leaves the fragment of Python values it represents (text beyond
    U+00FF, floating-point numbers, formatting of containers). *)
Inductive exn : Type :=
| EOFError                (* raise EOFError("connection closed") *)
| StructError             (* struct.error: length does not fit '>I' *)
| UnicodeDecodeError      (* bytes.decode() *)
| JSONDecodeError         (* json.loads *)
| TypeError
| AttributeError
| KeyError
| ValueError
| ConnectionResetError    (* drain() on a lost connection *)
| OSError                 (* open_connection failed *)
| ClientError             (* the outbound HTTP client failed *)
| RecursionError
| OutsideModel.

Inductive result (A : Type) : Type :=
| Ok (a : A)
| Err (e : exn).
Arguments Ok {A} a.
Arguments Err {A} e.

(** A loop of the model has used up its fuel. *)
Definition ran_out {A} (r : result A) : Prop :=
  match r with
  | Err RecursionError => True
  | _ => False
  end.

(** ** [struct.pack('>I', n)] and [struct.unpack('>I', b)]

    Four bytes, most significant first; [byte_of_Z] keeps the low eight
    bits. *)

Definition byte_of_Z (z : Z) : byte :=
  match Byte.of_N (Z.to_N (z mod 256)) with
  | Some b => b
  | None => Byte.x00
  end.

Definition Z_of_byte (b : byte) : Z := Z.of_N (Byte.to_N b).

Definition pack_u32be (n : Z) : result bytes :=
  if (0 <=? n) && (n <? 2 ^ 32) then
    Ok [ byte_of_Z (n / 2 ^ 24); byte_of_Z (n / 2 ^ 16);
         byte_of_Z (n / 2 ^ 8); byte_of_Z n ]
  else Err StructError.

Definition unpack_u32be (b : bytes) : result Z :=
  match b with
  | [b3; b2; b1; b0] =>
      Ok (Z_of_byte b3 * 2 ^ 24 + Z_of_byte b2 * 2 ^ 16
          + Z_of_byte b1 * 2 ^ 8 + Z_of_byte b0)
  | _ => Err StructError
  end.

(** ** Stream readers *)

(** The chunks that will still arrive; [[]] is end-of-stream.  Empty chunks
    carry no data and are skipped. *)
Definition reader := list bytes.

Definition content (r : reader) : bytes := concat r.

(** [reader.read(n)] for [n > 0]: wait for data, then return at most [n]
    bytes of what has arrived; [b''] only at end-of-stream. *)
Fixpoint read_some (r : reader) (k : nat) : bytes * reader :=
  match r with
  | [] => ([], [])
  | c :: r' =>
      match c with
      | [] => read_some r' k
      | _ :: _ =>
          (firstn k c,
           match skipn k c with
           | [] => r'
           | rest => rest :: r'
           end)
      end
  end.

Definition read (r : reader) (n : Z) : bytes * reader :=
  if n =? 0 then ([], r)
  else if n <? 0 then (content r, [])
  else read_some r (Z.to_nat n).

(** [read_exact(reader, n)]:
<<
    data = b""
    while len(data) < n:
        chunk = await reader.read(n - len(data))
        if not chunk: raise EOFError("connection closed")
        data += chunk
    return data
>>
    Every pass of the loop body either finishes a chunk or completes
    [data], so one unit of fuel per chunk (plus one for the pass that meets
    end-of-stream) is enough. *)
Fixpoint read_exact_loop (fuel : nat) (r : reader) (n : Z) (data : bytes)
  : result bytes * reader :=
  if len data <? n then
    match fuel with
    | O => (Err RecursionError, r)
    | S fuel' =>
        let (chunk, r') := read r (n - len data) in
        match chunk with
        | [] => (Err EOFError, r')
        | _ :: _ => read_exact_loop fuel' r' n (data ++ chunk)
        end
    end
  else (Ok data, r).

Definition read_exact (r : reader) (n : Z) : result bytes * reader :=
  read_exact_loop (S (length r)) r n [].

(** ** Text: code points, UTF-8, decimal numerals, [str] methods *)

Definition ord (c : ascii) : Z := Z.of_N (N_of_ascii c).
Definition chr (z : Z) : ascii := ascii_of_N (Z.to_N z).

Definition DQ : ascii := chr 34.          (* the double quote *)
Definition BSL : ascii := "\"%char.
Definition SP : ascii := " "%char.

(** [s.encode()]: UTF-8; a code point below U+0080 is one byte, one in
    U+0080..U+00FF is two. *)
Definition utf8_char (c : ascii) : bytes :=
  if ord c <? 128 then [byte_of_ascii c]
  else [byte_of_Z (192 + ord c / 64); byte_of_Z (128 + ord c mod 64)].

Definition utf8_encode (s : str) : bytes := flat_map utf8_char s.

(** [b.decode()]: strict UTF-8.  Lead bytes 0xC4..0xF4 start sequences for
    code points above U+00FF (or ill-formed ones): [OutsideModel]. *)
Fixpoint utf8_decode (b : bytes) : result str :=
  match b with
  | [] => Ok []
  | x :: b' =>
      let n := Z_of_byte x in
      if n <? 128 then
        match utf8_decode b' with
        | Ok s => Ok (ascii_of_byte x :: s)
        | Err e => Err e
        end
      else if (194 <=? n) && (n <=? 195) then
        match b' with
        | y :: b'' =>
            let m := Z_of_byte y in
            if (128 <=? m) && (m <? 192) then
              match utf8_decode b'' with
              | Ok s => Ok (chr (64 * (n - 192) + (m - 128)) :: s)
              | Err e => Err e
              end
            else Err UnicodeDecodeError
        | [] => Err UnicodeDecodeError
        end
      else if (n <? 194) || (245 <=? n) then Err UnicodeDecodeError
      else Err OutsideModel
  end.

(** Decimal numerals: [str(n)] for an [int], as used by [json.dumps] and by
    f-strings. *)
Fixpoint str_of_uint (u : Decimal.uint) : str :=
  match u with
  | Decimal.Nil => []
  | Decimal.D0 u => "0"%char :: str_of_uint u
  | Decimal.D1 u => "1"%char :: str_of_uint u
  | Decimal.D2 u => "2"%char :: str_of_uint u
  | Decimal.D3 u => "3"%char :: str_of_uint u
  | Decimal.D4 u => "4"%char :: str_of_uint u
  | Decimal.D5 u => "5"%char :: str_of_uint u
  | Decimal.D6 u => "6"%char :: str_of_uint u
  | Decimal.D7 u => "7"%char :: str_of_uint u
  | Decimal.D8 u => "8"%char :: str_of_uint u
  | Decimal.D9 u => "9"%char :: str_of_uint u
  end.

Definition str_of_Z (z : Z) : str :=
  match z with
  | Z0 => ["0"%char]
  | Zpos p => str_of_uint (Pos.to_uint p)
  | Zneg p => "-"%char :: str_of_uint (Pos.to_uint p)
  end.

Definition digit_of (c : ascii) : option (Decimal.uint -> Decimal.uint) :=
  match c with
  | "0"%char => Some Decimal.D0
  | "1"%char => Some Decimal.D1
  | "2"%char => Some Decimal.D2
  | "3"%char => Some Decimal.D3
  | "4"%char => Some Decimal.D4
  | "5"%char => Some Decimal.D5
  | "6"%char => Some Decimal.D6
  | "7"%char => Some Decimal.D7
  | "8"%char => Some Decimal.D8
  | "9"%char => Some Decimal.D9
  | _ => None
  end.

Definition is_digit (c : ascii) : bool :=
  match digit_of c with Some _ => true | None => false end.

(** The longest prefix of decimal digits, and what follows it. *)
Fixpoint take_digits (s : str) : Decimal.uint * str :=
  match s with
  | [] => (Decimal.Nil, [])
  | c :: s' =>
      match digit_of c with
      | Some d => let (u, rest) := take_digits s' in (d u, rest)
      | None => (Decimal.Nil, s)
      end
  end.

Definition Z_of_uint (u : Decimal.uint) : Z := Z.of_N (Pos.of_uint u).

(** [str] methods used by the acceptor. *)

Definition is_space (c : ascii) : bool :=
  let n := ord c in
  ((9 <=? n) && (n <=? 13)) || ((28 <=? n) && (n <=? 32))
  || (n =? 133) || (n =? 160).

Fixpoint lstrip (s : str) : str :=
  match s with
  | c :: s' => if is_space c then lstrip s' else s
  | [] => []
  end.

(** [s.strip()] *)
Definition strip (s : str) : str := rev (lstrip (rev (lstrip s))).

Fixpoint lstrip_crlf (s : str) : str :=
  match s with
  | c :: s' =>
      if Ascii.eqb c CR || Ascii.eqb c LF then lstrip_crlf s' else s
  | [] => []
  end.

(** [s.rstrip('\r\n')] *)
Definition rstrip_crlf (s : str) : str := rev (lstrip_crlf (rev s)).

(** [s.split(sep)] for a one-character separator: every occurrence
    separates, empty fields are kept. *)
Fixpoint split (sep : ascii) (s : str) : list str :=
  match s with
  | [] => [[]]
  | c :: s' =>
      if Ascii.eqb c sep then [] :: split sep s'
      else match split sep s' with
           | f :: fs => (c :: f) :: fs
           | [] => [[c]]
           end
  end.

(** [s.split(sep, 1)] when [sep in s]: the text before and after the first
    separator. *)
Fixpoint split1 (sep : ascii) (s : str) : option (str * str) :=
  match s with
  | [] => None
  | c :: s' =>
      if Ascii.eqb c sep then Some ([], s')
      else match split1 sep s' with
           | Some (a, b) => Some (c :: a, b)
           | None => None
           end
  end.

Definition contains (sep : ascii) (s : str) : bool :=
  existsb (Ascii.eqb sep) s.

(** [s.upper()], as far as comparing the result with [CONNECT] needs:
    within U+0000..U+00FF the letters a..z become A..Z, and no other
    character becomes one of the letters of [CONNECT]. *)
Definition upper_char (c : ascii) : ascii :=
  if (97 <=? ord c) && (ord c <=? 122) then chr (ord c - 32) else c.

Definition upper (s : str) : str := map upper_char s.

(** [s.lower()] within U+0000..U+00FF: the letters A..Z and the accented
    capitals U+00C0..U+00DE, the multiplication sign U+00D7 excepted,
    move up by 32. *)
Definition lower_char (c : ascii) : ascii :=
  let n := ord c in
  if ((65 <=? n) && (n <=? 90))
     || ((192 <=? n) && (n <=? 222) && negb (n =? 215))
  then chr (n + 32) else c.

Definition lower (s : str) : str := map lower_char s.

(** The white space [int] skips around a numeral.  It is not that of
    [strip]: below U+007F only TAB, LF, VT, FF, CR and the space count, so
    the separators U+001C..U+001F make [int] raise. *)
Definition is_int_space (c : ascii) : bool :=
  let n := ord c in
  ((9 <=? n) && (n <=? 13)) || (n =? 32) || (n =? 133) || (n =? 160).

Fixpoint lstrip_int (s : str) : str :=
  match s with
  | c :: s' => if is_int_space c then lstrip_int s' else s
  | [] => []
  end.

(** The interpreter's default limit on the number of digits [int] converts
    ([sys.int_info.default_max_str_digits]). *)
Definition max_str_digits : Z := 4300.

(** [int(s)] for a [str]: surrounding white space, an optional sign,
    decimal digits (leading zeros allowed, and counted by the limit).
    Digit groups separated by underscores are outside the model. *)
Definition int_of_str (s : str) : result Z :=
  let t := rev (lstrip_int (rev (lstrip_int s))) in
  let neg := match t with c :: _ => Ascii.eqb c "-"%char | [] => false end in
  let pos := match t with c :: _ => Ascii.eqb c "+"%char | [] => false end in
  let d := if neg || pos then tl t else t in
  match take_digits d with
  | (Decimal.Nil, _) => Err ValueError
  | (u, []) =>
      if max_str_digits <? len (str_of_uint u) then Err ValueError
      else Ok (if neg then - Z_of_uint u else Z_of_uint u)
  | (_, c :: _) =>
      if Ascii.eqb c "_"%char then Err OutsideModel else Err ValueError
  end.

(** ** JSON values, [json.dumps] and [json.loads] *)

(** The values [json.loads] produces, floats excepted.  A [dict] keeps its
    keys in insertion order, and [json.dumps] writes them in that order. *)
Inductive json : Type :=
| JNull
| JBool (b : bool)
| JInt (z : Z)
| JStr (s : str)
| JArr (l : list json)
| JObj (d : list (str * json)).

Definition dict := list (str * json).

(** [d.get(k)] *)
Fixpoint dict_get (k : str) (d : dict) : option json :=
  match d with
  | [] => None
  | (k', v) :: d' => if str_eqb k k' then Some v else dict_get k d'
  end.

(** [d[k] = v]: an existing key keeps its place. *)
Fixpoint dict_set (d : dict) (k : str) (v : json) : dict :=
  match d with
  | [] => [(k, v)]
  | (k', v') :: d' =>
      if str_eqb k k' then (k', v) :: d' else (k', v') :: dict_set d' k v
  end.

(** [header.get(k)] on whatever [json.loads] returned: only a [dict] has
    the method. *)
Definition get (j : json) (k : str) : result (option json) :=
  match j with
  | JObj d => Ok (dict_get k d)
  | _ => Err AttributeError
  end.

(** [header[k]] on a [dict]. *)
Definition getitem (j : json) (k : str) : result json :=
  match j with
  | JObj d =>
      match dict_get k d with
      | Some v => Ok v
      | None => Err KeyError
      end
  | _ => Err TypeError
  end.

Definition hex_digit (n : Z) : ascii :=
  if n <? 10 then chr (48 + n) else chr (87 + n).

(** One character of a string, as [json.dumps] writes it with
    [ensure_ascii=True]. *)
Definition escape_char (c : ascii) : str :=
  let n := ord c in
  if n =? 34 then [BSL; DQ]
  else if n =? 92 then [BSL; BSL]
  else if n =? 10 then [BSL; "n"%char]
  else if n =? 13 then [BSL; "r"%char]
  else if n =? 9 then [BSL; "t"%char]
  else if n =? 8 then [BSL; "b"%char]
  else if n =? 12 then [BSL; "f"%char]
  else if (32 <=? n) && (n <=? 126) then [c]
  else [BSL; "u"%char; "0"%char; "0"%char;
        hex_digit (n / 16); hex_digit (n mod 16)].

Definition dumps_str (s : str) : str :=
  DQ :: flat_map escape_char s ++ [DQ].

(** [json.dumps(j)] with the default separators [", "] and [": "]. *)
Fixpoint dumps (j : json) : str :=
  match j with
  | JNull => str_of "null"
  | JBool true => str_of "true"
  | JBool false => str_of "false"
  | JInt z => str_of_Z z
  | JStr s => dumps_str s
  | JArr l =>
      "["%char ::
      (fix items (l : list json) : str :=
         match l with
         | [] => []
         | [x] => dumps x
         | x :: l' => dumps x ++ str_of ", " ++ items l'
         end) l ++ ["]"%char]
  | JObj d =>
      "{"%char ::
      (fix members (d : list (str * json)) : str :=
         match d with
         | [] => []
         | [(k, v)] => dumps_str k ++ str_of ": " ++ dumps v
         | (k, v) :: d' =>
             dumps_str k ++ str_of ": " ++ dumps v ++ str_of ", " ++ members d'
         end) d ++ ["}"%char]
  end.

Definition is_ws (c : ascii) : bool :=
  Ascii.eqb c SP || Ascii.eqb c (chr 9) || Ascii.eqb c LF || Ascii.eqb c CR.

Fixpoint skip_ws (s : str) : str :=
  match s with
  | c :: s' => if is_ws c then skip_ws s' else s
  | [] => []
  end.

Definition hex_val (c : ascii) : option Z :=
  let n := ord c in
  if (48 <=? n) && (n <=? 57) then Some (n - 48)
  else if (97 <=? n) && (n <=? 102) then Some (n - 87)
  else if (65 <=? n) && (n <=? 70) then Some (n - 55)
  else None.

(** The characters of a JSON string up to its closing quote (the opening
    one already consumed), and the text after it. *)
Fixpoint scanstring (s : str) : result (str * str) :=
  match s with
  | [] => Err JSONDecodeError
  | c :: s1 =>
      if Ascii.eqb c DQ then Ok ([], s1)
      else if Ascii.eqb c BSL then
        match s1 with
        | [] => Err JSONDecodeError
        | e :: s2 =>
            let plain (x : ascii) :=
              match scanstring s2 with
              | Ok (t, r) => Ok (x :: t, r)
              | Err err => Err err
              end in
            if Ascii.eqb e DQ then plain DQ
            else if Ascii.eqb e BSL then plain BSL
            else if Ascii.eqb e "/"%char then plain "/"%char
            else if Ascii.eqb e "b"%char then plain (chr 8)
            else if Ascii.eqb e "f"%char then plain (chr 12)
            else if Ascii.eqb e "n"%char then plain LF
            else if Ascii.eqb e "r"%char then plain CR
            else if Ascii.eqb e "t"%char then plain (chr 9)
            else if Ascii.eqb e "u"%char then
              match s2 with
              | h3 :: h2 :: h1 :: h0 :: s3 =>
                  match hex_val h3, hex_val h2, hex_val h1, hex_val h0 with
                  | Some a, Some b, Some c', Some d =>
                      let n := 4096 * a + 256 * b + 16 * c' + d in
                      if n <? 256 then
                        match scanstring s3 with
                        | Ok (t, r) => Ok (chr n :: t, r)
                        | Err err => Err err
                        end
                      else Err OutsideModel
                  | _, _, _, _ => Err JSONDecodeError
                  end
              | _ => Err JSONDecodeError
              end
            else Err JSONDecodeError
        end
      else if ord c <? 32 then Err JSONDecodeError
      else
        match scanstring s1 with
        | Ok (t, r) => Ok (c :: t, r)
        | Err err => Err err
        end
  end.

Definition starts_with (p s : str) : bool :=
  str_eqb (firstn (length p) s) p.

(** What follows the integer part of a number makes it a float when it is
    a fraction [\.\d+] or an exponent [[eE][-+]?\d+]. *)
Definition float_tail (s : str) : bool :=
  match s with
  | c :: d :: s' =>
      if Ascii.eqb c "."%char then is_digit d
      else if Ascii.eqb c "e"%char || Ascii.eqb c "E"%char then
        if Ascii.eqb d "+"%char || Ascii.eqb d "-"%char then
          match s' with
          | d' :: _ => is_digit d'
          | [] => false
          end
        else is_digit d
      else false
  | _ => false
  end.

(** The number at the head of [s]: an optional minus sign, then either a
    single 0 or a nonzero digit followed by digits, then an optional
    fraction and exponent; [None] when [s] does not start with a number. *)
Definition parse_number (s : str) : option (result (json * str)) :=
  let neg := match s with c :: _ => Ascii.eqb c "-"%char | [] => false end in
  let s1 := if neg then tl s else s in
  let finish (u : Decimal.uint) (rest : str) :=
    if float_tail rest then Some (Err OutsideModel)
    else Some (Ok (JInt (if neg then - Z_of_uint u else Z_of_uint u), rest)) in
  match s1 with
  | [] => None
  | c :: s2 =>
      if Ascii.eqb c "0"%char then finish (Decimal.D0 Decimal.Nil) s2
      else if is_digit c then
        let (u, rest) := take_digits s1 in finish u rest
      else None
  end.

(** The value at the head of [s] and the text after it.  [parse_members]
    reads the members of an object, positioned at a key's opening quote;
    [parse_elements] reads the elements of an array. *)
Fixpoint parse_value (fuel : nat) (s : str) : result (json * str) :=
  match fuel with
  | O => Err RecursionError
  | S fuel' =>
      match s with
      | [] => Err JSONDecodeError
      | c :: s1 =>
          if Ascii.eqb c DQ then
            match scanstring s1 with
            | Ok (t, r) => Ok (JStr t, r)
            | Err e => Err e
            end
          else if Ascii.eqb c "{"%char then
            match skip_ws s1 with
            | c1 :: s2 =>
                if Ascii.eqb c1 "}"%char then Ok (JObj [], s2)
                else parse_members fuel' (c1 :: s2) []
            | [] => Err JSONDecodeError
            end
          else if Ascii.eqb c "["%char then
            match skip_ws s1 with
            | c1 :: s2 =>
                if Ascii.eqb c1 "]"%char then Ok (JArr [], s2)
                else parse_elements fuel' (c1 :: s2) []
            | [] => Err JSONDecodeError
            end
          else if starts_with (str_of "null") s then
            Ok (JNull, skipn 4 s)
          else if starts_with (str_of "true") s then
            Ok (JBool true, skipn 4 s)
          else if starts_with (str_of "false") s then
            Ok (JBool false, skipn 5 s)
          else
            match parse_number s with
            | Some r => r
            | None =>
                if starts_with (str_of "NaN") s
                   || starts_with (str_of "Infinity") s
                   || starts_with (str_of "-Infinity") s
                then Err OutsideModel
                else Err JSONDecodeError
            end
      end
  end

with parse_members (fuel : nat) (s : str) (acc : dict)
  : result (json * str) :=
  match fuel with
  | O => Err RecursionError
  | S fuel' =>
      match s with
      | [] => Err JSONDecodeError
      | c :: s1 =>
          if Ascii.eqb c DQ then
            match scanstring s1 with
            | Err e => Err e
            | Ok (k, s2) =>
                match skip_ws s2 with
                | c2 :: s3 =>
                    if Ascii.eqb c2 ":"%char then
                      match parse_value fuel' (skip_ws s3) with
                      | Err e => Err e
                      | Ok (v, s4) =>
                          match skip_ws s4 with
                          | c4 :: s5 =>
                              if Ascii.eqb c4 "}"%char then
                                Ok (JObj (dict_set acc k v), s5)
                              else if Ascii.eqb c4 ","%char then
                                parse_members fuel' (skip_ws s5)
                                  (dict_set acc k v)
                              else Err JSONDecodeError
                          | [] => Err JSONDecodeError
                          end
                      end
                    else Err JSONDecodeError
                | [] => Err JSONDecodeError
                end
            end
          else Err JSONDecodeError
      end
  end

with parse_elements (fuel : nat) (s : str) (acc : list json)
  : result (json * str) :=
  match fuel with
  | O => Err RecursionError
  | S fuel' =>
      match parse_value fuel' s with
      | Err e => Err e
      | Ok (v, s1) =>
          match skip_ws s1 with
          | c :: s2 =>
              if Ascii.eqb c "]"%char then Ok (JArr (acc ++ [v]), s2)
              else if Ascii.eqb c ","%char then
                parse_elements fuel' (skip_ws s2) (acc ++ [v])
              else Err JSONDecodeError
          | [] => Err JSONDecodeError
          end
      end
  end.

(** [json.loads(s)]: one value, white space allowed around it, nothing
    else.  The parser makes at most two calls per character, so twice the
    length of the text bounds the fuel. *)
Definition loads (s : str) : result json :=
  match parse_value (S (2 * length s)) (skip_ws s) with
  | Err e => Err e
  | Ok (j, rest) =>
      match skip_ws rest with
      | [] => Ok j
      | _ :: _ => Err JSONDecodeError
      end
  end.

(** ** Sockets *)

(** One TCP connection as asyncio exposes it: the [StreamReader] ([rd]),
    and the [StreamWriter] with the bytes written so far ([out]), the
    transport's [is_closing()] flag, and whether the write side alone has
    been shut down ([eof_sent], what [write_eof()] does). *)
Record sock : Type := mkSock {
  rd : reader;
  out : bytes;
  closing : bool;
  eof_sent : bool
}.

Definition set_rd (s : sock) (r : reader) : sock :=
  mkSock r (out s) (closing s) (eof_sent s).

(** A connection just opened, on which [r] will arrive. *)
Definition fresh (r : reader) : sock := mkSock r [] false false.

(** [writer.write(data)]: a transport that is closing drops the data. *)
Definition write (w : sock) (data : bytes) : sock :=
  if closing w then w
  else mkSock (rd w) (out w ++ data) (closing w) (eof_sent w).

(** [await writer.drain()]: fails once the connection is gone.  In the
    model that is after the program's own [close()]: a write that the
    network, or a peer that has closed, makes fail is not modelled. *)
Definition drain (w : sock) : result unit :=
  if closing w then Err ConnectionResetError else Ok tt.

(** [writer.close(); await writer.wait_closed()]: closes the transport in
    both directions; the paired reader is fed end-of-stream, so what has
    not been read by then is never read. *)
Definition close (w : sock) : sock := mkSock [] (out w) true (eof_sent w).

(** [writer.write_eof()]: shuts down the write side only and leaves the
    transport open for reading.  The source never calls it. *)
Definition write_eof (w : sock) : sock :=
  mkSock (rd w) (out w) (closing w) true.

(** The peer closes the connection in good order: the reader meets
    end-of-stream.  asyncio keeps a plain TCP transport open for writing
    after the peer's end-of-stream ([StreamReaderProtocol.eof_received]
    returns [True]), so [is_closing()] does not change; only [close()] or
    a connection error makes it true. *)
Definition peer_hung_up (w : sock) : sock :=
  mkSock [] (out w) (closing w) (eof_sent w).

(** ** Wire framing codec *)

(** [send_message(writer, header, body)] *)
Definition send_message (w : sock) (header : json) (body : bytes)
  : result unit * sock :=
  let hbytes := utf8_encode (dumps header) in
  match pack_u32be (len hbytes) with
  | Err e => (Err e, w)
  | Ok prefix =>
      let w1 := write w prefix in
      let w2 := write w1 hbytes in
      let w3 := match body with [] => w2 | _ :: _ => write w2 body end in
      (drain w3, w3)
  end.

(** The bytes of one frame on the wire. *)
Definition frame_bytes (header : json) (body : bytes) : result bytes :=
  let hbytes := utf8_encode (dumps header) in
  match pack_u32be (len hbytes) with
  | Err e => Err e
  | Ok prefix => Ok (prefix ++ hbytes ++ body)
  end.

Definition k_type : str := str_of "type".
Definition k_body_len : str := str_of "body_len".

(** [v > 0] for the value of a header field. *)
Definition gt0 (v : json) : result bool :=
  match v with
  | JInt z => Ok (0 <? z)
  | JBool b => Ok b
  | _ => Err TypeError
  end.

(** The value of a header field used as a byte count. *)
Definition as_count (v : json) : Z :=
  match v with
  | JInt z => z
  | JBool true => 1
  | _ => 0
  end.

(** [read_message(reader)] *)
Definition read_message (r : reader) : result (json * bytes) * reader :=
  match read_exact r 4 with
  | (Err e, r1) => (Err e, r1)
  | (Ok hdr, r1) =>
      match unpack_u32be hdr with
      | Err e => (Err e, r1)
      | Ok hlen =>
          match read_exact r1 hlen with
          | (Err e, r2) => (Err e, r2)
          | (Ok hjson, r2) =>
              match utf8_decode hjson with
              | Err e => (Err e, r2)
              | Ok text =>
                  match loads text with
                  | Err e => (Err e, r2)
                  | Ok header =>
                      match get header k_body_len with
                      | Err e => (Err e, r2)
                      | Ok field =>
                          let v := match field with
                                   | Some v => v
                                   | None => JInt 0
                                   end in
                          match gt0 v with
                          | Err e => (Err e, r2)
                          | Ok false => (Ok (header, []), r2)
                          | Ok true =>
                              match read_exact r2 (as_count v) with
                              | (Err e, r3) => (Err e, r3)
                              | (Ok body, r3) => (Ok (header, body), r3)
                              end
                          end
                      end
                  end
              end
          end
      end
  end.

(** ** The state-and-exception monad *)

Definition M (S A : Type) : Type := S -> result A * S.

Definition ret {S A} (a : A) : M S A := fun s => (Ok a, s).

Definition raise {S A} (e : exn) : M S A := fun s => (Err e, s).

Definition bind {S A B} (m : M S A) (k : A -> M S B) : M S B :=
  fun s =>
    match m s with
    | (Ok a, s') => k a s'
    | (Err e, s') => (Err e, s')
    end.

(** [try: m  except Exception: h] *)
Definition try_except {S A} (m : M S A) (h : exn -> M S A) : M S A :=
  fun s =>
    match m s with
    | (Ok a, s') => (Ok a, s')
    | (Err e, s') => h e s'
    end.

Definition lift {S A} (r : result A) : M S A := fun s => (r, s).

Definition modify {S} (f : S -> S) : M S unit := fun s => (Ok tt, f s).

Declare Scope monad_scope.
Delimit Scope monad_scope with monad.
Notation "x <- m ;; k" := (bind m (fun x => k))
  (at level 61, m at next level, right associativity) : monad_scope.
Notation "m ;;; k" := (bind m (fun _ => k))
  (at level 61, right associativity) : monad_scope.
Open Scope monad_scope.

(** ** Ship: handlers of the serializer *)

(** What a handler works on: the uplink ([self.offshore_reader] and
    [self.offshore_writer], [None] before the first dial) and the client
    socket of the work item. *)
Record hstate : Type := mkH {
  up : option sock;
  cl : sock
}.

Definition Handler := M hstate.

(** [await send_message(self.offshore_writer, header, body)] *)
Definition up_send (header : json) (body : bytes) : Handler unit :=
  fun st =>
    match up st with
    | Some w =>
        let (r, w') := send_message w header body in
        (r, mkH (Some w') (cl st))
    | None =>
        match pack_u32be (len (utf8_encode (dumps header))) with
        | Err e => (Err e, st)
        | Ok _ => (Err AttributeError, st)
        end
    end.

(** [await read_message(self.offshore_reader)] *)
Definition up_read_message : Handler (json * bytes) :=
  fun st =>
    match up st with
    | Some w =>
        let (r, r') := read_message (rd w) in
        (r, mkH (Some (set_rd w r')) (cl st))
    | None => (Err AttributeError, st)
    end.

Definition cl_write (data : bytes) : Handler unit :=
  modify (fun st => mkH (up st) (write (cl st) data)).

Definition cl_drain : Handler unit := fun st => (drain (cl st), st).

(** [client_writer.close(); await client_writer.wait_closed()] *)
Definition cl_close : Handler unit :=
  modify (fun st => mkH (up st) (close (cl st))).

(** [await client_reader.read(n)] *)
Definition cl_read (n : Z) : Handler bytes :=
  fun st =>
    let (chunk, r') := read (rd (cl st)) n in
    (Ok chunk, mkH (up st) (set_rd (cl st) r')).

(** [b'HTTP/1.1 502 Bad Gateway\r\nContent-Length: 11\r\n\r\nBad Gateway'] *)
Definition bad_gateway : bytes :=
  bytes_of "HTTP/1.1 502 Bad Gateway" ++ bCRLF
  ++ bytes_of "Content-Length: 11" ++ bCRLF ++ bCRLF
  ++ bytes_of "Bad Gateway".

(** [b'HTTP/1.1 200 Connection Established\r\n\r\n'] *)
Definition connection_established : bytes :=
  bytes_of "HTTP/1.1 200 Connection Established" ++ bCRLF ++ bCRLF.

Definition reply_bad_gateway : Handler unit :=
  cl_write bad_gateway ;;; cl_drain ;;; cl_close.

(** [v == 'name'] for a header field. *)
Definition is_str (v : option json) (name : string) : bool :=
  match v with
  | Some (JStr s) => str_eqb s (str_of name)
  | _ => false
  end.

(** [f'{v}'] for a value that came out of [json.loads]. *)
Definition format (v : json) : result str :=
  match v with
  | JInt z => Ok (str_of_Z z)
  | JStr s => Ok s
  | JBool true => Ok (str_of "True")
  | JBool false => Ok (str_of "False")
  | JNull => Ok (str_of "None")
  | JArr _ | JObj _ => Err OutsideModel
  end.

Definition sCRLF : str := [CR; LF].

(** [for k, v in rhdrs.items(): client_writer.write(f'{k}: {v}\r\n'.encode())] *)
Fixpoint write_headers (d : dict) : Handler unit :=
  match d with
  | [] => ret tt
  | (k, v) :: d' =>
      t <- lift (format v) ;;
      cl_write (utf8_encode (k ++ str_of ": " ++ t ++ sCRLF)) ;;;
      write_headers d'
  end.

Definition str_dict (headers : list (str * str)) : json :=
  JObj (map (fun kv => (fst kv, JStr (snd kv))) headers).

Definition http_request_header (method target : str)
  (headers : list (str * str)) (body : bytes) : json :=
  JObj [ (k_type, JStr (str_of "HTTPRequest"));
         (str_of "method", JStr method);
         (str_of "url", JStr target);
         (str_of "headers", str_dict headers);
         (k_body_len, JInt (len body)) ].

(** [ShipProxy._handle_http_request] *)
Definition handle_http_request (method target : str)
  (headers : list (str * str)) (body : bytes) : Handler unit :=
  up_send (http_request_header method target headers body) body ;;;
  resp <- try_except
            (m <- up_read_message ;; ret (Some m))
            (fun _ => reply_bad_gateway ;;; ret None) ;;
  match resp with
  | None => ret tt
  | Some (resp_header, resp_body) =>
      t <- lift (get resp_header k_type) ;;
      if negb (is_str t "HTTPResponse") then reply_bad_gateway
      else
        sc <- lift (get resp_header (str_of "status_code")) ;;
        hd <- lift (get resp_header (str_of "headers")) ;;
        let status := match sc with Some v => v | None => JInt 502 end in
        let rhdrs := match hd with Some v => v | None => JObj [] end in
        st <- lift (format status) ;;
        cl_write (utf8_encode (str_of "HTTP/1.1 " ++ st ++ str_of " OK" ++ sCRLF)) ;;;
        match rhdrs with
        | JObj d => write_headers d
        | _ => raise AttributeError
        end ;;;
        cl_write bCRLF ;;;
        match resp_body with
        | [] => ret tt
        | _ :: _ => cl_write resp_body
        end ;;;
        cl_drain ;;;
        cl_close
  end.

Definition data_end_header : json :=
  JObj [ (k_type, JStr (str_of "DATA_END")); (k_body_len, JInt 0) ].

Definition data_header (chunk : bytes) : json :=
  JObj [ (k_type, JStr (str_of "DATA")); (k_body_len, JInt (len chunk)) ].

(** The loop of [read_client_send]: one unit of fuel per pass. *)
Fixpoint client_to_uplink (fuel : nat) : Handler unit :=
  match fuel with
  | O => raise RecursionError
  | S fuel' =>
      chunk <- cl_read 4096 ;;
      match chunk with
      | [] => up_send data_end_header []
      | _ :: _ => up_send (data_header chunk) chunk ;;; client_to_uplink fuel'
      end
  end.

(** [read_client_send]: every pass but the last consumes client input. *)
Definition read_client_send : Handler unit :=
  fun st =>
    try_except
      (client_to_uplink (S (length (content (rd (cl st))))))
      (fun _ => try_except (up_send data_end_header []) (fun _ => ret tt))
      st.

(** The loop of [read_offshore_write]. *)
Fixpoint uplink_to_client (fuel : nat) : Handler unit :=
  match fuel with
  | O => raise RecursionError
  | S fuel' =>
      m <- up_read_message ;;
      let (h, b) := (m : json * bytes) in
      t <- lift (get h k_type) ;;
      if is_str t "DATA" then
        match b with
        | [] => ret tt
        | _ :: _ => cl_write b ;;; cl_drain
        end ;;;
        uplink_to_client fuel'
      else if is_str t "DATA_END" then ret tt
      else uplink_to_client fuel'
  end.

Definition uplink_pending (st : hstate) : nat :=
  match up st with
  | Some w => length (content (rd w))
  | None => O
  end.

(** [read_offshore_write]: every pass consumes a frame of the uplink. *)
Definition read_offshore_write : Handler unit :=
  fun st =>
    try_except (uplink_to_client (S (uplink_pending st))) (fun _ => ret tt) st.

(** Tunnel mode:
    [await asyncio.gather(read_client_send(), read_offshore_write())] and
    the final close.  The first coroutine reads the client and writes the
    uplink, the second reads the uplink and writes the client: they act on
    disjoint parts of the state, and running them one after the other
    gives the same result in either order ([tunnel_tasks_commute]). *)
Definition tunnel : Handler unit :=
  read_client_send ;;; read_offshore_write ;;;
  try_except cl_close (fun _ => ret tt).

Definition connect_header (host : str) (port : Z) : json :=
  JObj [ (k_type, JStr (str_of "CONNECT"));
         (str_of "host", JStr host);
         (str_of "port", JInt port) ].

(** [ShipProxy._handle_connect] *)
Definition handle_connect (host : str) (port : Z) : Handler unit :=
  up_send (connect_header host port) [] ;;;
  m <- up_read_message ;;
  t <- lift (get (fst m) k_type) ;;
  if negb (is_str t "CONNECT_OK") then reply_bad_gateway
  else
    cl_write connection_established ;;;
    cl_drain ;;;
    tunnel.

(** ** Ship: the serializer *)

(** A work item [(task_func, args)]: the handler with its arguments, and
    the client socket that travels with it. *)
Inductive task : Type :=
| HttpTask (method target : str) (headers : list (str * str)) (body : bytes)
| ConnectTask (host : str) (port : Z).

Record item : Type := mkItem {
  it_task : task;
  it_client : sock
}.

(** [await task_func] applied to its arguments. *)
Definition run_task (t : task) : Handler unit :=
  match t with
  | HttpTask method target headers body =>
      handle_http_request method target headers body
  | ConnectTask host port => handle_connect host port
  end.

(** What the serializer does, in order: [Picked k] when [queue.get()]
    returns the [k]-th item, [Done k r] when its handler has returned
    ([r = Ok tt]) or raised ([r = Err e], caught) and [queue.task_done()]
    has been called. *)
Inductive event : Type :=
| Picked (k : nat)
| Done (k : nat) (r : result unit).

(** The Ship process.  [net] lists the outcomes of the calls of
    [asyncio.open_connection] still to come; [handled] collects the client
    sockets as their handlers leave them. *)
Record ship : Type := mkShip {
  uplink : option sock;
  net : list (result sock);
  dials : nat;
  queue : list item;
  handled : list sock;
  done : nat;
  log : list event
}.

(** [ShipProxy.ensure_offshore] *)
Definition ensure_offshore : M ship unit :=
  fun s =>
    let connected :=
      match uplink s with
      | Some w => negb (closing w)
      | None => false
      end in
    if connected then (Ok tt, s)
    else
      match net s with
      | [] => (Err OSError, s)
      | Err e :: n =>
          (Err e,
           mkShip (uplink s) n (dials s) (queue s) (handled s) (done s) (log s))
      | Ok c :: n =>
          (Ok tt,
           mkShip (Some c) n (S (dials s)) (queue s) (handled s) (done s)
             (log s))
      end.

Section Worker.

(** The serializer is written for any handler. *)
Variable T : Type.
Variable task_func : T -> Handler unit.

(** One pass of the loop of [ShipProxy._worker], for the item just
    taken from the queue. *)
Definition worker_step (args : T) (client : sock) (s : ship) : ship :=
  let k := done s in
  let s0 := mkShip (uplink s) (net s) (dials s) (queue s) (handled s)
              (done s) (log s ++ [Picked k]) in
  match ensure_offshore s0 with
  | (Err e, s1) =>
      mkShip (uplink s1) (net s1) (dials s1) (queue s1)
        (handled s1 ++ [client]) (S k) (log s1 ++ [Done k (Err e)])
  | (Ok _, s1) =>
      let (r, h) := task_func args (mkH (uplink s1) client) in
      mkShip (up h) (net s1) (dials s1) (queue s1)
        (handled s1 ++ [cl h]) (S k) (log s1 ++ [Done k r])
  end.

(** The loop, over the items in the order [queue.get()] returns them. *)
Fixpoint worker_loop (items : list (T * sock)) (s : ship) : ship :=
  match items with
  | [] => s
  | (args, client) :: rest => worker_loop rest (worker_step args client s)
  end.

End Worker.

Arguments worker_step {T} task_func args client s.
Arguments worker_loop {T} task_func items s.

(** [ShipProxy._worker]: drains the queue, first in, first out, then
    blocks in [queue.get()]. *)
Definition worker (s : ship) : ship :=
  worker_loop run_task
    (map (fun it => (it_task it, it_client it)) (queue s))
    (mkShip (uplink s) (net s) (dials s) [] (handled s) (done s) (log s)).

(** ** Ship: the acceptor *)

Definition Acceptor := M sock.

(** [await reader.readline()]: up to and including the first LF, or what
    is left at end-of-stream. *)
Fixpoint readline_from (r : reader) (acc : bytes) : bytes * reader :=
  match r with
  | [] => (acc, [])
  | c :: r' =>
      (fix scan (pre c : bytes) : bytes * reader :=
         match c with
         | [] => readline_from r' (acc ++ pre)
         | x :: c' =>
             if Byte.eqb x bLF then
               (acc ++ pre ++ [x],
                match c' with [] => r' | _ :: _ => c' :: r' end)
             else scan (pre ++ [x]) c'
         end) [] c
  end.

Definition readline : Acceptor bytes :=
  fun s => let (line, r') := readline_from (rd s) [] in (Ok line, set_rd s r').

Definition c_read_exact (n : Z) : Acceptor bytes :=
  fun s => let (r, r') := read_exact (rd s) n in (r, set_rd s r').

Definition c_close : Acceptor unit := modify close.

(** [headers[k] = v] on the dictionary of request headers. *)
Fixpoint headers_set (d : list (str * str)) (k v : str) : list (str * str) :=
  match d with
  | [] => [(k, v)]
  | (k', v') :: d' =>
      if str_eqb k k' then (k', v) :: d' else (k', v') :: headers_set d' k v
  end.

Fixpoint headers_get (k : str) (d : list (str * str)) : option str :=
  match d with
  | [] => None
  | (k', v) :: d' => if str_eqb k k' then Some v else headers_get k d'
  end.

(** The loop that reads the header lines. *)
Fixpoint read_headers (fuel : nat) (headers : list (str * str))
  : Acceptor (list (str * str)) :=
  match fuel with
  | O => raise RecursionError
  | S fuel' =>
      line <- readline ;;
      if bytes_eqb line [] || bytes_eqb line bCRLF then ret headers
      else
        text <- lift (utf8_decode line) ;;
        let ln := rstrip_crlf text in
        match split1 ":"%char ln with
        | Some (k, v) => read_headers fuel' (headers_set headers (strip k) (strip v))
        | None => read_headers fuel' headers
        end
  end.

(** The body of the [try] of [ShipProxy.handle_client]; [Some t] is the
    work item it puts on the queue, [None] a connection it has closed. *)
Definition parse_client : Acceptor (option task) :=
  request_line <- readline ;;
  match request_line with
  | [] => c_close ;;; ret None
  | _ :: _ =>
      text <- lift (utf8_decode request_line) ;;
      let first_line := rstrip_crlf text in
      match split SP first_line with
      | method :: target :: proto :: _ =>
          headers <- (fun s => read_headers (S (length (content (rd s)))) [] s) ;;
          if str_eqb (upper method) (str_of "CONNECT") then
            hp <- (if contains ":"%char target then
                     match split ":"%char target with
                     | [host; port] =>
                         p <- lift (int_of_str port) ;; ret (host, p)
                     | _ => raise ValueError
                     end
                   else ret (target, 443)) ;;
            ret (Some (ConnectTask (fst hp) (snd hp)))
          else
            cl <- lift (match headers_get (str_of "Content-Length") headers with
                        | None | Some [] => Ok 0
                        | Some v => int_of_str v
                        end) ;;
            body <- (if 0 <? cl then c_read_exact cl else ret []) ;;
            ret (Some (HttpTask method target headers body))
      | _ => c_close ;;; ret None
      end
  end.

Inductive accepted : Type :=
| Enqueued (it : item)
| Closed (client : sock).

(** [ShipProxy.handle_client] *)
Definition handle_client (client : sock) : accepted :=
  match parse_client client with
  | (Ok (Some t), c) => Enqueued (mkItem t c)
  | (Ok None, c) => Closed c
  | (Err _, c) => Closed (close c)
  end.

(** A client connection arrives at the Ship. *)
Definition accept (client : sock) (s : ship) : ship :=
  match handle_client client with
  | Enqueued it =>
      mkShip (uplink s) (net s) (dials s) (queue s ++ [it]) (handled s)
        (done s) (log s)
  | Closed c =>
      mkShip (uplink s) (net s) (dials s) (queue s) (handled s ++ [c])
        (done s) (log s)
  end.

(** ** Offshore *)

Module Offshore.

(** [resp.headers] is a multidict whose names compare without regard to
    case: the header lines of the response in order, a name as often as
    the server sent it.  [resp.headers[k]] is the value of the first line
    whose name equals [k] ignoring case. *)
Fixpoint getone (pairs : list (str * str)) (k : str) : option str :=
  match pairs with
  | [] => None
  | (k', v) :: rest =>
      if str_eqb (lower k') (lower k) then Some v else getone rest k
  end.

(** [dict(resp.headers)]: [dict] takes the names in order and looks each
    one up, so a name that occurs again keeps its place and every name
    gets the value of the first line that bears it. *)
Definition dict_of (pairs : list (str * str)) : dict :=
  fold_left
    (fun d k =>
       match getone pairs k with
       | Some v => dict_set d k (JStr v)
       | None => d
       end)
    (map fst pairs) [].

(** The header of a response frame whose [headers] entry is [headers]. *)
Definition response_header_of (status : Z) (headers : json) (rbody : bytes)
  : json :=
  JObj [ (k_type, JStr (str_of "HTTPResponse"));
         (str_of "status_code", JInt status);
         (str_of "headers", headers);
         (k_body_len, JInt (len rbody)) ].

Definition response_header (status : Z) (headers : list (str * str))
  (rbody : bytes) : json :=
  response_header_of status (JObj (dict_of headers)) rbody.

(** The header of the synthetic response of the [except] branch. *)
Definition bad_gateway_header : json :=
  JObj [ (k_type, JStr (str_of "HTTPResponse"));
         (str_of "status_code", JInt 502);
         (str_of "headers",
           JObj [ (str_of "Content-Length", JStr (str_of "11")) ]);
         (k_body_len, JInt 11) ].

Definition bad_gateway_body : bytes := bytes_of "Bad Gateway".

Section Executor.

(** The outbound HTTP client, [session.request(method, url,
    headers=headers, data=body)] followed by [resp.read()]: the status,
    headers and body of the response, or the exception raised. *)
Variable http_request :
  json -> json -> json -> bytes -> result (Z * list (str * str) * bytes).

(** [OffshoreServer._handle_http_request]; the state is the uplink. *)
Definition handle_http_request (header : json) (body : bytes)
  : M sock unit :=
  method <- lift (getitem header (str_of "method")) ;;
  url <- lift (getitem header (str_of "url")) ;;
  hd <- lift (get header (str_of "headers")) ;;
  let headers := match hd with Some v => v | None => JObj [] end in
  try_except
    (resp <- lift (http_request method url headers body) ;;
     let '(status, rheaders, rbody) := resp in
     fun w => send_message w (response_header status rheaders rbody) rbody)
    (fun _ w => send_message w bad_gateway_header bad_gateway_body).

End Executor.

(** The two ends of a CONNECT bridge: the uplink to the Ship and the
    socket dialled to the target. *)
Record bridge : Type := mkBridge {
  link : sock;
  target : sock
}.

Definition Bridge := M bridge.

Definition link_read_message : Bridge (json * bytes) :=
  fun st =>
    let (r, r') := read_message (rd (link st)) in
    (r, mkBridge (set_rd (link st) r') (target st)).

Definition link_send (header : json) (body : bytes) : Bridge unit :=
  fun st =>
    let (r, w') := send_message (link st) header body in
    (r, mkBridge w' (target st)).

Definition target_write (data : bytes) : Bridge unit :=
  modify (fun st => mkBridge (link st) (write (target st) data)).

Definition target_drain : Bridge unit := fun st => (drain (target st), st).

(** [target_w.close(); await target_w.wait_closed()] *)
Definition target_close : Bridge unit :=
  modify (fun st => mkBridge (link st) (close (target st))).

(** [await target_r.read(n)] *)
Definition target_read (n : Z) : Bridge bytes :=
  fun st =>
    let (chunk, r') := read (rd (target st)) n in
    (Ok chunk, mkBridge (link st) (set_rd (target st) r')).

(** The loop of [ship_to_target]. *)
Fixpoint uplink_to_target (fuel : nat) : Bridge unit :=
  match fuel with
  | O => raise RecursionError
  | S fuel' =>
      m <- link_read_message ;;
      let (h, b) := (m : json * bytes) in
      t <- lift (get h k_type) ;;
      if is_str t "DATA" then
        match b with
        | [] => ret tt
        | _ :: _ => target_write b ;;; target_drain
        end ;;;
        uplink_to_target fuel'
      else if is_str t "DATA_END" then target_close
      else uplink_to_target fuel'
  end.

(** [ship_to_target] *)
Definition ship_to_target : Bridge unit :=
  fun st =>
    try_except
      (uplink_to_target (S (length (content (rd (link st))))))
      (fun _ => ret tt) st.

(** The loop of [target_to_ship]. *)
Fixpoint target_to_uplink (fuel : nat) : Bridge unit :=
  match fuel with
  | O => raise RecursionError
  | S fuel' =>
      chunk <- target_read 1024 ;;
      match chunk with
      | [] => link_send data_end_header []
      | _ :: _ => link_send (data_header chunk) chunk ;;; target_to_uplink fuel'
      end
  end.

(** [target_to_ship] *)
Definition target_to_ship : Bridge unit :=
  fun st =>
    try_except
      (target_to_uplink (S (length (content (rd (target st))))))
      (fun _ => ret tt) st.

(** One pass of the loop of [ship_to_target], and one of the loop of
    [target_to_ship]; [true] when the loop goes on. *)
Definition ship_to_target_pass : Bridge bool :=
  m <- link_read_message ;;
  let (h, b) := (m : json * bytes) in
  t <- lift (get h k_type) ;;
  if is_str t "DATA" then
    match b with
    | [] => ret tt
    | _ :: _ => target_write b ;;; target_drain
    end ;;;
    ret true
  else if is_str t "DATA_END" then target_close ;;; ret false
  else ret true.

Definition target_to_ship_pass : Bridge bool :=
  chunk <- target_read 1024 ;;
  match chunk with
  | [] => link_send data_end_header [] ;;; ret false
  | _ :: _ => link_send (data_header chunk) chunk ;;; ret true
  end.

(** A coroutine inside its [try]: a pass that raises ends it. *)
Definition guarded (pass : Bridge bool) (st : bridge) : bool * bridge :=
  match pass st with
  | (Ok go, st') => (go, st')
  | (Err _, st') => (false, st')
  end.

(** [await asyncio.gather(ship_to_target(), target_to_ship())].  The two
    coroutines run concurrently: the event loop decides which of them
    makes its next pass, according to what has arrived on which socket.
    [schedule] lists those decisions, [true] for [ship_to_target]; a
    decision for a coroutine that has finished goes to the other one, and
    when the list is used up [ship_to_target] goes first.  [a] and [b]
    tell which of the two is still running.  Neither coroutine lets an
    exception out, so [gather] returns when both have finished. *)
Fixpoint run_bridge (fuel : nat) (schedule : list bool) (a b : bool)
  : Bridge unit :=
  fun st =>
    if negb a && negb b then (Ok tt, st)
    else
      match fuel with
      | O => (Err RecursionError, st)
      | S fuel' =>
          let pick := match schedule with x :: _ => x | [] => true end in
          if a && (pick || negb b) then
            let (go, st') := guarded ship_to_target_pass st in
            run_bridge fuel' (tl schedule) go b st'
          else
            let (go, st') := guarded target_to_ship_pass st in
            run_bridge fuel' (tl schedule) a go st'
      end.

(** Every pass of [ship_to_target] but the last consumes a frame of the
    uplink, every pass of [target_to_ship] but the last a byte of the
    target. *)
Definition gather (schedule : list bool) : Bridge unit :=
  fun st =>
    run_bridge
      (S (S (length (content (rd (link st)))
             + length (content (rd (target st))))))
      schedule true true st.

(** [int(v)] for a value of a header. *)
Definition int_of (v : json) : result Z :=
  match v with
  | JInt z => Ok z
  | JBool b => Ok (if b then 1 else 0)
  | JStr s => int_of_str s
  | JNull | JArr _ | JObj _ => Err TypeError
  end.

(** [{'type': 'CONNECT_OK'}] *)
Definition connect_ok_header : json :=
  JObj [ (k_type, JStr (str_of "CONNECT_OK")) ].

(** [{'type': 'ERROR', 'message': str(e)}] *)
Definition error_header (msg : str) : json :=
  JObj [ (k_type, JStr (str_of "ERROR")); (str_of "message", JStr msg) ].

Section Server.

(** What the Offshore process takes from its environment: the outbound
    HTTP client, [asyncio.open_connection(host, port)] with the socket it
    returns or the exception it raises, [str(e)] for an exception, and the
    interleaving the event loop gives the two coroutines of a bridge. *)
Variable http_request :
  json -> json -> json -> bytes -> result (Z * list (str * str) * bytes).
Variable open_connection : json -> Z -> result sock.
Variable message : exn -> str.
Variable schedule : list bool.

(** [OffshoreServer._handle_connect]; the state is the uplink. *)
Definition handle_connect (header : json) : M sock unit :=
  host <- lift (getitem header (str_of "host")) ;;
  p <- lift (getitem header (str_of "port")) ;;
  port <- lift (int_of p) ;;
  try_except
    (fun w =>
       match open_connection host port with
       | Err e => (Err e, w)
       | Ok t =>
           match send_message w connect_ok_header [] with
           | (Err e, w1) => (Err e, w1)
           | (Ok _, w1) =>
               let (r, st) := gather schedule (mkBridge w1 t) in
               (r, link st)
           end
       end)
    (fun e w => send_message w (error_header (message e)) []).

(** [await read_message(reader)] on the uplink. *)
Definition ship_read_message : M sock (json * bytes) :=
  fun w => let (r, r') := read_message (rd w) in (r, set_rd w r').

(** The loop of [OffshoreServer.handle_ship]: every pass consumes a frame
    of the uplink. *)
Fixpoint serve (fuel : nat) : M sock unit :=
  match fuel with
  | O => raise RecursionError
  | S fuel' =>
      m <- ship_read_message ;;
      let (header, body) := (m : json * bytes) in
      mtype <- lift (get header k_type) ;;
      (if is_str mtype "HTTPRequest" then
         handle_http_request http_request header body
       else if is_str mtype "CONNECT" then handle_connect header
       else ret tt) ;;;
      serve fuel'
  end.

(** [OffshoreServer.handle_ship] *)
Definition handle_ship : M sock unit :=
  fun w =>
    try_except (serve (S (length (content (rd w)))))
      (fun _ => modify close) w.

End Server.

End Offshore.

(** ** Vocabulary of the specification *)

(** A header dictionary as Python builds it: no key occurs twice, at any
    depth. *)
Fixpoint keys_unique (ks : list str) : bool :=
  match ks with
  | [] => true
  | k :: ks' => negb (existsb (str_eqb k) ks') && keys_unique ks'
  end.

Fixpoint wf_json (j : json) : bool :=
  match j with
  | JArr l => forallb wf_json l
  | JObj d =>
      keys_unique (map fst d) && forallb (fun kv => wf_json (snd kv)) d
  | _ => true
  end.

(** The number of parser calls a value needs. *)
Fixpoint size (j : json) : nat :=
  match j with
  | JArr l => S (fold_right (fun x n => S (size x + n)) O l)
  | JObj d => S (fold_right (fun kv n => S (size (snd kv) + n)) O d)
  | _ => 1
  end.

(** Text that can follow a value inside a JSON document. *)
Definition ends_value (rest : str) : Prop :=
  match rest with
  | [] => True
  | c :: _ => c = ","%char \/ c = "]"%char \/ c = "}"%char
  end.

(** The text between the brackets of an array, and between the braces of
    an object, as [dumps] writes them. *)
Fixpoint dumps_items (l : list json) : str :=
  match l with
  | [] => []
  | [x] => dumps x
  | x :: l' => dumps x ++ str_of ", " ++ dumps_items l'
  end.

Fixpoint dumps_members (d : dict) : str :=
  match d with
  | [] => []
  | [(k, v)] => dumps_str k ++ str_of ": " ++ dumps v
  | (k, v) :: d' =>
      dumps_str k ++ str_of ": " ++ dumps v ++ str_of ", " ++ dumps_members d'
  end.

(** [dict(pairs)] added to [acc]. *)
Definition set_all (acc d : dict) : dict :=
  fold_left (fun a kv => dict_set a (fst kv) (snd kv)) d acc.

(** The header carried by the header bytes of a frame. *)
Definition header_of (hb : bytes) : result json :=
  match utf8_decode hb with
  | Err e => Err e
  | Ok text => loads text
  end.

(** The payload length a header declares: [body_len] when it is positive,
    0 when it is absent or not positive. *)
Definition declared_body_len (h : json) : result Z :=
  match get h k_body_len with
  | Err e => Err e
  | Ok field =>
      let v := match field with Some v => v | None => JInt 0 end in
      match gt0 v with
      | Err e => Err e
      | Ok true => Ok (as_count v)
      | Ok false => Ok 0
      end
  end.

(** [body_len] equals the length of the payload, or is absent with an
    empty payload. *)
Definition body_len_is (h : json) (payload : bytes) : bool :=
  match h with
  | JObj d =>
      match dict_get k_body_len d with
      | None => match payload with [] => true | _ :: _ => false end
      | Some (JInt z) => z =? len payload
      | Some (JBool b) => (if b then 1 else 0) =? len payload
      | Some _ => false
      end
  | _ => false
  end.

(** The [type] field of a frame header. *)
Definition frame_type (h : json) : option json :=
  match h with
  | JObj d => dict_get k_type d
  | _ => None
  end.

(** A frame as the codec can carry it: unique keys, [body_len] agreeing
    with the payload. *)
Definition frame_wf (f : json * bytes) : bool :=
  wf_json (fst f) && body_len_is (fst f) (snd f).

(** The bytes of a sequence of frames. *)
Fixpoint encode_frames (fs : list (json * bytes)) : result bytes :=
  match fs with
  | [] => Ok []
  | f :: fs' =>
      match frame_bytes (fst f) (snd f), encode_frames fs' with
      | Ok a, Ok b => Ok (a ++ b)
      | Err e, _ => Err e
      | _, Err e => Err e
      end
  end.

Definition is_data (f : json * bytes) : bool :=
  is_str (frame_type (fst f)) "DATA".

Definition is_data_end (f : json * bytes) : bool :=
  is_str (frame_type (fst f)) "DATA_END".

(** The payloads of the DATA frames of a sequence, in order. *)
Definition data_payloads (fs : list (json * bytes)) : bytes :=
  flat_map (fun f => if is_data f then snd f else []) fs.

(** The characters a value can start with. *)
Definition value_start (c : ascii) : bool :=
  Ascii.eqb c DQ || Ascii.eqb c "{"%char || Ascii.eqb c "["%char
  || Ascii.eqb c "n"%char || Ascii.eqb c "t"%char || Ascii.eqb c "f"%char
  || Ascii.eqb c "-"%char || is_digit c.

(** [parse_value] reads [x] back from what [dumps] wrote, given enough
    fuel and a following character that ends a value. *)
Definition round_trips (x : json) : Prop :=
  wf_json x = true ->
  forall fuel rest,
    (size x <= fuel)%nat -> ends_value rest ->
    parse_value fuel (dumps x ++ rest) = Ok (x, rest).

(** The synthetic 502 frame on the wire. *)
Definition bad_gateway_frame : bytes :=
  match frame_bytes Offshore.bad_gateway_header Offshore.bad_gateway_body with
  | Ok bs => bs
  | Err _ => []
  end.

(** What the Ship writes to the client for that frame:
    [HTTP/1.1 502 OK], the header [Content-Length: 11], an empty line and
    the body [Bad Gateway]. *)
Definition client_502 : bytes :=
  bytes_of "HTTP/1.1 502 OK" ++ bCRLF
  ++ bytes_of "Content-Length: 11" ++ bCRLF ++ bCRLF
  ++ bytes_of "Bad Gateway".

(** The [headers] argument the Offshore passes to the HTTP client. *)
Definition request_headers (header : json) : json :=
  match header with
  | JObj d =>
      match dict_get (str_of "headers") d with
      | Some v => v
      | None => JObj []
      end
  | _ => JObj []
  end.






(** ** Sample frames and requests *)

Definition frames_wire (fs : list (json * bytes)) : bytes :=
  match encode_frames fs with
  | Ok bs => bs
  | Err _ => []
  end.

Definition error_frame : json * bytes :=
  (JObj [ (k_type, JStr (str_of "ERROR"));
          (str_of "message", JStr (str_of "refused")) ], []).

Definition data_frame (chunk : bytes) : json * bytes :=
  (data_header chunk, chunk).

Definition data_end_frame : json * bytes := (data_end_header, []).

Definition connect_ok_frame : json * bytes :=
  (JObj [ (k_type, JStr (str_of "CONNECT_OK")) ], []).

Definition sample_get : task :=
  HttpTask (str_of "GET") (str_of "http://example.com/") [] [].

Definition sample_get_header : json :=
  http_request_header (str_of "GET") (str_of "http://example.com/") [] [].

(** An HTTP client that is down. *)
Definition failing_client (method url headers : json) (body : bytes)
  : result (Z * list (str * str) * bytes) := Err ClientError.


(** The parts of a handler state that each tunnel sub-task owns:
    [read_client_send] reads the client and writes the uplink,
    [read_offshore_write] reads the uplink and writes the client.
    [with_client_side st r o] is [st] with the first pair replaced,
    [with_uplink_side st r o] is [st] with the second. *)
Definition with_client_side (st : hstate) (r : reader) (o : bytes) : hstate :=
  mkH (option_map (fun u => mkSock (rd u) o (closing u) (eof_sent u)) (up st))
    (set_rd (cl st) r).

Definition with_uplink_side (st : hstate) (r : reader) (o : bytes) : hstate :=
  mkH (option_map (fun u => set_rd u r) (up st))
    (mkSock (rd (cl st)) o (closing (cl st)) (eof_sent (cl st))).

(** An HTTP client that answers 200 with a text body, and one that answers
    201 with nothing. *)
Definition hello_client (method url headers : json) (body : bytes)
  : result (Z * list (str * str) * bytes) :=
  Ok (200, [(str_of "Content-Type", str_of "text/plain")], bytes_of "hello").

Definition created_client (method url headers : json) (body : bytes)
  : result (Z * list (str * str) * bytes) :=
  Ok (201, [], []).

(** An HTTP client whose response sets two cookies, the second under a
    name in lower case. *)
Definition cookie_client (method url headers : json) (body : bytes)
  : result (Z * list (str * str) * bytes) :=
  Ok (200,
      [ (str_of "Set-Cookie", str_of "a=1");
        (str_of "Content-Type", str_of "text/plain");
        (str_of "Set-Cookie", str_of "b=2");
        (str_of "set-cookie", str_of "c=3") ],
      bytes_of "hello").

(** What the Offshore writes to the uplink for the frames in [wire], one
    HTTP request per frame, with the HTTP client [http_request]. *)
Definition offshore_reply
  (http_request : json -> json -> json -> bytes ->
                  result (Z * list (str * str) * bytes))
  (wire : bytes) : bytes :=
  match read_message [wire] with
  | (Ok (header, body), _) =>
      out (snd (Offshore.handle_http_request http_request header body (fresh [])))
  | (Err _, _) => []
  end.

(** The Ship on its own: a client connects, the acceptor parses its
    request, the serializer handles it on an uplink that answers with
    [reply]; the result is what the client has been sent. *)
Definition ship_serves (client_sends : bytes) (reply : bytes) : list bytes :=
  let s0 := mkShip None [Ok (fresh [reply])] 0 [] [] 0 [] in
  map out (handled (worker (accept (fresh [client_sends]) s0))).

(** The request frame the Ship puts on the uplink for a client. *)
Definition ship_request (client_sends : bytes) : bytes :=
  let s0 := mkShip None [Ok (fresh [])] 0 [] [] 0 [] in
  match uplink (worker (accept (fresh [client_sends]) s0)) with
  | Some u => out u
  | None => []
  end.

(** ** Vocabulary for requests and responses *)

(** The request headers as the acceptor's dictionary holds them: a name
    that occurs again keeps its place and takes the later value. *)
Definition headers_of (pairs : list (str * str)) : list (str * str) :=
  fold_left (fun d kv => headers_set d (fst kv) (snd kv)) pairs [].

(** The headers of a response as the Offshore's dictionary holds them:
    one entry per name as written, at the place of its first occurrence,
    with the value of the first header line that bears the name in any
    letter case. *)
Definition response_headers (pairs : list (str * str)) : list (str * str) :=
  fold_left
    (fun d k =>
       match Offshore.getone pairs k with
       | Some v => headers_set d k v
       | None => d
       end)
    (map fst pairs) [].

(** The lines [name: value] of a header block, each ended by CR LF. *)
Definition header_lines (headers : list (str * str)) : bytes :=
  flat_map (fun kv => utf8_encode (fst kv ++ str_of ": " ++ snd kv ++ sCRLF))
    headers.

(** The response the Ship writes to a client: the status line with the
    fixed reason phrase, the headers, an empty line and the body. *)
Definition http_response (status : Z) (headers : list (str * str))
  (body : bytes) : bytes :=
  utf8_encode (str_of "HTTP/1.1 " ++ str_of_Z status ++ str_of " OK" ++ sCRLF)
  ++ header_lines headers ++ bCRLF ++ body.

(** The head of a proxy request as a client sends it: the request line,
    the header lines and the empty line. *)
Definition request_head (method target proto : str)
  (headers : list (str * str)) : bytes :=
  utf8_encode (method ++ [SP] ++ target ++ [SP] ++ proto) ++ bCRLF
  ++ flat_map (fun kv => utf8_encode (fst kv ++ str_of ": " ++ snd kv) ++ bCRLF)
       headers
  ++ bCRLF.

(** The limit of the [StreamReader] that [asyncio.start_server] creates:
    [readline] raises [ValueError] for a line longer than 2 ** 16 bytes.
    The model's [readline] has no limit; the statements about request
    heads are for heads within it. *)
Definition line_limit : Z := 65536.

(** The same without the empty line that ends it. *)
Definition open_head (method target proto : str)
  (headers : list (str * str)) : bytes :=
  utf8_encode (method ++ [SP] ++ target ++ [SP] ++ proto) ++ bCRLF
  ++ flat_map (fun kv => utf8_encode (fst kv ++ str_of ": " ++ snd kv) ++ bCRLF)
       headers.

(** [int(headers.get('Content-Length') or 0)] *)
Definition content_length (headers : list (str * str)) : result Z :=
  match headers_get (str_of "Content-Length") headers with
  | None | Some [] => Ok 0
  | Some v => int_of_str v
  end.

(** Text without a line break, and a field of the request line: no
    space either. *)
Definition one_line (s : str) : bool :=
  forallb (fun c => negb (Ascii.eqb c CR || Ascii.eqb c LF)) s.

Definition is_field (s : str) : bool :=
  one_line s && negb (contains SP s).

(** A header name and a header value as [strip()] leaves them, each on
    one line, the name without a colon. *)
Definition is_header (kv : str * str) : bool :=
  negb (contains ":"%char (fst kv))
  && one_line (fst kv) && one_line (snd kv)
  && str_eqb (strip (fst kv)) (fst kv) && str_eqb (strip (snd kv)) (snd kv).

(** The chunks a loop that reads [n] bytes at a time sees. *)
Definition chunks_ok (n : Z) (chunks : list bytes) : Prop :=
  Forall (fun c => 0 < len c <= n) chunks.

(** What makes the header bytes of a frame unusable, if anything: the
    exception of the decoder, [AttributeError] for a JSON value that is
    not an object (it has no [get]), [TypeError] for a [body_len] that is
    null, a string, an array or an object (it cannot be compared with 0). *)
Definition header_problem (hb : bytes) : option exn :=
  match header_of hb with
  | Err e => Some e
  | Ok (JObj d) =>
      match dict_get k_body_len d with
      | None | Some (JInt _) | Some (JBool _) => None
      | Some _ => Some TypeError
      end
  | Ok _ => Some AttributeError
  end.

(** One plain HTTP exchange seen from the Ship: the request of a client
    and the response the Offshore returns for it. *)
Record exchange : Type := mkExchange {
  x_method : str;
  x_target : str;
  x_headers : list (str * str);
  x_body : bytes;
  x_client : sock;
  x_status : Z;
  x_rheaders : list (str * str);
  x_rbody : bytes
}.

Definition x_item (x : exchange) : task * sock :=
  (HttpTask (x_method x) (x_target x) (x_headers x) (x_body x), x_client x).

Definition x_request (x : exchange) : json * bytes :=
  (http_request_header (x_method x) (x_target x) (x_headers x) (x_body x),
   x_body x).

(** The response frame of the exchange.  Its [headers] entry is the
    dictionary the pairs [x_rheaders] build: a name that occurs again keeps
    its place and takes the later value. *)
Definition x_response (x : exchange) : json * bytes :=
  (Offshore.response_header_of (x_status x)
     (str_dict (headers_of (x_rheaders x))) (x_rbody x),
   x_rbody x).

(** The client socket once its response has been relayed. *)
Definition x_answered (x : exchange) : sock :=
  mkSock []
    (out (x_client x)
     ++ http_response (x_status x) (headers_of (x_rheaders x)) (x_rbody x))
    true (eof_sent (x_client x)).

(** The log entries of [n] items handled without an exception, the first
    of them numbered [k]. *)
Fixpoint all_done (k n : nat) : list event :=
  match n with
  | O => []
  | S n' => Picked k :: Done k (Ok tt) :: all_done (S k) n'
  end.

(** The log entries of items whose dial failed with the exceptions
    [errs], the first of them numbered [k]. *)
Fixpoint all_failed (k : nat) (errs : list exn) : list event :=
  match errs with
  | [] => []
  | e :: errs' => Picked k :: Done k (Err e) :: all_failed (S k) errs'
  end.

(** ** Vocabulary for the Offshore's serving loop *)

(** What the Offshore writes to the uplink for one frame it has read: for
    an HTTPRequest with a method and a URL, the response frame of the HTTP
    client, or the synthetic 502 frame when the client raises or its
    response cannot be framed; nothing for a frame of a type it does not
    know. *)
Definition offshore_answer
  (http_request : json -> json -> json -> bytes ->
                  result (Z * list (str * str) * bytes))
  (f : json * bytes) : bytes :=
  if is_str (frame_type (fst f)) "HTTPRequest" then
    match getitem (fst f) (str_of "method"), getitem (fst f) (str_of "url") with
    | Ok m, Ok u =>
        match http_request m u (request_headers (fst f)) (snd f) with
        | Ok (status, rh, rb) =>
            match frame_bytes (Offshore.response_header status rh rb) rb with
            | Ok bs => bs
            | Err _ => bad_gateway_frame
            end
        | Err _ => bad_gateway_frame
        end
    | _, _ => []
    end
  else [].

(** The exception a request frame raises before the handler's [try] is
    entered: a missing [method] or [url] of an HTTPRequest, a missing
    [host] or [port] of a CONNECT, a [port] that [int()] refuses. *)
Definition request_error (h : json) : option exn :=
  if is_str (frame_type h) "HTTPRequest" then
    match getitem h (str_of "method") with
    | Err e => Some e
    | Ok _ =>
        match getitem h (str_of "url") with
        | Err e => Some e
        | Ok _ => None
        end
    end
  else if is_str (frame_type h) "CONNECT" then
    match getitem h (str_of "host") with
    | Err e => Some e
    | Ok _ =>
        match getitem h (str_of "port") with
        | Err e => Some e
        | Ok p =>
            match Offshore.int_of p with
            | Err e => Some e
            | Ok _ => None
            end
        end
    end
  else None.

(** A frame the serving loop handles without leaving it: well formed, not
    a CONNECT, and raising nothing before the handler's [try]. *)
Definition served (f : json * bytes) : bool :=
  frame_wf f
  && negb (is_str (frame_type (fst f)) "CONNECT")
  && match request_error (fst f) with None => true | Some _ => false end.

(** [sent] is what a forwarding loop writes for a source it reads up to
    [limit] bytes at a time and may lose before its end: DATA frames that
    carry a prefix of [source], each payload between 1 and [limit] bytes,
    then one DATA_END frame. *)
Definition forwarded (limit : Z) (source sent : bytes) : Prop :=
  exists chunks rest,
    concat chunks ++ rest = source
    /\ chunks_ok limit chunks
    /\ encode_frames (map data_frame chunks ++ [data_end_frame]) = Ok sent.

(** ** Vocabulary for the Ship's side of the uplink *)

(** Between two states of a handler the uplink has been sent whole,
    well-formed frames and nothing else. *)
Definition writes_frames (st st' : hstate) : Prop :=
  match up st, up st' with
  | Some u, Some u' =>
      exists fs bs,
        Forall (fun f => frame_wf f = true) fs
        /\ encode_frames fs = Ok bs
        /\ out u' = out u ++ bs
  | None, None => True
  | _, _ => False
  end.

Definition frames_only {A} (m : Handler A) : Prop :=
  forall st, writes_frames st (snd (m st)).

(** ** Facts about [struct] *)

Lemma Z_of_byte_range (b : byte) : 0 <= Z_of_byte b < 256.
Proof.
  unfold Z_of_byte. pose proof (Byte.to_N_bounded b). lia.
Qed.

Lemma Z_of_byte_of_Z (z : Z) : Z_of_byte (byte_of_Z z) = z mod 256.
Proof.
  unfold Z_of_byte, byte_of_Z.
  assert (Hr : 0 <= z mod 256 < 256) by (apply Z.mod_pos_bound; lia).
  destruct (Byte.of_N (Z.to_N (z mod 256))) as [b|] eqn:E.
  - apply Byte.to_of_N in E. rewrite E. lia.
  - apply Byte.of_N_None_iff in E. lia.
Qed.

Lemma byte_of_Z_of_byte (b : byte) : byte_of_Z (Z_of_byte b) = b.
Proof.
  unfold byte_of_Z. rewrite Z.mod_small by apply Z_of_byte_range.
  unfold Z_of_byte. rewrite N2Z.id, Byte.of_to_N. reflexivity.
Qed.

Lemma unpack_pack (n : Z) (b : bytes) :
  pack_u32be n = Ok b -> unpack_u32be b = Ok n /\ length b = 4%nat.
Proof.
  unfold pack_u32be. destruct ((0 <=? n) && (n <? 2 ^ 32)) eqn:E; [|discriminate].
  apply andb_true_iff in E. destruct E as [E1 E2].
  apply Z.leb_le in E1. apply Z.ltb_lt in E2.
  intros H. inversion H; subst; clear H. split; [|reflexivity].
  unfold unpack_u32be. rewrite !Z_of_byte_of_Z. f_equal.
  change (2 ^ 32) with 4294967296 in E2.
  change (2 ^ 24) with 16777216. change (2 ^ 16) with 65536. change (2 ^ 8) with 256.
  pose proof (Z.div_mod n 256 ltac:(lia)).
  pose proof (Z.div_mod (n / 256) 256 ltac:(lia)).
  pose proof (Z.div_mod (n / 256 / 256) 256 ltac:(lia)).
  rewrite !Z.div_div in * by lia.
  change (256 * 256) with 65536 in *. change (65536 * 256) with 16777216 in *.
  assert (H3 : (n / 16777216) mod 256 = n / 16777216).
  { apply Z.mod_small. split; [apply Z.div_pos; lia|]. apply Z.div_lt_upper_bound; lia. }
  change (Z.pow_pos 2 24) with 16777216. change (Z.pow_pos 2 16) with 65536.
  change (Z.pow_pos 2 8) with 256.
  lia.
Qed.

Lemma pack_ok (n : Z) : 0 <= n < 2 ^ 32 -> exists b, pack_u32be n = Ok b.
Proof.
  intros [H1 H2]. unfold pack_u32be.
  apply Z.leb_le in H1. apply Z.ltb_lt in H2. rewrite H1, H2. simpl. eauto.
Qed.

(** ** Facts about readers *)

Lemma len_app {A} (a b : list A) : len (a ++ b) = len a + len b.
Proof. unfold len. rewrite length_app. lia. Qed.

Lemma len_nonneg {A} (a : list A) : 0 <= len a.
Proof. unfold len. lia. Qed.

Lemma read_some_spec (r : reader) (k : nat) :
  (0 < k)%nat ->
  exists c r', read_some r k = (c, r')
    /\ c ++ content r' = content r
    /\ (length c <= k)%nat
    /\ (c = [] -> content r = [] /\ r' = [])
    /\ (c = [] \/ length c = k \/ (length r' < length r)%nat).
Proof.
  intros Hk. induction r as [|c r IH]; cbn [read_some].
  - exists [], []. split; [reflexivity|]. split; [reflexivity|].
    split; [simpl; lia|]. split; [auto|]. left; reflexivity.
  - destruct c as [|x c].
    + destruct IH as (c' & r' & E & H1 & H2 & H3 & H4).
      exists c', r'. rewrite E.
      split; [reflexivity|]. split; [exact H1|]. split; [exact H2|].
      split; [exact H3|].
      destruct H4 as [H4|[H4|H4]]; [left; exact H4|right; left; exact H4|].
      right; right; simpl; lia.
    + pose proof (firstn_skipn k (x :: c)) as FS.
      exists (firstn k (x :: c)).
      destruct (skipn k (x :: c)) as [|y rest] eqn:Es.
      * exists r. split; [reflexivity|]. rewrite app_nil_r in FS.
        split; [unfold content; rewrite concat_cons, FS; reflexivity|].
        split; [apply firstn_le_length|].
        split; [intros E0; rewrite E0 in FS; discriminate|].
        right. right. simpl. lia.
      * exists ((y :: rest) :: r). split; [reflexivity|].
        split; [unfold content; rewrite !concat_cons, app_assoc, FS; reflexivity|].
        split; [apply firstn_le_length|].
        split.
        { intros E0. destruct k; [lia|]. simpl in E0. discriminate. }
        right. left. rewrite length_firstn.
        assert (length (skipn k (x :: c)) <> 0)%nat by (rewrite Es; simpl; lia).
        rewrite length_skipn in H. lia.
Qed.

Lemma read_spec (r : reader) (n : Z) :
  0 < n ->
  exists c r', read r n = (c, r')
    /\ c ++ content r' = content r
    /\ len c <= n
    /\ (c = [] -> content r = [] /\ r' = [])
    /\ (c = [] \/ len c = n \/ (length r' < length r)%nat).
Proof.
  intros Hn. unfold read.
  destruct (n =? 0) eqn:E0; [apply Z.eqb_eq in E0; lia|].
  destruct (n <? 0) eqn:E1; [apply Z.ltb_lt in E1; lia|].
  destruct (read_some_spec r (Z.to_nat n)) as (c & r' & E & H1 & H2 & H3 & H4); [lia|].
  exists c, r'. unfold len.
  split; [exact E|]. split; [exact H1|]. split; [lia|]. split; [exact H3|].
  destruct H4 as [H4|[H4|H4]]; [left; exact H4|right; left; lia|right; right; exact H4].
Qed.

(** What [read_exact_loop] returns, by how much data the stream still
    holds. *)
Lemma read_exact_loop_spec (fuel : nat) :
  forall (r : reader) (n : Z) (data : bytes),
    (length r < fuel)%nat ->
    exists r',
      read_exact_loop fuel r n data =
        (if n <=? len data then Ok data
         else if n <=? len data + len (content r)
              then Ok (data ++ firstn (Z.to_nat (n - len data)) (content r))
              else Err EOFError, r')
      /\ content r' =
           (if n <=? len data then content r
            else skipn (Z.to_nat (n - len data)) (content r)).
Proof.
  induction fuel as [|fuel IH]; intros r n data Hf; [lia|].
  simpl. destruct (len data <? n) eqn:E.
  - apply Z.ltb_lt in E.
    assert (En : (n <=? len data) = false) by (apply Z.leb_gt; lia). rewrite En.
    destruct (read_spec r (n - len data)) as (c & r1 & Er & H1 & H2 & H3 & H4); [lia|].
    rewrite Er. destruct c as [|x c].
    + destruct H3 as [H3 H3']; [reflexivity|]. subst r1. exists []. rewrite H3.
      assert (El : (n <=? len data + len (@nil byte)) = false)
        by (apply Z.leb_gt; unfold len in *; simpl; lia).
      rewrite El. split; [reflexivity|]. rewrite skipn_nil. reflexivity.
    + destruct H4 as [H4|[H4|H4]]; [discriminate| |].
      * (* the chunk completes the data *)
        destruct fuel as [|fuel'].
        { simpl. assert (Ed : (len (data ++ x :: c) <? n) = false)
            by (apply Z.ltb_ge; rewrite len_app; lia).
          rewrite Ed. exists r1.
          assert (Ec : Z.to_nat (n - len data) = length (x :: c)) by (unfold len in *; lia).
          rewrite <- H1, Ec.
          assert (El : (n <=? len data + len ((x :: c) ++ content r1)) = true)
            by (apply Z.leb_le; rewrite len_app; pose proof (len_nonneg (content r1)); lia).
          rewrite El. rewrite firstn_app, Nat.sub_diag, firstn_all, firstn_O, app_nil_r.
          split; [reflexivity|].
          rewrite skipn_app, Nat.sub_diag, skipn_all. reflexivity. }
        { simpl. assert (Ed : (len (data ++ x :: c) <? n) = false)
            by (apply Z.ltb_ge; rewrite len_app; lia).
          rewrite Ed. exists r1.
          assert (Ec : Z.to_nat (n - len data) = length (x :: c)) by (unfold len in *; lia).
          rewrite <- H1, Ec.
          assert (El : (n <=? len data + len ((x :: c) ++ content r1)) = true)
            by (apply Z.leb_le; rewrite len_app; pose proof (len_nonneg (content r1)); lia).
          rewrite El. rewrite firstn_app, Nat.sub_diag, firstn_all, firstn_O, app_nil_r.
          split; [reflexivity|].
          rewrite skipn_app, Nat.sub_diag, skipn_all. reflexivity. }
      * destruct (IH r1 n (data ++ x :: c)) as (r' & E' & C'); [lia|].
        exists r'. rewrite E'. rewrite <- H1. rewrite !len_app in *.
        assert (Hc : 0 < len (x :: c)) by (unfold len in *; simpl; lia).
        destruct (n <=? len data + len (x :: c)) eqn:E2.
        { apply Z.leb_le in E2. assert (len (x :: c) = n - len data) by lia.
          assert (Ec : Z.to_nat (n - len data) = length (x :: c)) by (unfold len in *; lia).
          assert (El : (n <=? len data + (len (x :: c) + len (content r1))) = true)
            by (apply Z.leb_le; pose proof (len_nonneg (content r1)); lia).
          rewrite El, Ec in *.
          rewrite firstn_app, Nat.sub_diag, firstn_all, firstn_O, app_nil_r.
          split; [reflexivity|].
          rewrite C'. rewrite skipn_app, Nat.sub_diag, skipn_all. reflexivity. }
        { apply Z.leb_gt in E2.
          replace (len data + len (x :: c) + len (content r1))
            with (len data + (len (x :: c) + len (content r1))) by lia.
          assert (Ek : Z.to_nat (n - len data) =
                       (length (x :: c) + Z.to_nat (n - (len data + len (x :: c))))%nat)
            by (unfold len in *; lia).
          destruct (n <=? len data + (len (x :: c) + len (content r1))) eqn:E3.
          - split.
            + f_equal. rewrite <- app_assoc. f_equal. rewrite Ek.
              rewrite firstn_app_2. reflexivity.
            + rewrite C', Ek. rewrite skipn_app.
              rewrite (skipn_all2 (x :: c)) by lia.
              replace (length (x :: c) + Z.to_nat (n - (len data + len (x :: c))) - length (x :: c))%nat
                with (Z.to_nat (n - (len data + len (x :: c)))) by lia.
              reflexivity.
          - split; [reflexivity|].
            rewrite C', Ek. rewrite skipn_app.
            rewrite (skipn_all2 (x :: c)) by lia.
            replace (length (x :: c) + Z.to_nat (n - (len data + len (x :: c))) - length (x :: c))%nat
              with (Z.to_nat (n - (len data + len (x :: c)))) by lia.
            reflexivity. }
  - apply Z.ltb_ge in E. assert (En : (n <=? len data) = true) by (apply Z.leb_le; lia).
    rewrite En. exists r. split; reflexivity.
Qed.

Lemma read_exact_spec (r : reader) (n : Z) :
  exists r',
    read_exact r n =
      (if n <=? 0 then Ok []
       else if n <=? len (content r)
            then Ok (firstn (Z.to_nat n) (content r))
            else Err EOFError, r')
    /\ content r' = skipn (Z.to_nat n) (content r).
Proof.
  destruct (read_exact_loop_spec (S (length r)) r n []) as (r' & E & C); [lia|].
  exists r'. unfold read_exact. rewrite E.
  change (len (@nil byte)) with 0 in *. rewrite Z.sub_0_r, Z.add_0_l in *.
  split; [reflexivity|].
  rewrite C. destruct (n <=? 0) eqn:E0; [|reflexivity].
  apply Z.leb_le in E0. replace (Z.to_nat n) with 0%nat by lia. reflexivity.
Qed.

(** Enough data: [read_exact] returns exactly the next [n] bytes. *)
Lemma read_exact_ok (r : reader) (n : Z) (a b : bytes) :
  content r = a ++ b -> len a = n ->
  exists r', read_exact r n = (Ok a, r') /\ content r' = b.
Proof.
  intros Hc Hn. destruct (read_exact_spec r n) as (r' & E & C).
  exists r'. rewrite E, C, Hc. unfold len in *.
  assert (Ha : Z.to_nat n = length a) by lia. rewrite Ha.
  rewrite firstn_app, Nat.sub_diag, firstn_all, firstn_O, app_nil_r.
  rewrite skipn_app, Nat.sub_diag, skipn_all. simpl.
  split; [|reflexivity].
  destruct (n <=? 0) eqn:E0.
  - apply Z.leb_le in E0. destruct a; [reflexivity|simpl in *; lia].
  - assert (El : (n <=? Z.of_nat (length (a ++ b))) = true)
      by (apply Z.leb_le; rewrite length_app; lia).
    rewrite El. reflexivity.
Qed.

(** Not enough data: [read_exact] raises [EOFError]. *)
Lemma read_exact_eof (r : reader) (n : Z) :
  len (content r) < n ->
  exists r', read_exact r n = (Err EOFError, r') /\ content r' = [].
Proof.
  intros Hn. destruct (read_exact_spec r n) as (r' & E & C).
  exists r'. rewrite E, C. pose proof (len_nonneg (content r)).
  assert (E0 : (n <=? 0) = false) by (apply Z.leb_gt; lia).
  assert (E1 : (n <=? len (content r)) = false) by (apply Z.leb_gt; lia).
  rewrite E0, E1. split; [reflexivity|].
  apply skipn_all2. unfold len in *. lia.
Qed.

(** ** Facts about text *)

Ltac each_char c :=
  destruct c as [[] [] [] [] [] [] [] []].

Lemma utf8_decode_char (c : ascii) (rest : bytes) :
  utf8_decode (utf8_char c ++ rest) =
  match utf8_decode rest with
  | Ok s => Ok (c :: s)
  | Err e => Err e
  end.
Proof. each_char c; reflexivity. Qed.

Lemma utf8_decode_app (s : str) (rest : bytes) :
  utf8_decode (utf8_encode s ++ rest) =
  match utf8_decode rest with
  | Ok t => Ok (s ++ t)
  | Err e => Err e
  end.
Proof.
  induction s as [|c s IH]; simpl.
  - destruct (utf8_decode rest); reflexivity.
  - unfold utf8_encode in *. rewrite <- app_assoc, utf8_decode_char, IH.
    destruct (utf8_decode rest); reflexivity.
Qed.

Lemma utf8_decode_encode (s : str) : utf8_decode (utf8_encode s) = Ok s.
Proof.
  rewrite <- (app_nil_r (utf8_encode s)), utf8_decode_app. simpl.
  rewrite app_nil_r. reflexivity.
Qed.

Lemma scanstring_char (c : ascii) (rest : str) :
  scanstring (escape_char c ++ rest) =
  match scanstring rest with
  | Ok (t, r) => Ok (c :: t, r)
  | Err e => Err e
  end.
Proof. each_char c; reflexivity. Qed.

Lemma scanstring_escape (s rest : str) :
  scanstring (flat_map escape_char s ++ DQ :: rest) = Ok (s, rest).
Proof.
  induction s as [|c s IH]; simpl.
  - reflexivity.
  - rewrite <- app_assoc, scanstring_char, IH. reflexivity.
Qed.

Lemma scanstring_escape' (s rest : str) :
  scanstring (flat_map escape_char s ++ [DQ] ++ rest) = Ok (s, rest).
Proof. apply scanstring_escape. Qed.

(** ** Facts about decimal numerals *)

Lemma take_digits_str_of_uint (u : Decimal.uint) (rest : str) :
  match rest with [] => True | c :: _ => is_digit c = false end ->
  take_digits (str_of_uint u ++ rest) = (u, rest).
Proof.
  intros Hr. induction u; simpl; try (rewrite IHu; reflexivity).
  destruct rest as [|c rest]; [reflexivity|].
  simpl. unfold is_digit in Hr. destruct (digit_of c); [discriminate|reflexivity].
Qed.

Lemma nzhead_not_D0 (u v : Decimal.uint) : Decimal.nzhead u <> Decimal.D0 v.
Proof. induction u; simpl; try discriminate. exact IHu. Qed.

(** The numeral of a positive number is not empty and has no leading
    zero. *)
Lemma to_uint_head (p : positive) :
  exists c t, str_of_uint (Pos.to_uint p) = c :: t
    /\ is_digit c = true /\ c <> "0"%char.
Proof.
  pose proof (DecimalPos.Unsigned.to_uint_nonnil p) as Hn.
  pose proof (DecimalPos.Unsigned.to_uint_nonzero p) as Hz.
  pose proof (DecimalPos.Unsigned.to_of (Pos.to_uint p)) as Hu.
  rewrite DecimalPos.Unsigned.of_to in Hu. simpl in Hu.
  destruct (Pos.to_uint p) as [|u|u|u|u|u|u|u|u|u|u] eqn:E;
    try (eexists; eexists; split; [reflexivity|split; [reflexivity|discriminate]]).
  - contradiction.
  - exfalso. rewrite DecimalFacts.unorm_D0 in Hu. unfold Decimal.unorm in Hu.
    destruct (Decimal.nzhead u) eqn:En.
    + apply Hz. rewrite Hu. reflexivity.
    + symmetry in Hu. revert Hu. rewrite <- En. apply nzhead_not_D0.
    + discriminate. + discriminate. + discriminate. + discriminate.
    + discriminate. + discriminate. + discriminate. + discriminate. + discriminate.
Qed.

Lemma Z_of_uint_to_uint (p : positive) : Z_of_uint (Pos.to_uint p) = Zpos p.
Proof.
  unfold Z_of_uint. rewrite DecimalPos.Unsigned.of_to. reflexivity.
Qed.

Lemma ends_value_not_digit (rest : str) :
  ends_value rest ->
  match rest with [] => True | c :: _ => is_digit c = false end.
Proof.
  destruct rest as [|c rest]; [trivial|].
  intros [H|[H|H]]; subst; reflexivity.
Qed.

Lemma ends_value_not_float (rest : str) :
  ends_value rest -> float_tail rest = false.
Proof.
  destruct rest as [|c rest]; [reflexivity|].
  intros [H|[H|H]]; subst; destruct rest; reflexivity.
Qed.

Lemma parse_number_str_of_Z (z : Z) (rest : str) :
  ends_value rest ->
  parse_number (str_of_Z z ++ rest) = Some (Ok (JInt z, rest)).
Proof.
  intros Hr.
  pose proof (ends_value_not_digit rest Hr) as Hd.
  pose proof (ends_value_not_float rest Hr) as Hf.
  destruct z as [|p|p].
  - simpl. unfold parse_number. simpl. rewrite Hf. reflexivity.
  - destruct (to_uint_head p) as (c & t & E & Hc & H0).
    unfold str_of_Z. unfold parse_number.
    assert (Hm : Ascii.eqb c "-"%char = false).
    { destruct (Ascii.eqb_spec c "-"%char) as [->|]; [discriminate|reflexivity]. }
    rewrite E. simpl app. cbv beta iota zeta. rewrite Hm. cbv beta iota zeta.
    destruct (Ascii.eqb_spec c "0"%char) as [|_]; [contradiction|].
    rewrite Hc. change (c :: t ++ rest) with ((c :: t) ++ rest).
    rewrite <- E, take_digits_str_of_uint by exact Hd.
    rewrite Hf, Z_of_uint_to_uint. reflexivity.
  - destruct (to_uint_head p) as (c & t & E & Hc & H0).
    unfold str_of_Z. unfold parse_number. simpl app. rewrite E. simpl app.
    cbv beta iota zeta. rewrite Ascii.eqb_refl. simpl tl. cbv beta iota zeta.
    destruct (Ascii.eqb_spec c "0"%char) as [|_]; [contradiction|].
    rewrite Hc. change (c :: t ++ rest) with ((c :: t) ++ rest).
    rewrite <- E, take_digits_str_of_uint by exact Hd.
    rewrite Hf, Z_of_uint_to_uint. reflexivity.
Qed.

(** ** Facts about JSON *)

Lemma str_eqb_refl (a : str) : str_eqb a a = true.
Proof. induction a; simpl; [reflexivity|]. rewrite Ascii.eqb_refl. exact IHa. Qed.

Lemma str_eqb_eq (a b : str) : str_eqb a b = true <-> a = b.
Proof.
  split; [|intros ->; apply str_eqb_refl].
  revert b. induction a as [|x a IH]; intros [|y b]; simpl; try discriminate; auto.
  intros H. apply andb_true_iff in H. destruct H as [H1 H2].
  apply Ascii.eqb_eq in H1. f_equal; auto.
Qed.

Lemma json_induction (P : json -> Prop) :
  P JNull ->
  (forall b, P (JBool b)) ->
  (forall z, P (JInt z)) ->
  (forall s, P (JStr s)) ->
  (forall l, Forall P l -> P (JArr l)) ->
  (forall d, Forall (fun kv => P (snd kv)) d -> P (JObj d)) ->
  forall j, P j.
Proof.
  intros Hn Hb Hi Hs Ha Ho.
  fix IH 1. intros [ | b | z | s | l | d ].
  - exact Hn.
  - apply Hb.
  - apply Hi.
  - apply Hs.
  - apply Ha. induction l as [|x l IHl]; constructor; [apply IH|exact IHl].
  - apply Ho. induction d as [|[k v] d IHd]; constructor; [apply IH|exact IHd].
Qed.

Lemma str_of_Z_head (z : Z) :
  exists c t, str_of_Z z = c :: t /\ (is_digit c = true \/ c = "-"%char).
Proof.
  destruct z as [|p|p].
  - exists "0"%char, []. split; [reflexivity|left; reflexivity].
  - destruct (to_uint_head p) as (c & t & E & Hc & _).
    exists c, t. split; [exact E|left; exact Hc].
  - eexists; eexists. split; [reflexivity|right; reflexivity].
Qed.

Lemma dumps_head (j : json) :
  exists c t, dumps j = c :: t /\ value_start c = true.
Proof.
  destruct j as [ | [] | z | s | l | d ];
    try (eexists; eexists; split; [reflexivity|reflexivity]).
  destruct (str_of_Z_head z) as (c & t & E & [H|H]).
  - exists c, t. split; [exact E|]. unfold value_start. rewrite H.
    rewrite !orb_true_r. reflexivity.
  - exists c, t. split; [exact E|]. subst c. reflexivity.
Qed.

Lemma value_start_facts (c : ascii) :
  value_start c = true ->
  is_ws c = false /\ Ascii.eqb c "]"%char = false
  /\ Ascii.eqb c "}"%char = false.
Proof. each_char c; simpl; intros H; try discriminate; auto. Qed.

Lemma skip_ws_value (j : json) (rest : str) :
  skip_ws (dumps j ++ rest) = dumps j ++ rest.
Proof.
  destruct (dumps_head j) as (c & t & E & H). rewrite E. simpl.
  apply value_start_facts in H. destruct H as [H _]. rewrite H. reflexivity.
Qed.

Lemma parse_value_number (fuel : nat) (s : str) (r : result (json * str)) :
  (exists c t, s = c :: t /\ (is_digit c = true \/ c = "-"%char)) ->
  parse_number s = Some r ->
  parse_value (S fuel) s = r.
Proof.
  intros (c & t & -> & H) Hp.
  cbn [parse_value].
  assert (Hc : Ascii.eqb c DQ = false /\ Ascii.eqb c "{"%char = false
               /\ Ascii.eqb c "["%char = false
               /\ starts_with (str_of "null") (c :: t) = false
               /\ starts_with (str_of "true") (c :: t) = false
               /\ starts_with (str_of "false") (c :: t) = false).
  { destruct H as [H| ->]; [|repeat split; reflexivity].
    each_char c; simpl in H; try discriminate H; repeat split; reflexivity. }
  destruct Hc as (H1 & H2 & H3 & H4 & H5 & H6).
  rewrite H1, H2, H3, H4, H5, H6, Hp. reflexivity.
Qed.

Lemma dumps_arr (l : list json) :
  dumps (JArr l) = "["%char :: dumps_items l ++ ["]"%char].
Proof. reflexivity. Qed.

Lemma dumps_obj (d : dict) :
  dumps (JObj d) = "{"%char :: dumps_members d ++ ["}"%char].
Proof. reflexivity. Qed.

Lemma dict_set_fresh (acc : dict) (k : str) (v : json) :
  existsb (str_eqb k) (map fst acc) = false ->
  dict_set acc k v = acc ++ [(k, v)].
Proof.
  induction acc as [|[k' v'] acc IH]; simpl; [reflexivity|].
  intros H. apply orb_false_iff in H. destruct H as [H1 H2].
  rewrite H1, IH by exact H2. reflexivity.
Qed.

(** Keys that are new and pairwise different are appended in order. *)
Lemma set_all_fresh (d : dict) :
  forall acc,
    keys_unique (map fst d) = true ->
    (forall k, In k (map fst d) -> existsb (str_eqb k) (map fst acc) = false) ->
    set_all acc d = acc ++ d.
Proof.
  unfold set_all.
  induction d as [|[k v] d IH]; intros acc Hu Hf; simpl.
  - rewrite app_nil_r. reflexivity.
  - simpl in Hu. apply andb_true_iff in Hu. destruct Hu as [Hk Hu].
    apply negb_true_iff in Hk.
    rewrite dict_set_fresh by (apply Hf; left; reflexivity).
    rewrite IH; [rewrite <- app_assoc; reflexivity|exact Hu|].
    intros k' Hin. rewrite map_app, existsb_app. simpl.
    rewrite Hf by (right; exact Hin). simpl. rewrite orb_false_r.
    destruct (str_eqb k' k) eqn:E; [|reflexivity].
    apply str_eqb_eq in E. subst k'.
    exfalso. apply (In_nth _ _ []) in Hin. destruct Hin as (n & Hn & Hnth).
    assert (existsb (str_eqb k) (map fst d) = true).
    { apply existsb_exists. exists k. split; [|apply str_eqb_refl].
      rewrite <- Hnth. apply nth_In. exact Hn. }
    congruence.
Qed.

Lemma skip_ws_items (l : list json) (rest : str) :
  l <> [] -> skip_ws (dumps_items l ++ rest) = dumps_items l ++ rest.
Proof.
  destruct l as [|x l]; [congruence|]. intros _.
  destruct l; simpl dumps_items; [apply skip_ws_value|].
  rewrite <- app_assoc. apply skip_ws_value.
Qed.

Lemma parse_elements_items (l : list json) :
  Forall round_trips l -> forallb wf_json l = true -> l <> [] ->
  forall fuel acc rest,
    (fold_right (fun x n => S (size x + n)) O l <= fuel)%nat ->
    parse_elements fuel (dumps_items l ++ "]"%char :: rest) acc
    = Ok (JArr (acc ++ l), rest).
Proof.
  induction l as [|x l IH]; [congruence|].
  intros HF Hw _ fuel acc rest Hfuel.
  inversion HF as [|? ? Hx HF']; subst.
  simpl in Hw. apply andb_true_iff in Hw. destruct Hw as [Hwx Hw].
  simpl in Hfuel. destruct fuel as [|fuel]; [lia|].
  cbn [parse_elements].
  destruct l as [|y l'].
  - simpl dumps_items.
    rewrite (Hx Hwx) by (simpl; auto; lia).
    simpl. reflexivity.
  - change (dumps_items (x :: y :: l'))
      with (dumps x ++ str_of ", " ++ dumps_items (y :: l')).
    pose proof (skip_ws_items (y :: l') ("]"%char :: rest) ltac:(discriminate)) as Hs.
    remember (dumps_items (y :: l')) as W eqn:EW.
    rewrite <- !app_assoc.
    rewrite (Hx Hwx) by (simpl; auto; lia).
    simpl. rewrite Hs. subst W.
    rewrite IH; [rewrite <- app_assoc; reflexivity|exact HF'|exact Hw|discriminate|].
    simpl in *. lia.
Qed.

Lemma skip_ws_members (d : dict) (rest : str) :
  d <> [] ->
  exists t, dumps_members d ++ rest = DQ :: t
    /\ skip_ws (dumps_members d ++ rest) = DQ :: t.
Proof.
  destruct d as [|[k v] d]; [congruence|]. intros _.
  destruct d; simpl dumps_members; unfold dumps_str;
    simpl; eexists; split; reflexivity.
Qed.

Lemma parse_members_members (d : dict) :
  Forall (fun kv => round_trips (snd kv)) d ->
  forallb (fun kv => wf_json (snd kv)) d = true -> d <> [] ->
  forall fuel acc rest,
    (fold_right (fun kv n => S (size (snd kv) + n)) O d <= fuel)%nat ->
    parse_members fuel (dumps_members d ++ "}"%char :: rest) acc
    = Ok (JObj (set_all acc d), rest).
Proof.
  induction d as [|[k v] d IH]; [congruence|].
  intros HF Hw _ fuel acc rest Hfuel.
  inversion HF as [|? ? Hv HF']; subst. simpl in Hv.
  simpl in Hw. apply andb_true_iff in Hw. destruct Hw as [Hwv Hw].
  simpl in Hfuel. destruct fuel as [|fuel]; [lia|].
  destruct d as [|kv' d'].
  - simpl dumps_members. unfold dumps_str.
    cbn [parse_members app].
    change (Ascii.eqb DQ DQ) with true. cbv beta iota.
    rewrite <- !app_assoc. rewrite scanstring_escape'.
    simpl app. cbn [skip_ws].
    change (is_ws ":"%char) with false. cbv beta iota.
    change (Ascii.eqb ":"%char ":"%char) with true. cbv beta iota.
    change (skip_ws (" "%char :: dumps v ++ "}"%char :: rest))
      with (skip_ws (dumps v ++ "}"%char :: rest)).
    rewrite skip_ws_value.
    rewrite (Hv Hwv) by (simpl; auto; lia).
    reflexivity.
  - change (dumps_members ((k, v) :: kv' :: d'))
      with (dumps_str k ++ str_of ": " ++ dumps v ++ str_of ", "
            ++ dumps_members (kv' :: d')).
    destruct (skip_ws_members (kv' :: d') ("}"%char :: rest) ltac:(discriminate))
      as (t & Et & Hs).
    remember (dumps_members (kv' :: d')) as W eqn:EW.
    unfold dumps_str.
    cbn [parse_members app].
    change (Ascii.eqb DQ DQ) with true. cbv beta iota.
    rewrite <- !app_assoc. rewrite scanstring_escape'.
    simpl app. cbn [skip_ws].
    change (is_ws ":"%char) with false. cbv beta iota.
    change (Ascii.eqb ":"%char ":"%char) with true. cbv beta iota.
    match goal with
    | |- context [skip_ws (" "%char :: ?X)] =>
        change (skip_ws (" "%char :: X)) with (skip_ws X)
    end.
    rewrite skip_ws_value.
    rewrite (Hv Hwv) by (simpl; auto; lia).
    simpl. rewrite Hs, <- Et. subst W.
    rewrite IH; [reflexivity|exact HF'|exact Hw|discriminate|].
    simpl in *. lia.
Qed.

(** [parse_value] reads back what [dumps] wrote. *)
Lemma parse_value_dumps (j : json) : round_trips j.
Proof.
  induction j as [ | b | z | s | l IHl | d IHd ] using json_induction;
    intros Hw fuel rest Hfuel Hr;
    (destruct fuel as [|fuel]; [simpl in Hfuel; lia|]).
  - reflexivity.
  - destruct b; reflexivity.
  - apply parse_value_number.
    + destruct (str_of_Z_head z) as (c & t & E & H).
      exists c, (t ++ rest). simpl dumps. rewrite E. split; [reflexivity|exact H].
    + apply parse_number_str_of_Z. exact Hr.
  - simpl dumps. unfold dumps_str. cbn [parse_value app].
    change (Ascii.eqb DQ DQ) with true. cbv beta iota.
    rewrite <- app_assoc. simpl app. rewrite scanstring_escape. reflexivity.
  - rewrite dumps_arr. cbn [parse_value app].
    change (Ascii.eqb "["%char DQ) with false.
    change (Ascii.eqb "["%char "{"%char) with false.
    change (Ascii.eqb "["%char "["%char) with true. cbv beta iota.
    rewrite <- app_assoc. simpl app at 2.
    destruct l as [|x l].
    + reflexivity.
    + rewrite skip_ws_items by discriminate.
      destruct (dumps_items (x :: l) ++ "]"%char :: rest) as [|c1 s2] eqn:E.
      { exfalso. destruct (dumps_head x) as (c & t & Ec & _).
        destruct l; simpl in E; rewrite Ec in E; discriminate. }
      assert (Hc1 : Ascii.eqb c1 "]"%char = false).
      { destruct (dumps_head x) as (c & t & Ec & Hc).
        apply value_start_facts in Hc.
        destruct l; simpl in E; rewrite Ec in E; inversion E; subst; apply Hc. }
      rewrite Hc1, <- E.
      rewrite parse_elements_items; [reflexivity|exact IHl|exact Hw|discriminate|].
      simpl in Hfuel. simpl. lia.
  - rewrite dumps_obj. cbn [parse_value app].
    change (Ascii.eqb "{"%char DQ) with false.
    change (Ascii.eqb "{"%char "{"%char) with true. cbv beta iota.
    rewrite <- app_assoc. simpl app at 2.
    simpl in Hw. apply andb_true_iff in Hw. destruct Hw as [Hk Hw].
    destruct d as [|kv d].
    + reflexivity.
    + destruct (skip_ws_members (kv :: d) ("}"%char :: rest) ltac:(discriminate))
        as (t & Et & Hs).
      rewrite Hs. change (Ascii.eqb DQ "}"%char) with false. cbv beta iota.
      rewrite <- Et.
      rewrite parse_members_members;
        [|exact IHd|exact Hw|discriminate|simpl in Hfuel; simpl; lia].
      rewrite set_all_fresh; [reflexivity|exact Hk|reflexivity].
Qed.

(** The length of the text bounds the fuel [loads] needs. *)
Lemma size_le_length (j : json) : (size j <= length (dumps j))%nat.
Proof.
  induction j as [ | b | z | s | l IHl | d IHd ] using json_induction.
  - simpl. lia.
  - destruct b; simpl; lia.
  - destruct (str_of_Z_head z) as (c & t & E & _). simpl. rewrite E. simpl. lia.
  - simpl. lia.
  - rewrite dumps_arr. cbn [size]. rewrite length_cons, length_app. simpl length.
    assert (H : (fold_right (fun x n => S (size x + n)) O l
                 <= length (dumps_items l) + 1)%nat).
    { induction l as [|x l IH]; [simpl; lia|].
      inversion IHl as [|? ? Hx Hl]; subst. specialize (IH Hl).
      destruct l as [|y l'].
      - simpl. lia.
      - change (dumps_items (x :: y :: l'))
          with (dumps x ++ str_of ", " ++ dumps_items (y :: l')).
        rewrite !length_app. cbn [fold_right] in *. simpl length at 2. lia. }
    lia.
  - rewrite dumps_obj. cbn [size]. rewrite length_cons, length_app. simpl length.
    assert (H : (fold_right (fun kv n => S (size (snd kv) + n)) O d
                 <= length (dumps_members d) + 1)%nat).
    { induction d as [|[k v] d IH]; [simpl; lia|].
      inversion IHd as [|? ? Hx Hd]; subst. specialize (IH Hd). simpl in Hx.
      destruct d as [|kv' d'].
      - change (dumps_members [(k, v)])
          with (dumps_str k ++ str_of ": " ++ dumps v).
        rewrite !length_app. cbn [fold_right snd].
        change (length (str_of ": ")) with 2%nat. lia.
      - change (dumps_members ((k, v) :: kv' :: d'))
          with (dumps_str k ++ str_of ": " ++ dumps v ++ str_of ", "
                ++ dumps_members (kv' :: d')).
        rewrite !length_app. cbn [fold_right snd] in *.
        change (length (str_of ": ")) with 2%nat.
        change (length (str_of ", ")) with 2%nat. lia. }
    lia.
Qed.

(** [json.loads(json.dumps(j))] is [j]. *)
Lemma loads_dumps (j : json) : wf_json j = true -> loads (dumps j) = Ok j.
Proof.
  intros Hw. unfold loads.
  rewrite <- (List.app_nil_r (dumps j)) at 2.
  rewrite skip_ws_value.
  rewrite (parse_value_dumps j Hw); [reflexivity| |exact I].
  pose proof (size_le_length j). lia.
Qed.

(** ** Facts about the framing codec *)

Lemma read_exact_inv (r r' : reader) (n : Z) (data : bytes) :
  read_exact r n = (Ok data, r') ->
  content r = data ++ content r' /\ len data = Z.max 0 n.
Proof.
  intros H. destruct (read_exact_spec r n) as (r1 & E & C).
  rewrite E in H. inversion H as [[Hd Hr]]; subst r1. rewrite C.
  destruct (n <=? 0) eqn:E0.
  - apply Z.leb_le in E0. inversion Hd; subst.
    replace (Z.to_nat n) with 0%nat by lia. simpl. split; [reflexivity|].
    unfold len; simpl; lia.
  - apply Z.leb_gt in E0. destruct (n <=? len (content r)) eqn:E1; [|discriminate].
    apply Z.leb_le in E1. inversion Hd; subst.
    rewrite firstn_skipn. split; [reflexivity|].
    unfold len in *. rewrite length_firstn. lia.
Qed.

Lemma read_exact_err (r r' : reader) (n : Z) (e : exn) :
  read_exact r n = (Err e, r') -> e = EOFError /\ len (content r) < n.
Proof.
  intros H. destruct (read_exact_spec r n) as (r1 & E & C).
  rewrite E in H. destruct (n <=? 0); [discriminate|].
  destruct (n <=? len (content r)) eqn:E1; [discriminate|].
  apply Z.leb_gt in E1. inversion H; auto.
Qed.

Lemma write_out (w : sock) (data : bytes) :
  closing w = false ->
  write w data = mkSock (rd w) (out w ++ data) false (eof_sent w).
Proof. intros H. unfold write. rewrite H. reflexivity. Qed.

(** On a live connection [send_message] appends exactly one frame. *)
Lemma send_message_frame (w : sock) (h : json) (body : bytes) :
  closing w = false ->
  send_message w h body =
  match frame_bytes h body with
  | Ok bs => (Ok tt, mkSock (rd w) (out w ++ bs) false (eof_sent w))
  | Err e => (Err e, w)
  end.
Proof.
  intros Hc. unfold send_message, frame_bytes.
  destruct (pack_u32be (len (utf8_encode (dumps h)))) as [pre|e]; [|reflexivity].
  rewrite (write_out w _ Hc). rewrite write_out by reflexivity.
  cbn [rd out closing eof_sent].
  destruct body as [|x body].
  - unfold drain. cbn [closing]. rewrite app_nil_r, <- app_assoc. reflexivity.
  - rewrite write_out by reflexivity. unfold drain. cbn [rd out closing eof_sent].
    rewrite <- !app_assoc. reflexivity.
Qed.

(** A frame with a well-formed header is sent whenever the header fits
    the length prefix. *)
Lemma frame_bytes_ok (h : json) (body : bytes) :
  len (utf8_encode (dumps h)) < 2 ^ 32 ->
  exists bs, frame_bytes h body = Ok bs.
Proof.
  intros H. unfold frame_bytes.
  destruct (pack_ok (len (utf8_encode (dumps h)))) as (b & E).
  - split; [apply len_nonneg|exact H].
  - rewrite E. eauto.
Qed.

Lemma header_of_dumps (h : json) :
  wf_json h = true -> header_of (utf8_encode (dumps h)) = Ok h.
Proof.
  intros Hw. unfold header_of. rewrite utf8_decode_encode. apply loads_dumps, Hw.
Qed.

Lemma declared_body_len_is (h : json) (payload : bytes) :
  body_len_is h payload = true -> declared_body_len h = Ok (len payload).
Proof.
  unfold body_len_is, declared_body_len.
  destruct h as [ | | | | | d]; try discriminate. cbn [get].
  destruct (dict_get k_body_len d) as [[ | b | z | | | ]|]; try discriminate.
  - destruct b; cbn [gt0 as_count]; intros H; apply Z.eqb_eq in H; congruence.
  - intros H. apply Z.eqb_eq in H. subst z. cbn [gt0 as_count].
    destruct (0 <? len payload) eqn:E; [reflexivity|].
    apply Z.ltb_ge in E. pose proof (len_nonneg payload). f_equal. lia.
  - destruct payload; [reflexivity|discriminate].
Qed.

(** What [read_message] does, in terms of the bytes of the stream. *)
Lemma read_message_spec (r : reader) (pre hb rest : bytes) (h : json) (n : Z) :
  content r = pre ++ hb ++ rest ->
  length pre = 4%nat ->
  unpack_u32be pre = Ok (len hb) ->
  header_of hb = Ok h ->
  declared_body_len h = Ok n ->
  exists r',
    read_message r =
      (if n <=? len rest then Ok (h, firstn (Z.to_nat n) rest) else Err EOFError,
       r')
    /\ content r' = skipn (Z.to_nat n) rest.
Proof.
  intros Hc Hp Hu Hh Hn. unfold read_message.
  destruct (read_exact_ok r 4 pre (hb ++ rest) Hc) as (r1 & E1 & C1);
    [unfold len; lia|].
  rewrite E1, Hu.
  destruct (read_exact_ok r1 (len hb) hb rest C1 eq_refl) as (r2 & E2 & C2).
  rewrite E2. unfold header_of in Hh.
  destruct (utf8_decode hb) as [text|]; [|discriminate]. rewrite Hh.
  unfold declared_body_len in Hn.
  destruct (get h k_body_len) as [field|]; [|discriminate].
  destruct (gt0 _) as [[]|] eqn:Eg; [| |discriminate].
  - inversion Hn as [Hn']. rewrite Hn'.
    destruct (read_exact_spec r2 n) as (r3 & E3 & C3).
    rewrite E3, C2 in *. exists r3. split; [|exact C3].
    assert (E0 : (n <=? 0) = false).
    { apply Z.leb_gt. destruct field as [[ | [] | z | | | ]|]; simpl in *;
        try discriminate; try lia.
      inversion Eg as [Hz]. apply Z.ltb_lt in Hz. lia. }
    rewrite E0. destruct (n <=? len rest); reflexivity.
  - inversion Hn; subst n. exists r2. pose proof (len_nonneg rest).
    assert (E0 : (0 <=? len rest) = true) by (apply Z.leb_le; lia).
    rewrite E0. simpl. split; [reflexivity|exact C2].
Qed.

(** Reading back a frame that was written, whatever the chunking of the
    stream and whatever follows the frame. *)
Lemma read_message_frame (r : reader) (h : json) (payload bs tail : bytes) :
  wf_json h = true ->
  body_len_is h payload = true ->
  frame_bytes h payload = Ok bs ->
  content r = bs ++ tail ->
  exists r', read_message r = (Ok (h, payload), r') /\ content r' = tail.
Proof.
  intros Hw Hb Hf Hc. unfold frame_bytes in Hf.
  destruct (pack_u32be (len (utf8_encode (dumps h)))) as [pre|] eqn:Ep; [|discriminate].
  inversion Hf; subst bs. rewrite <- !app_assoc in Hc.
  destruct (unpack_pack _ _ Ep) as [Hu Hl].
  destruct (read_message_spec r pre (utf8_encode (dumps h)) (payload ++ tail) h
              (len payload) Hc Hl Hu (header_of_dumps h Hw)
              (declared_body_len_is h payload Hb)) as (r' & E & C).
  exists r'. rewrite E, C. unfold len.
  rewrite Nat2Z.id, firstn_app, Nat.sub_diag, firstn_all, firstn_O, app_nil_r.
  rewrite skipn_app, Nat.sub_diag, skipn_all. simpl.
  split; [|reflexivity].
  assert (El : (Z.of_nat (length payload) <=? Z.of_nat (length (payload ++ tail))) = true)
    by (apply Z.leb_le; rewrite length_app; lia).
  rewrite El. reflexivity.
Qed.

(** ** The framing codec: round trip and end-of-stream *)

(** Writing succeeds on a live connection whenever the encoded header is
    shorter than 2^32 bytes. *)
Lemma send_message_succeeds (w : sock) (h : json) (payload : bytes) :
  closing w = false ->
  len (utf8_encode (dumps h)) < 2 ^ 32 ->
  exists w', send_message w h payload = (Ok tt, w').
Proof.
  intros Hc Hl. rewrite send_message_frame by exact Hc.
  destruct (frame_bytes_ok h payload Hl) as (bs & E). rewrite E. eauto.
Qed.

(** C2. Framing round trip: when a header dictionary [h] whose [body_len]
    equals the length of the payload (or is absent, the payload being
    empty) has been written with its payload by [send_message],
    [read_message] applied to a stream that delivers the written bytes, in
    chunks of any sizes and followed by anything, returns [h] and the
    payload and leaves the rest of the stream unread. *)
Theorem framing_round_trip (w w' : sock) (h : json) (payload : bytes) :
  wf_json h = true ->
  body_len_is h payload = true ->
  closing w = false ->
  send_message w h payload = (Ok tt, w') ->
  exists bs,
    out w' = out w ++ bs /\
    forall (r : reader) (tail : bytes),
      content r = bs ++ tail ->
      exists r', read_message r = (Ok (h, payload), r') /\ content r' = tail.
Proof.
  intros Hw Hb Hc Hs. rewrite send_message_frame in Hs by exact Hc.
  destruct (frame_bytes h payload) as [bs|e] eqn:Ef; [|discriminate].
  inversion Hs; subst w'. exists bs. split; [reflexivity|].
  intros r tail Hr. exact (read_message_frame r h payload bs tail Hw Hb Ef Hr).
Qed.

Lemma framing_round_trip_witness :
  let h := data_header (bytes_of "AB") in
  let w := fresh [] in
  exists bs,
    out (snd (send_message w h (bytes_of "AB"))) = out w ++ bs /\
    forall (r : reader) (tail : bytes),
      content r = bs ++ tail ->
      exists r', read_message r = (Ok (h, bytes_of "AB"), r') /\ content r' = tail.
Proof.
  intros h w.
  apply (framing_round_trip w (snd (send_message w h (bytes_of "AB"))) h
           (bytes_of "AB")); reflexivity.
Defined.

Lemma read_message_inv (r r' : reader) (h : json) (body : bytes) :
  read_message r = (Ok (h, body), r') ->
  exists pre hb,
    content r = pre ++ hb ++ body ++ content r'
    /\ length pre = 4%nat
    /\ unpack_u32be pre = Ok (len hb)
    /\ header_of hb = Ok h
    /\ declared_body_len h = Ok (len body).
Proof.
  unfold read_message. intros H.
  destruct (read_exact r 4) as [[pre|e] r1] eqn:E1; [|discriminate].
  destruct (unpack_u32be pre) as [hlen|e] eqn:Eu; [|discriminate].
  destruct (read_exact r1 hlen) as [[hb|e] r2] eqn:E2; [|discriminate].
  destruct (utf8_decode hb) as [text|e] eqn:Ed; [|discriminate].
  destruct (loads text) as [hd|e] eqn:El; [|discriminate].
  destruct (get hd k_body_len) as [field|e] eqn:Eg; [|discriminate].
  apply read_exact_inv in E1. destruct E1 as [C1 L1].
  apply read_exact_inv in E2. destruct E2 as [C2 L2].
  assert (Hpre : length pre = 4%nat) by (unfold len in L1; lia).
  assert (Hhl : hlen = len hb).
  { destruct pre as [|a [|b [|c [|d [|]]]]]; try discriminate Hpre.
    unfold unpack_u32be in Eu. inversion Eu as [Hv].
    pose proof (Z_of_byte_range a). pose proof (Z_of_byte_range b).
    pose proof (Z_of_byte_range c). pose proof (Z_of_byte_range d).
    change (2 ^ 24) with 16777216 in *. change (2 ^ 16) with 65536 in *.
    change (2 ^ 8) with 256 in *. lia. }
  subst hlen.
  destruct (gt0 _) as [[]|e] eqn:E0; [| |discriminate].
  - destruct (read_exact r2 _) as [[bd|e] r3] eqn:E3; [|discriminate].
    inversion H; subst hd bd r3. apply read_exact_inv in E3. destruct E3 as [C3 L3].
    exists pre, hb. rewrite C1, C2, C3.
    split; [reflexivity|]. split; [exact Hpre|]. split; [exact Eu|].
    split; [unfold header_of; rewrite Ed; exact El|].
    unfold declared_body_len. rewrite Eg, E0. f_equal.
    rewrite L3. destruct field as [[ | [] | z | | | ]|]; simpl in *;
      try discriminate; try lia.
    inversion E0 as [Hz]. apply Z.ltb_lt in Hz. lia.
  - inversion H; subst hd body r2.
    exists pre, hb. rewrite C1, C2.
    split; [reflexivity|]. split; [exact Hpre|]. split; [exact Eu|].
    split; [unfold header_of; rewrite Ed; exact El|].
    unfold declared_body_len. rewrite Eg, E0. reflexivity.
Qed.

(** C4. A stream that ends inside the 4-byte length prefix, inside the
    header bytes, or inside the payload that the header declares makes
    [read_message] raise [EOFError] (the codec's LinkClosed): no frame is
    returned.  A read that succeeds has consumed exactly the prefix, the
    header bytes it announces and the declared number of payload bytes,
    and returns that payload in full. *)
Theorem read_message_link_closed (r : reader) :
  (len (content r) < 4 -> exists r', read_message r = (Err EOFError, r'))
  /\ (forall pre rest hlen,
        content r = pre ++ rest -> length pre = 4%nat ->
        unpack_u32be pre = Ok hlen -> len rest < hlen ->
        exists r', read_message r = (Err EOFError, r'))
  /\ (forall pre hb rest h n,
        content r = pre ++ hb ++ rest -> length pre = 4%nat ->
        unpack_u32be pre = Ok (len hb) -> header_of hb = Ok h ->
        declared_body_len h = Ok n -> len rest < n ->
        exists r', read_message r = (Err EOFError, r'))
  /\ (forall h body r',
        read_message r = (Ok (h, body), r') ->
        exists pre hb,
          content r = pre ++ hb ++ body ++ content r'
          /\ length pre = 4%nat
          /\ unpack_u32be pre = Ok (len hb)
          /\ header_of hb = Ok h
          /\ declared_body_len h = Ok (len body)).
Proof.
  split; [|split; [|split]].
  - intros Hl. unfold read_message.
    destruct (read_exact_eof r 4 Hl) as (r' & E & _). rewrite E. eauto.
  - intros pre rest hlen Hc Hp Hu Hl. unfold read_message.
    destruct (read_exact_ok r 4 pre rest Hc) as (r1 & E1 & C1); [unfold len; lia|].
    rewrite E1, Hu.
    destruct (read_exact_eof r1 hlen) as (r2 & E2 & _); [rewrite C1; exact Hl|].
    rewrite E2. eauto.
  - intros pre hb rest h n Hc Hp Hu Hh Hn Hl.
    destruct (read_message_spec r pre hb rest h n Hc Hp Hu Hh Hn) as (r' & E & _).
    assert (En : (n <=? len rest) = false) by (apply Z.leb_gt; exact Hl).
    rewrite En in E. eauto.
  - intros h body r'. apply read_message_inv.
Qed.

Lemma read_message_link_closed_witness :
  exists r', read_message [[Byte.x00; Byte.x00]; [Byte.x00]] = (Err EOFError, r').
Proof.
  apply (proj1 (read_message_link_closed [[Byte.x00; Byte.x00]; [Byte.x00]])).
  vm_compute. reflexivity.
Defined.

(** ** Ship handlers *)

Lemma read_message_dict (r r' : reader) (h : json) (b : bytes) :
  read_message r = (Ok (h, b), r') -> exists d, h = JObj d.
Proof.
  intros H. apply read_message_inv in H.
  destruct H as (pre & hb & _ & _ & _ & _ & Hd).
  unfold declared_body_len in Hd.
  destruct h; simpl in Hd; try discriminate. eauto.
Qed.

Lemma get_type (h : json) (d : dict) :
  h = JObj d -> get h k_type = Ok (frame_type h).
Proof. intros ->. reflexivity. Qed.

Lemma up_send_live (u c : sock) (h : json) (body bs : bytes) :
  closing u = false ->
  frame_bytes h body = Ok bs ->
  up_send h body (mkH (Some u) c) =
  (Ok tt, mkH (Some (mkSock (rd u) (out u ++ bs) false (eof_sent u))) c).
Proof.
  intros Hc Hf. unfold up_send. cbn [up cl].
  rewrite send_message_frame by exact Hc. rewrite Hf. reflexivity.
Qed.

Lemma up_read_message_eq (u c : sock) :
  up_read_message (mkH (Some u) c) =
  (fst (read_message (rd u)), mkH (Some (set_rd u (snd (read_message (rd u))))) c).
Proof.
  unfold up_read_message. cbn [up cl]. destruct (read_message (rd u)). reflexivity.
Qed.

Lemma reply_bad_gateway_live (u : option sock) (c : sock) :
  closing c = false ->
  reply_bad_gateway (mkH u c) = (Ok tt, mkH u (close (write c bad_gateway))).
Proof.
  intros Hc. unfold reply_bad_gateway, bind, cl_write, cl_drain, cl_close, modify.
  cbn [up cl]. unfold drain. rewrite write_out by exact Hc. reflexivity.
Qed.

Lemma is_str_exclusive (v : option json) :
  is_str v "DATA_END" = true -> is_str v "DATA" = false.
Proof.
  destruct v as [[ | | | s | | ]|]; simpl; try discriminate.
  intros H. apply str_eqb_eq in H. subst s. reflexivity.
Qed.

Lemma frame_bytes_length (h : json) (body bs : bytes) :
  frame_bytes h body = Ok bs -> (4 <= length bs)%nat.
Proof.
  unfold frame_bytes.
  destruct (pack_u32be _) as [pre|] eqn:E; [|discriminate].
  intros H. inversion H; subst. apply unpack_pack in E. destruct E as [_ E].
  rewrite length_app. lia.
Qed.

Lemma encode_frames_length (fs : list (json * bytes)) :
  forall bs, encode_frames fs = Ok bs -> (length fs <= length bs)%nat.
Proof.
  induction fs as [|f fs IH]; intros bs H; simpl in *; [lia|].
  destruct (frame_bytes (fst f) (snd f)) as [a|] eqn:Ea; [|discriminate].
  destruct (encode_frames fs) as [b|]; [|discriminate].
  inversion H; subst. apply frame_bytes_length in Ea. specialize (IH b eq_refl).
  rewrite length_app. lia.
Qed.

Lemma sock_eta (c : sock) :
  closing c = false -> c = mkSock (rd c) (out c ++ []) false (eof_sent c).
Proof. destruct c; simpl. intros ->. rewrite app_nil_r. reflexivity. Qed.

(** The loop of [read_offshore_write] over a run of frames that ends with
    a DATA_END frame. *)
Lemma uplink_to_client_frames (fs : list (json * bytes)) :
  forall (fuel : nat) (u c : sock) (bs be tail : bytes) (fe : json * bytes),
    Forall (fun f => frame_wf f = true) fs ->
    (forall f, In f fs -> is_data_end f = false) ->
    encode_frames fs = Ok bs ->
    frame_wf fe = true -> is_data_end fe = true ->
    frame_bytes (fst fe) (snd fe) = Ok be ->
    content (rd u) = bs ++ be ++ tail ->
    closing c = false ->
    (length fs < fuel)%nat ->
    exists r',
      uplink_to_client fuel (mkH (Some u) c) =
        (Ok tt,
         mkH (Some (set_rd u r'))
           (mkSock (rd c) (out c ++ data_payloads fs) false (eof_sent c)))
      /\ content r' = tail.
Proof.
  induction fs as [|[h p] fs IH];
    intros fuel u c bs be tail [he pe] Hwf Hne Hbs Hwe Hde Hbe Hc Hcl Hfuel;
    (destruct fuel as [|fuel]; [simpl in Hfuel; lia|]).
  - simpl in Hbs. inversion Hbs; subst bs. simpl in Hc.
    unfold frame_wf in Hwe. apply andb_true_iff in Hwe. destruct Hwe as [Hw1 Hw2].
    cbn [fst snd] in *.
    destruct (read_message_frame (rd u) he pe be tail Hw1 Hw2 Hbe Hc) as (r' & Er & Cr).
    destruct (read_message_dict _ _ _ _ Er) as (d & Hd).
    exists r'. split; [|exact Cr].
    cbn [uplink_to_client]. unfold bind. rewrite up_read_message_eq, Er.
    cbn [fst snd]. unfold lift. rewrite (get_type he d Hd).
    unfold is_data_end in Hde. cbn [fst] in Hde.
    rewrite (is_str_exclusive _ Hde), Hde. unfold ret. cbn [data_payloads flat_map].
    rewrite <- sock_eta by exact Hcl. reflexivity.
  - inversion Hwf as [|? ? Hwf1 Hwf']; subst.
    unfold frame_wf in Hwf1. apply andb_true_iff in Hwf1. destruct Hwf1 as [Hw1 Hw2].
    cbn [fst snd] in *.
    simpl in Hbs.
    destruct (frame_bytes h p) as [a|] eqn:Ea; [|discriminate].
    destruct (encode_frames fs) as [b|] eqn:Eb; [|discriminate].
    inversion Hbs; subst bs. rewrite <- app_assoc in Hc.
    destruct (read_message_frame (rd u) h p a _ Hw1 Hw2 Ea Hc) as (r1 & Er & Cr).
    destruct (read_message_dict _ _ _ _ Er) as (d & Hd).
    assert (Hnd : is_str (frame_type h) "DATA_END" = false)
      by (apply (Hne (h, p)); left; reflexivity).
    cbn [uplink_to_client]. unfold bind at 1. rewrite up_read_message_eq, Er.
    cbn [fst snd]. unfold bind at 1. unfold lift at 1. rewrite (get_type h d Hd).
    cbn [data_payloads flat_map]. unfold is_data at 1. cbn [fst snd].
    destruct (is_str (frame_type h) "DATA") eqn:Edata.
    + destruct p as [|x p].
      * unfold bind, ret.
        destruct (IH fuel (set_rd u r1) c b be tail (he, pe) Hwf'
                    (fun f Hf => Hne f (or_intror Hf)) eq_refl Hwe Hde Hbe Cr Hcl
                    ltac:(simpl in Hfuel; lia)) as (r' & E & C').
        exists r'. rewrite E. split; [|exact C']. reflexivity.
      * unfold bind, cl_write, cl_drain, modify. cbn [up cl].
        rewrite write_out by exact Hcl. unfold drain. cbn [closing].
        destruct (IH fuel (set_rd u r1)
                    (mkSock (rd c) (out c ++ x :: p) false (eof_sent c))
                    b be tail (he, pe) Hwf'
                    (fun f Hf => Hne f (or_intror Hf)) eq_refl Hwe Hde Hbe Cr eq_refl
                    ltac:(simpl in Hfuel; lia)) as (r' & E & C').
        exists r'. rewrite E. split; [|exact C'].
        cbn [rd out eof_sent]. rewrite <- app_assoc. reflexivity.
    + rewrite Hnd.
      destruct (IH fuel (set_rd u r1) c b be tail (he, pe) Hwf'
                  (fun f Hf => Hne f (or_intror Hf)) eq_refl Hwe Hde Hbe Cr Hcl
                  ltac:(simpl in Hfuel; lia)) as (r' & E & C').
      exists r'. rewrite E. split; [|exact C']. reflexivity.
Qed.

(** C6, as the code has it.  While the uplink delivers frames, the
    uplink-to-client sub-task writes the payload of every DATA frame to
    the client, in order; it skips a frame of any other type and goes on
    reading; it stops at the first DATA_END frame, leaving what follows it
    unread. *)
Theorem read_offshore_write_frames (fs : list (json * bytes))
  (u c : sock) (bs be tail : bytes) (fe : json * bytes) :
  Forall (fun f => frame_wf f = true) fs ->
  (forall f, In f fs -> is_data_end f = false) ->
  encode_frames fs = Ok bs ->
  frame_wf fe = true -> is_data_end fe = true ->
  frame_bytes (fst fe) (snd fe) = Ok be ->
  content (rd u) = bs ++ be ++ tail ->
  closing c = false ->
  exists r',
    read_offshore_write (mkH (Some u) c) =
      (Ok tt,
       mkH (Some (set_rd u r'))
         (mkSock (rd c) (out c ++ data_payloads fs) false (eof_sent c)))
    /\ content r' = tail.
Proof.
  intros Hwf Hne Hbs Hwe Hde Hbe Hc Hcl.
  destruct (uplink_to_client_frames fs (S (uplink_pending (mkH (Some u) c)))
              u c bs be tail fe Hwf Hne Hbs Hwe Hde Hbe Hc Hcl) as (r' & E & C').
  - unfold uplink_pending. cbn [up]. rewrite Hc, !length_app.
    apply encode_frames_length in Hbs. lia.
  - exists r'. split; [|exact C'].
    unfold read_offshore_write, try_except. rewrite E. reflexivity.
Qed.

(** ** The synthetic 502 *)

Lemma bad_gateway_frame_bytes :
  frame_bytes Offshore.bad_gateway_header Offshore.bad_gateway_body
  = Ok bad_gateway_frame.
Proof. vm_compute. reflexivity. Qed.

Lemma offshore_bad_gateway
  (http_request : json -> json -> json -> bytes ->
                  result (Z * list (str * str) * bytes))
  (w : sock) (header : json) (body : bytes) (method url : json) (e : exn) :
  getitem header (str_of "method") = Ok method ->
  getitem header (str_of "url") = Ok url ->
  http_request method url (request_headers header) body = Err e ->
  closing w = false ->
  Offshore.handle_http_request http_request header body w =
    (Ok tt, mkSock (rd w) (out w ++ bad_gateway_frame) false (eof_sent w)).
Proof.
  intros Hm Hu He Hc.
  unfold Offshore.handle_http_request, bind, lift. rewrite Hm, Hu.
  destruct header as [ | | | | | d]; try discriminate Hm.
  cbn [get]. unfold request_headers in He.
  unfold try_except. rewrite He.
  rewrite send_message_frame by exact Hc.
  rewrite bad_gateway_frame_bytes. reflexivity.
Qed.

Lemma ship_bad_gateway (method target : str) (headers : list (str * str))
  (body req tail : bytes) (u c : sock) :
  closing u = false -> closing c = false ->
  frame_bytes (http_request_header method target headers body) body = Ok req ->
  content (rd u) = bad_gateway_frame ++ tail ->
  exists r',
    handle_http_request method target headers body (mkH (Some u) c) =
      (Ok tt,
       mkH (Some (mkSock r' (out u ++ req) false (eof_sent u)))
         (mkSock [] (out c ++ client_502) true (eof_sent c)))
    /\ content r' = tail.
Proof.
  intros Hu Hc Hf Hr.
  destruct (read_message_frame (rd u) Offshore.bad_gateway_header
              Offshore.bad_gateway_body bad_gateway_frame tail
              eq_refl eq_refl bad_gateway_frame_bytes Hr) as (r' & Er & Cr).
  exists r'. split; [|exact Cr].
  unfold handle_http_request. unfold bind at 1.
  rewrite (up_send_live u c _ _ req Hu Hf).
  unfold bind at 1. unfold try_except, bind at 1.
  rewrite up_read_message_eq. cbn [rd]. rewrite Er. cbn [fst snd]. unfold ret at 1.
  destruct c as [crd cout ccl ceof]. simpl in Hc. subst ccl.
  cbn. rewrite <- !app_assoc. reflexivity.
Qed.

(** ** The serializer *)

Section WorkerFacts.

Variable T : Type.
Variable task_func : T -> Handler unit.









(** The redial the code does perform: when the stored uplink writer
    reports [is_closing()] as an item is taken from the queue, the
    serializer opens a new connection before the handler runs, and the
    handler works on that connection. *)
Lemma redial_when_closing (args : T) (client : sock) (s : ship)
  (u c : sock) (n : list (result sock)) :
  uplink s = Some u -> closing u = true -> net s = Ok c :: n ->
  worker_step task_func args client s =
    let (r, h) := task_func args (mkH (Some c) client) in
    mkShip (up h) n (S (dials s)) (queue s) (handled s ++ [cl h])
      (S (done s)) (log s ++ [Picked (done s); Done (done s) r]).
Proof.
  intros Hu Hc Hn. destruct s as [u0 n0 d q h dn lg].
  cbn [uplink net] in Hu, Hn. subst u0 n0.
  unfold worker_step, ensure_offshore.
  cbn [uplink net dials queue handled done log]. rewrite Hc. cbn [negb].
  cbn [uplink net dials queue handled done log].
  destruct (task_func args _) as [r hs]. rewrite <- app_assoc. reflexivity.
Qed.

(** No dial while the stored writer does not report [is_closing()],
    whatever has happened to the reader. *)
Lemma no_dial_while_not_closing (args : T) (client : sock) (s : ship)
  (u : sock) :
  uplink s = Some u -> closing u = false ->
  dials (worker_step task_func args client s) = dials s
  /\ net (worker_step task_func args client s) = net s.
Proof.
  intros Hu Hc. destruct s as [u0 n0 d q h dn lg]. cbn [uplink] in Hu. subst u0.
  unfold worker_step, ensure_offshore.
  cbn [uplink net dials queue handled done log]. rewrite Hc. cbn [negb].
  destruct (task_func args _) as [r hs]. split; reflexivity.
Qed.

End WorkerFacts.

(** ** The acceptor *)

(** C9, as the code has it.  The test is [len(parts) < 3]: a client whose
    request line has fewer than the three fields method, target and
    protocol, or is not valid UTF-8, is closed silently: nothing is
    written to it, no work item is put on the queue, and the uplink is
    left as it was.  (A line that is valid UTF-8 with a code point above
    U+00FF is outside the model and not covered.) *)
Theorem handle_client_malformed (c : sock) (s : ship) :
  match utf8_decode (fst (readline_from (rd c) [])) with
  | Ok text => (length (split SP (rstrip_crlf text)) < 3)%nat
  | Err e => e <> OutsideModel
  end ->
  let c' := mkSock [] (out c) true (eof_sent c) in
  handle_client c = Closed c'
  /\ accept c s =
       mkShip (uplink s) (net s) (dials s) (queue s) (handled s ++ [c'])
         (done s) (log s).
Proof.
  intros H c'.
  assert (Hc : handle_client c = Closed c').
  { unfold handle_client, parse_client, bind, readline.
    destruct (readline_from (rd c) []) as [line r1]. cbn [fst] in H.
    destruct line as [|x line]; [reflexivity|].
    unfold lift. destruct (utf8_decode (x :: line)) as [text|e]; [|reflexivity].
    destruct (split SP (rstrip_crlf text)) as [|m [|t [|p ps]]];
      try reflexivity.
    simpl in H. lia. }
  split; [exact Hc|]. unfold accept. rewrite Hc. reflexivity.
Qed.

Lemma handle_client_malformed_witness :
  let c := fresh [bytes_of "HELLO" ++ bCRLF] in
  let s := mkShip None [] 0 [] [] 0 [] in
  let c' := mkSock [] (out c) true (eof_sent c) in
  handle_client c = Closed c'
  /\ accept c s =
       mkShip (uplink s) (net s) (dials s) (queue s) (handled s ++ [c'])
         (done s) (log s).
Proof.
  intros c s. apply (handle_client_malformed c s). vm_compute. lia.
Defined.

(** C9 as the claim states it fails: a request line that splits into four
    fields, not three, is not taken for malformed.  The acceptor uses the
    first three fields, leaves the client open with nothing written to it,
    and puts the request on the queue. *)
Lemma handle_client_extra_field :
  let line := str_of "GET http://example.com/ HTTP/1.1 extra" in
  let c := fresh [utf8_encode line ++ bCRLF ++ bCRLF] in
  let s := mkShip None [] 0 [] [] 0 [] in
  let it := mkItem (HttpTask (str_of "GET") (str_of "http://example.com/")
                      [] [])
              (fresh []) in
  length (split SP line) = 4%nat
  /\ handle_client c = Enqueued it
  /\ accept c s = mkShip None [] 0 [it] [] 0 [].
Proof. vm_compute. repeat split; reflexivity. Qed.

(** ** The Offshore CONNECT bridge *)

(** C7, as the code has it.  When the uplink-to-target sub-task reads a
    DATA_END frame it closes the target socket, both directions, and
    terminates; the target-to-uplink sub-task then finds end-of-stream on
    the target, emits DATA_END and terminates. *)
Theorem ship_to_target_data_end (st : Offshore.bridge) (h : json) (b : bytes)
  (r' : reader) (bs : bytes) :
  read_message (rd (Offshore.link st)) = (Ok (h, b), r') ->
  is_str (frame_type h) "DATA_END" = true ->
  closing (Offshore.link st) = false ->
  frame_bytes data_end_header [] = Ok bs ->
  let st' := Offshore.mkBridge (set_rd (Offshore.link st) r')
               (mkSock [] (out (Offshore.target st)) true
                  (eof_sent (Offshore.target st))) in
  Offshore.ship_to_target st = (Ok tt, st')
  /\ Offshore.target_to_ship st' =
       (Ok tt,
        Offshore.mkBridge
          (mkSock r' (out (Offshore.link st) ++ bs) false
             (eof_sent (Offshore.link st)))
          (Offshore.target st')).
Proof.
  intros Hr Ht Hc Hf st'.
  destruct (read_message_dict _ _ _ _ Hr) as (d & Hd).
  split.
  - unfold Offshore.ship_to_target, try_except. cbn [Offshore.uplink_to_target].
    unfold bind, Offshore.link_read_message. rewrite Hr. unfold lift.
    rewrite (get_type h d Hd), (is_str_exclusive _ Ht), Ht. reflexivity.
  - subst st'. unfold Offshore.target_to_ship, try_except.
    cbn [Offshore.target rd content concat length Offshore.target_to_uplink].
    unfold bind, Offshore.target_read. cbn [Offshore.target rd]. unfold read.
    cbn [Z.eqb Z.ltb Z.compare read_some]. unfold Offshore.link_send.
    cbn [Offshore.link].
    rewrite send_message_frame by (cbn [closing set_rd]; exact Hc).
    rewrite Hf. reflexivity.
Qed.

(** ** The synthetic 502, end to end *)

(** C3. When the outbound HTTP call fails, whatever the exception, the
    Offshore writes one frame to the uplink: header
    [{type: HTTPResponse, status_code: 502, headers: {Content-Length: '11'},
    body_len: 11}] and the 11 bytes [Bad Gateway] as payload.  The Ship
    handler that reads this frame writes to its client a response with
    status 502, the header [Content-Length: 11] and the body
    [Bad Gateway], and closes the client. *)
Theorem bad_gateway_synthesis
  (http_request : json -> json -> json -> bytes ->
                  result (Z * list (str * str) * bytes))
  (w : sock) (header : json) (body : bytes) (method url : json) (e : exn) :
  getitem header (str_of "method") = Ok method ->
  getitem header (str_of "url") = Ok url ->
  http_request method url (request_headers header) body = Err e ->
  closing w = false ->
  Offshore.handle_http_request http_request header body w =
    (Ok tt, mkSock (rd w) (out w ++ bad_gateway_frame) false (eof_sent w))
  /\ frame_bytes Offshore.bad_gateway_header (bytes_of "Bad Gateway")
     = Ok bad_gateway_frame
  /\ frame_type Offshore.bad_gateway_header = Some (JStr (str_of "HTTPResponse"))
  /\ getitem Offshore.bad_gateway_header (str_of "status_code") = Ok (JInt 502)
  /\ getitem Offshore.bad_gateway_header k_body_len = Ok (JInt 11)
  /\ getitem Offshore.bad_gateway_header (str_of "headers")
     = Ok (JObj [(str_of "Content-Length", JStr (str_of "11"))])
  /\ len (bytes_of "Bad Gateway") = 11
  /\ (forall (r : reader) (tail : bytes),
        content r = bad_gateway_frame ++ tail ->
        exists r',
          read_message r
          = (Ok (Offshore.bad_gateway_header, bytes_of "Bad Gateway"), r')
          /\ content r' = tail)
  /\ (forall (m t : str) (hs : list (str * str)) (rb req tail : bytes)
        (u c : sock),
        closing u = false -> closing c = false ->
        frame_bytes (http_request_header m t hs rb) rb = Ok req ->
        content (rd u) = bad_gateway_frame ++ tail ->
        exists r',
          handle_http_request m t hs rb (mkH (Some u) c) =
            (Ok tt,
             mkH (Some (mkSock r' (out u ++ req) false (eof_sent u)))
               (mkSock [] (out c ++ client_502) true (eof_sent c)))
          /\ content r' = tail).
Proof.
  intros Hm Hu He Hc.
  split; [exact (offshore_bad_gateway http_request w header body method url e Hm Hu He Hc)|].
  split; [exact bad_gateway_frame_bytes|].
  do 5 (split; [reflexivity|]).
  split.
  - intros r tail Hr.
    exact (read_message_frame r Offshore.bad_gateway_header
             Offshore.bad_gateway_body bad_gateway_frame tail
             eq_refl eq_refl bad_gateway_frame_bytes Hr).
  - intros m t hs rb req tail u c H1 H2 H3 H4.
    exact (ship_bad_gateway m t hs rb req tail u c H1 H2 H3 H4).
Qed.

Lemma bad_gateway_synthesis_witness :
  Offshore.handle_http_request failing_client sample_get_header [] (fresh [])
  = (Ok tt, mkSock [] ([] ++ bad_gateway_frame) false false).
Proof.
  apply (proj1 (bad_gateway_synthesis failing_client (fresh []) sample_get_header
                  [] (JStr (str_of "GET")) (JStr (str_of "http://example.com/"))
                  ClientError eq_refl eq_refl eq_refl eq_refl)).
Defined.

(** ** Tunnel mode and redial at sample inputs *)

(** C6 as the claim states it fails: an ERROR frame in tunnel mode does
    not end the uplink-to-client sub-task.  It goes on to the DATA frame
    behind it, whose payload reaches the client, and stops at the
    DATA_END frame. *)
Lemma read_offshore_write_goes_on :
  let r := [frames_wire [error_frame; data_frame (bytes_of "x"); data_end_frame]] in
  fst (read_message r) = Ok error_frame
  /\ is_data error_frame = false /\ is_data_end error_frame = false
  /\ read_offshore_write (mkH (Some (fresh r)) (fresh []))
     = (Ok tt, mkH (Some (fresh [])) (mkSock [] (bytes_of "x") false false)).
Proof. vm_compute. repeat split; reflexivity. Qed.

Lemma read_offshore_write_frames_witness :
  let fs := [error_frame; data_frame (bytes_of "x")] in
  let u := fresh [frames_wire fs; frames_wire [data_end_frame]] in
  exists r',
    read_offshore_write (mkH (Some u) (fresh [])) =
      (Ok tt,
       mkH (Some (set_rd u r'))
         (mkSock [] ([] ++ data_payloads fs) false false))
    /\ content r' = [].
Proof.
  intros fs u.
  apply (read_offshore_write_frames fs u (fresh []) (frames_wire fs)
           (frames_wire [data_end_frame]) [] data_end_frame).
  - repeat constructor.
  - intros f [<-|[<-|[]]]; reflexivity.
  - reflexivity.
  - reflexivity.
  - reflexivity.
  - reflexivity.
  - reflexivity.
  - reflexivity.
Defined.

(** C7 as the claim states it fails: after DATA_END the target socket is
    closed, not half-closed, so the four bytes the target was still to
    deliver are never forwarded: the target-to-uplink sub-task sends
    DATA_END at once.  Had the write side alone been shut down, it would
    have forwarded them in a DATA frame first. *)
Lemma ship_to_target_closes_both_ways :
  let st := Offshore.mkBridge (fresh [frames_wire [data_end_frame]])
              (fresh [bytes_of "late"]) in
  let st' := snd (Offshore.ship_to_target st) in
  closing (Offshore.target st') = true
  /\ eof_sent (Offshore.target st') = false
  /\ rd (Offshore.target st') = []
  /\ out (Offshore.link (snd (Offshore.target_to_ship st')))
     = frames_wire [data_end_frame]
  /\ out (Offshore.link
            (snd (Offshore.target_to_ship
                    (Offshore.mkBridge (Offshore.link st')
                       (write_eof (Offshore.target st))))))
     = frames_wire [data_frame (bytes_of "late"); data_end_frame].
Proof. vm_compute. repeat split; reflexivity. Qed.

Lemma ship_to_target_data_end_witness :
  let st := Offshore.mkBridge (fresh [frames_wire [data_end_frame]])
              (fresh [bytes_of "late"]) in
  let st' := Offshore.mkBridge (set_rd (Offshore.link st) [])
               (mkSock [] [] true false) in
  Offshore.ship_to_target st = (Ok tt, st')
  /\ Offshore.target_to_ship st' =
       (Ok tt,
        Offshore.mkBridge
          (mkSock [] ([] ++ frames_wire [data_end_frame]) false false)
          (Offshore.target st')).
Proof.
  intros st.
  apply (ship_to_target_data_end st data_end_header [] []
           (frames_wire [data_end_frame])); reflexivity.
Defined.

(** C5 (the code departs from it).  The peer has closed the uplink: its
    reader is at end-of-stream, and since nothing in the Ship closes the
    uplink writer on end-of-stream, the writer does not report
    [is_closing()].  The next item is then handled without a dial, on the
    stale connection: the request is written to it, the read meets
    end-of-stream, and the client gets the 502.  The connection that a
    dial would have opened stays unused. *)
Theorem no_redial_after_peer_eof :
  let stale := peer_hung_up (fresh []) in
  let spare := fresh [] in
  let s := mkShip (Some stale) [Ok spare] 0 [] [] 0 [] in
  let s' := worker_step run_task sample_get (fresh []) s in
  closing stale = false
  /\ dials s' = 0%nat
  /\ net s' = [Ok spare]
  /\ uplink s' = Some (mkSock [] (frames_wire [(sample_get_header, [])]) false false)
  /\ handled s' = [mkSock [] bad_gateway true false]
  /\ log s' = [Picked 0; Done 0 (Ok tt)].
Proof. vm_compute. repeat split; reflexivity. Qed.

Lemma redial_when_closing_witness :
  let lost := mkSock [] [] true false in
  let spare := fresh [bad_gateway_frame] in
  let s := mkShip (Some lost) [Ok spare] 0 [] [] 0 [] in
  worker_step run_task sample_get (fresh []) s =
    let (r, h) := run_task sample_get (mkH (Some spare) (fresh [])) in
    mkShip (up h) [] 1 [] ([] ++ [cl h]) 1 ([] ++ [Picked 0; Done 0 r]).
Proof.
  intros lost spare s.
  apply (redial_when_closing task run_task sample_get (fresh []) s lost spare []);
    reflexivity.
Defined.


(** ** The fuel is enough *)

Lemma skip_ws_length (s : str) : (length (skip_ws s) <= length s)%nat.
Proof.
  induction s as [|c s IH]; simpl; [lia|]. destruct (is_ws c); simpl; lia.
Qed.

Lemma take_digits_length (s : str) :
  (length (snd (take_digits s)) <= length s)%nat.
Proof.
  induction s as [|c s IH]; simpl; [lia|].
  destruct (digit_of c); [|simpl; lia].
  destruct (take_digits s). simpl in *. lia.
Qed.

(** [scanstring] consumes at least the closing quote and never runs out
    of fuel (it has none). *)
Lemma scanstring_length (n : nat) :
  forall s, (length s <= n)%nat ->
    match scanstring s with
    | Ok (_, r) => (length r < length s)%nat
    | Err e => e <> RecursionError
    end.
Proof.
  induction n as [|n IH]; intros s Hn.
  - destruct s; [simpl; discriminate|simpl in Hn; lia].
  - destruct s as [|c s1]; [simpl; discriminate|].
    simpl in Hn. cbn [scanstring].
    destruct (Ascii.eqb c DQ); [simpl; lia|].
    destruct (Ascii.eqb c BSL).
    + destruct s1 as [|e s2]; [discriminate|]. simpl in Hn.
      assert (Hp : forall x,
                 match (match scanstring s2 with
                        | Ok (t, r) => Ok (x :: t, r)
                        | Err err => Err err
                        end) with
                 | Ok (_, r) => (length r < length (c :: e :: s2))%nat
                 | Err e0 => e0 <> RecursionError
                 end).
      { intros x. specialize (IH s2 ltac:(lia)).
        destruct (scanstring s2) as [[t r]|]; simpl in *; [lia|exact IH]. }
      repeat (match goal with
              | |- context [if ?b then _ else _] => destruct b; [apply Hp|]
              end).
      destruct (Ascii.eqb e "u"%char); [|discriminate].
      destruct s2 as [|h3 [|h2 [|h1 [|h0 s3]]]]; try discriminate.
      destruct (hex_val h3), (hex_val h2), (hex_val h1), (hex_val h0);
        try discriminate.
      destruct (_ <? 256); [|discriminate].
      simpl in Hn. specialize (IH s3 ltac:(lia)).
      destruct (scanstring s3) as [[t r]|]; simpl in *; [lia|exact IH].
    + destruct (ord c <? 32); [discriminate|].
      specialize (IH s1 ltac:(lia)).
      destruct (scanstring s1) as [[t r]|]; simpl in *; [lia|exact IH].
Qed.

Lemma parse_number_length (s : str) (r : result (json * str)) :
  parse_number s = Some r ->
  match r with
  | Ok (_, rest) => (length rest < length s)%nat
  | Err e => e <> RecursionError
  end.
Proof.
  unfold parse_number.
  set (neg := match s with c :: _ => Ascii.eqb c "-"%char | [] => false end).
  assert (Hs1 : (length (if neg then tl s else s) <= length s)%nat).
  { destruct neg; [destruct s; simpl; lia|lia]. }
  destruct (if neg then tl s else s) as [|c s2] eqn:E1; [discriminate|].
  simpl in Hs1.
  destruct (Ascii.eqb c "0"%char).
  - destruct (float_tail s2); intros H; inversion H; subst; [discriminate|lia].
  - unfold is_digit. destruct (digit_of c) as [d|] eqn:Ed; [|discriminate].
    cbn [take_digits]. rewrite Ed.
    pose proof (take_digits_length s2) as Ht2.
    destruct (take_digits s2) as [u' rest']. cbn [snd] in Ht2.
    destruct (float_tail rest'); intros H; inversion H; subst; [discriminate|].
    simpl in *. lia.
Qed.

Lemma starts_with_length (p s : str) :
  starts_with p s = true -> (length p <= length s)%nat.
Proof.
  unfold starts_with. intros H. apply str_eqb_eq in H.
  rewrite <- H at 1. rewrite length_firstn. lia.
Qed.

(** The parser: with more than twice as much fuel as characters it never
    runs out, and a value takes at least one character. *)
Lemma parse_total (fuel : nat) :
  (forall s, (2 * length s < fuel)%nat ->
     match parse_value fuel s with
     | Ok (_, rest) => (length rest < length s)%nat
     | Err e => e <> RecursionError
     end)
  /\ (forall s acc, (2 * length s + 1 < fuel)%nat ->
        match parse_members fuel s acc with
        | Ok (_, rest) => (length rest < length s)%nat
        | Err e => e <> RecursionError
        end)
  /\ (forall s acc, (2 * length s + 1 < fuel)%nat ->
        match parse_elements fuel s acc with
        | Ok (_, rest) => (length rest < length s)%nat
        | Err e => e <> RecursionError
        end).
Proof.
  induction fuel as [|fuel (IHv & IHm & IHe)].
  - repeat split; intros; lia.
  - split; [|split].
    + intros s Hs. cbn [parse_value].
      destruct s as [|c s1]; [discriminate|]. cbn [length] in Hs.
      destruct (Ascii.eqb c DQ).
      { pose proof (scanstring_length (length s1) s1 (le_n _)) as Hq.
        destruct (scanstring s1) as [[t r]|]; cbn [length] in *; [lia|exact Hq]. }
      destruct (Ascii.eqb c "{"%char).
      { pose proof (skip_ws_length s1) as Hw.
        destruct (skip_ws s1) as [|c1 s2] eqn:Ew; [discriminate|]. cbn [length] in Hw.
        destruct (Ascii.eqb c1 "}"%char); [cbn [length]; lia|].
        specialize (IHm (c1 :: s2) [] ltac:(cbn [length]; lia)).
        destruct (parse_members fuel (c1 :: s2) []) as [[j r]|];
          cbn [length] in *; [lia|exact IHm]. }
      destruct (Ascii.eqb c "["%char).
      { pose proof (skip_ws_length s1) as Hw.
        destruct (skip_ws s1) as [|c1 s2] eqn:Ew; [discriminate|]. cbn [length] in Hw.
        destruct (Ascii.eqb c1 "]"%char); [cbn [length]; lia|].
        specialize (IHe (c1 :: s2) [] ltac:(cbn [length]; lia)).
        destruct (parse_elements fuel (c1 :: s2) []) as [[j r]|];
          cbn [length] in *; [lia|exact IHe]. }
      destruct (starts_with (str_of "null") (c :: s1)) eqn:E1.
      { apply starts_with_length in E1. rewrite length_skipn.
        change (length (str_of "null")) with 4%nat in E1. cbn [length] in *. lia. }
      destruct (starts_with (str_of "true") (c :: s1)) eqn:E2.
      { apply starts_with_length in E2. rewrite length_skipn.
        change (length (str_of "true")) with 4%nat in E2. cbn [length] in *. lia. }
      destruct (starts_with (str_of "false") (c :: s1)) eqn:E3.
      { apply starts_with_length in E3. rewrite length_skipn.
        change (length (str_of "false")) with 5%nat in E3. cbn [length] in *. lia. }
      destruct (parse_number (c :: s1)) as [r|] eqn:En.
      { apply parse_number_length in En. exact En. }
      destruct (_ || _); discriminate.
    + intros s acc Hs. cbn [parse_members].
      destruct s as [|c s1]; [discriminate|]. cbn [length] in Hs.
      destruct (Ascii.eqb c DQ); [|discriminate].
      pose proof (scanstring_length (length s1) s1 (le_n _)) as Hq.
      destruct (scanstring s1) as [[k s2]|]; [|exact Hq].
      pose proof (skip_ws_length s2) as Hw2.
      destruct (skip_ws s2) as [|c2 s3] eqn:E2; [discriminate|]. cbn [length] in Hw2.
      destruct (Ascii.eqb c2 ":"%char); [|discriminate].
      pose proof (skip_ws_length s3) as Hw3.
      specialize (IHv (skip_ws s3) ltac:(lia)).
      destruct (parse_value fuel (skip_ws s3)) as [[v s4]|]; [|exact IHv].
      pose proof (skip_ws_length s4) as Hw4.
      destruct (skip_ws s4) as [|c4 s5] eqn:E4; [discriminate|]. cbn [length] in Hw4.
      destruct (Ascii.eqb c4 "}"%char); [cbn [length]; lia|].
      destruct (Ascii.eqb c4 ","%char); [|discriminate].
      pose proof (skip_ws_length s5) as Hw5.
      specialize (IHm (skip_ws s5) (dict_set acc k v) ltac:(lia)).
      destruct (parse_members fuel (skip_ws s5) (dict_set acc k v)) as [[j r]|];
        cbn [length] in *; [lia|exact IHm].
    + intros s acc Hs. cbn [parse_elements].
      specialize (IHv s ltac:(lia)).
      destruct (parse_value fuel s) as [[v s1]|]; [|exact IHv].
      pose proof (skip_ws_length s1) as Hw1.
      destruct (skip_ws s1) as [|c s2] eqn:E1; [discriminate|]. cbn [length] in Hw1.
      destruct (Ascii.eqb c "]"%char); [cbn [length]; lia|].
      destruct (Ascii.eqb c ","%char); [|discriminate].
      pose proof (skip_ws_length s2) as Hw2.
      specialize (IHe (skip_ws s2) (acc ++ [v]) ltac:(lia)).
      destruct (parse_elements fuel (skip_ws s2) (acc ++ [v])) as [[j r]|];
        cbn [length] in *; [lia|exact IHe].
Qed.

Lemma ran_out_err {A} (e : exn) :
  e <> RecursionError -> ~ ran_out (@Err A e).
Proof. destruct e; simpl; auto. Qed.

(** [json.loads] never runs out of fuel. *)
Lemma loads_total (s : str) : ~ ran_out (loads s).
Proof.
  unfold loads. pose proof (skip_ws_length s) as Hw.
  destruct (parse_total (S (2 * length s))) as (Hv & _ & _).
  specialize (Hv (skip_ws s) ltac:(lia)).
  destruct (parse_value (S (2 * length s)) (skip_ws s)) as [[j rest]|e].
  - destruct (skip_ws rest); simpl; auto.
  - apply ran_out_err. exact Hv.
Qed.

Lemma read_exact_total (r : reader) (n : Z) : ~ ran_out (fst (read_exact r n)).
Proof.
  destruct (read_exact_spec r n) as (r' & E & _). rewrite E. cbn [fst].
  destruct (n <=? 0); [simpl; auto|].
  destruct (n <=? len (content r)); simpl; auto.
Qed.

Lemma utf8_decode_total (b : bytes) : ~ ran_out (utf8_decode b).
Proof.
  remember (length b) as n eqn:En. revert b En.
  induction n as [n IH] using lt_wf_ind. intros b En.
  destruct b as [|x b]; [simpl; auto|]. cbn [utf8_decode].
  destruct (Z_of_byte x <? 128).
  - specialize (IH (length b) ltac:(subst; simpl; lia) b eq_refl).
    destruct (utf8_decode b); [simpl; auto|exact IH].
  - destruct (_ && _).
    + destruct b as [|y b]; [simpl; auto|].
      destruct (_ && _); [|simpl; auto].
      specialize (IH (length b) ltac:(subst; simpl; lia) b eq_refl).
      destruct (utf8_decode b); [simpl; auto|exact IH].
    + destruct (_ || _); simpl; auto.
Qed.

(** [read_message] never runs out of fuel. *)
Lemma read_message_total (r : reader) : ~ ran_out (fst (read_message r)).
Proof.
  unfold read_message.
  pose proof (read_exact_total r 4) as H1.
  destruct (read_exact r 4) as [[hdr|e] r1]; [|exact H1].
  destruct (unpack_u32be hdr) as [hlen|e] eqn:Eu.
  2:{ destruct hdr as [|? [|? [|? [|? [|]]]]]; inversion Eu; simpl; auto. }
  pose proof (read_exact_total r1 hlen) as H2.
  destruct (read_exact r1 hlen) as [[hjson|e] r2]; [|exact H2].
  pose proof (utf8_decode_total hjson) as H3.
  destruct (utf8_decode hjson) as [text|e]; [|exact H3].
  pose proof (loads_total text) as H4.
  destruct (loads text) as [header|e]; [|exact H4].
  destruct header; try (simpl; tauto). cbn [get].
  match goal with
  | |- context [gt0 ?v] =>
      destruct v as [ | [] | z | | | ]; cbn [gt0]; try (simpl; tauto)
  end.
  - pose proof (read_exact_total r2 (as_count (JBool true))) as H5.
    destruct (read_exact r2 _) as [[body|e] r3]; [simpl; auto|exact H5].
  - destruct (0 <? z); [|simpl; auto].
    pose proof (read_exact_total r2 (as_count (JInt z))) as H5.
    destruct (read_exact r2 _) as [[body|e] r3]; [simpl; auto|exact H5].
Qed.

Lemma send_message_total (w : sock) (h : json) (body : bytes) :
  ~ ran_out (fst (send_message w h body)).
Proof.
  unfold send_message. unfold pack_u32be.
  destruct (_ && _); [|simpl; auto]. cbn [fst]. unfold drain.
  destruct (closing _); simpl; auto.
Qed.

Lemma up_send_total (h : json) (body : bytes) (st : hstate) :
  ~ ran_out (fst (up_send h body st)).
Proof.
  unfold up_send. destruct (up st) as [w|].
  - pose proof (send_message_total w h body) as Hs.
    destruct (send_message w h body). exact Hs.
  - unfold pack_u32be. destruct (_ && _); simpl; auto.
Qed.

Lemma read_length (r : reader) (n : Z) :
  0 < n ->
  let (c, r') := read r n in
  length (content r) = (length c + length (content r'))%nat.
Proof.
  intros Hn. destruct (read_spec r n Hn) as (c & r' & E & H1 & _).
  rewrite E, <- H1, length_app. reflexivity.
Qed.

(** The loop of [read_client_send] never runs out of fuel. *)
Lemma client_to_uplink_total (fuel : nat) :
  forall st, (length (content (rd (cl st))) < fuel)%nat ->
    ~ ran_out (fst (client_to_uplink fuel st)).
Proof.
  induction fuel as [|fuel IH]; intros st Hf; [lia|].
  cbn [client_to_uplink]. unfold bind at 1. unfold cl_read.
  pose proof (read_length (rd (cl st)) 4096 ltac:(lia)) as Hl.
  destruct (read (rd (cl st)) 4096) as [chunk r'].
  destruct chunk as [|x chunk]; [apply up_send_total|].
  unfold bind.
  pose proof (up_send_total (data_header (x :: chunk)) (x :: chunk)
                (mkH (up st) (set_rd (cl st) r'))) as Hs.
  destruct (up_send _ _ _) as [[[]|e] st1] eqn:Es; [|exact Hs].
  apply IH.
  assert (Hcl : rd (cl st1) = r').
  { unfold up_send in Es. cbn [up cl] in Es. destruct (up st) as [w|].
    - destruct (send_message w _ _). inversion Es; subst. reflexivity.
    - destruct (pack_u32be _); inversion Es. }
  rewrite Hcl. cbn [length] in Hl. lia.
Qed.

Lemma read_message_length (r r' : reader) (h : json) (b : bytes) :
  read_message r = (Ok (h, b), r') ->
  (length (content r') + 4 <= length (content r))%nat.
Proof.
  intros H. apply read_message_inv in H.
  destruct H as (pre & hb & Hc & Hp & _). rewrite Hc, !length_app. lia.
Qed.

(** The loop of [read_offshore_write] never runs out of fuel. *)
Lemma uplink_to_client_total (fuel : nat) :
  forall st, (uplink_pending st < fuel)%nat ->
    ~ ran_out (fst (uplink_to_client fuel st)).
Proof.
  induction fuel as [|fuel IH]; intros st Hf; [lia|].
  cbn [uplink_to_client]. unfold bind at 1. unfold up_read_message.
  unfold uplink_pending in Hf.
  destruct (up st) as [w|]; [|simpl; auto].
  pose proof (read_message_total (rd w)) as Ht.
  destruct (read_message (rd w)) as [[[h b]|e] r'] eqn:Er; [|exact Ht].
  apply read_message_length in Er.
  unfold bind at 1. unfold lift at 1.
  destruct (get h k_type) as [t|e] eqn:Eg; [|destruct h; inversion Eg; simpl; auto].
  assert (Hnext : forall c, ~ ran_out (fst (uplink_to_client fuel
                                             (mkH (Some (set_rd w r')) c)))).
  { intros c. apply IH. unfold uplink_pending. cbn [up set_rd rd]. lia. }
  destruct (is_str t "DATA").
  - destruct b as [|x b].
    + unfold bind, ret. apply Hnext.
    + unfold bind, cl_write, cl_drain, modify. cbn [up cl].
      unfold drain. destruct (closing _); [simpl; auto|apply Hnext].
  - destruct (is_str t "DATA_END"); [simpl; auto|apply Hnext].
Qed.

Lemma readline_from_length (r : reader) :
  forall acc,
    let (line, r') := readline_from r acc in
    (length line + length (content r') = length acc + length (content r))%nat.
Proof.
  induction r as [|c r IH]; intros acc; cbn [readline_from].
  - simpl. lia.
  - unfold content. rewrite concat_cons, length_app. fold (content r).
    assert (Hscan : forall c' pre,
      let (line, r') :=
        (fix scan (pre c : bytes) : bytes * reader :=
           match c with
           | [] => readline_from r (acc ++ pre)
           | x :: c' =>
               if Byte.eqb x bLF then
                 (acc ++ pre ++ [x],
                  match c' with [] => r | _ :: _ => c' :: r end)
               else scan (pre ++ [x]) c'
           end) pre c' in
      (length line + length (content r')
       = length acc + length pre + length c' + length (content r))%nat).
    { induction c' as [|x c' IHc]; intros pre.
      - specialize (IH (acc ++ pre)). destruct (readline_from r (acc ++ pre)).
        rewrite length_app in IH. simpl. lia.
      - destruct (Byte.eqb x bLF).
        + rewrite !length_app. destruct c'; unfold content; simpl.
          * fold (content r). lia.
          * rewrite length_app. fold (content r). lia.
        + specialize (IHc (pre ++ [x])).
          match goal with
          | |- let (_, _) := ?t in _ => destruct t
          end.
          rewrite length_app in IHc. cbn [length] in *. lia. }
    specialize (Hscan c []).
    match goal with
    | |- let (_, _) := ?t in _ => destruct t
    end.
    cbn [length] in Hscan. unfold content in *. lia.
Qed.

Lemma bytes_eqb_nil (b : bytes) : bytes_eqb b [] = false -> b <> [].
Proof. destruct b; [discriminate|discriminate]. Qed.

(** The loop that reads the header lines never runs out of fuel. *)
Lemma read_headers_total (fuel : nat) :
  forall headers st, (length (content (rd st)) < fuel)%nat ->
    ~ ran_out (fst (read_headers fuel headers st)).
Proof.
  induction fuel as [|fuel IH]; intros headers st Hf; [lia|].
  cbn [read_headers]. unfold bind at 1. unfold readline.
  pose proof (readline_from_length (rd st) []) as Hl.
  destruct (readline_from (rd st) []) as [line r'].
  destruct (bytes_eqb line []) eqn:E0; [simpl; auto|].
  apply bytes_eqb_nil in E0.
  destruct (bytes_eqb line bCRLF); [simpl; auto|]. cbn [orb].
  unfold bind, lift.
  pose proof (utf8_decode_total line) as Hd.
  destruct (utf8_decode line) as [text|e]; [|exact Hd].
  assert (Hnext : forall hs, ~ ran_out (fst (read_headers fuel hs (set_rd st r')))).
  { intros hs. apply IH. cbn [set_rd rd].
    destruct line; [congruence|]. simpl in Hl. lia. }
  destruct (split1 ":"%char (rstrip_crlf text)) as [[k v]|]; apply Hnext.
Qed.

(** The loops of the Offshore bridge never run out of fuel. *)
Lemma uplink_to_target_total (fuel : nat) :
  forall st, (length (content (rd (Offshore.link st))) < fuel)%nat ->
    ~ ran_out (fst (Offshore.uplink_to_target fuel st)).
Proof.
  induction fuel as [|fuel IH]; intros st Hf; [lia|].
  cbn [Offshore.uplink_to_target]. unfold bind at 1.
  unfold Offshore.link_read_message.
  pose proof (read_message_total (rd (Offshore.link st))) as Ht.
  destruct (read_message (rd (Offshore.link st))) as [[[h b]|e] r'] eqn:Er;
    [|exact Ht].
  apply read_message_length in Er.
  unfold bind at 1. unfold lift at 1.
  destruct (get h k_type) as [t|e] eqn:Eg; [|destruct h; inversion Eg; simpl; auto].
  assert (Hnext : forall tg,
             ~ ran_out (fst (Offshore.uplink_to_target fuel
                               (Offshore.mkBridge (set_rd (Offshore.link st) r') tg)))).
  { intros tg. apply IH. cbn [Offshore.link set_rd rd]. lia. }
  destruct (is_str t "DATA").
  - destruct b as [|x b].
    + unfold bind, ret. apply Hnext.
    + unfold bind, Offshore.target_write, Offshore.target_drain, modify.
      cbn [Offshore.link Offshore.target].
      unfold drain. destruct (closing _); [simpl; auto|apply Hnext].
  - destruct (is_str t "DATA_END"); [simpl; auto|apply Hnext].
Qed.

Lemma target_to_uplink_total (fuel : nat) :
  forall st, (length (content (rd (Offshore.target st))) < fuel)%nat ->
    ~ ran_out (fst (Offshore.target_to_uplink fuel st)).
Proof.
  induction fuel as [|fuel IH]; intros st Hf; [lia|].
  cbn [Offshore.target_to_uplink]. unfold bind at 1. unfold Offshore.target_read.
  pose proof (read_length (rd (Offshore.target st)) 1024 ltac:(lia)) as Hl.
  destruct (read (rd (Offshore.target st)) 1024) as [chunk r'].
  assert (Hsend : forall h body s,
             ~ ran_out (fst (Offshore.link_send h body s))).
  { intros h body s. unfold Offshore.link_send.
    pose proof (send_message_total (Offshore.link s) h body) as Hs.
    destruct (send_message _ _ _). exact Hs. }
  destruct chunk as [|x chunk]; [apply Hsend|].
  unfold bind.
  pose proof (Hsend (data_header (x :: chunk)) (x :: chunk)
                (Offshore.mkBridge (Offshore.link st)
                   (set_rd (Offshore.target st) r'))) as Hs.
  destruct (Offshore.link_send _ _ _) as [[[]|e] st1] eqn:Es; [|exact Hs].
  apply IH.
  assert (Hcl : rd (Offshore.target st1) = r').
  { unfold Offshore.link_send in Es. cbn [Offshore.link Offshore.target] in Es.
    destruct (send_message _ _ _). inversion Es; subst. reflexivity. }
  rewrite Hcl. cbn [length] in Hl. lia.
Qed.

(** ** Tunnel mode: the two sub-tasks do not interfere *)

Lemma send_message_shape (w : sock) (h : json) (body : bytes) :
  exists o,
    snd (send_message w h body) = mkSock (rd w) o (closing w) (eof_sent w).
Proof.
  unfold send_message. destruct (pack_u32be _) as [pre|].
  - unfold write. destruct w as [r o c e]. cbn [closing rd out eof_sent snd].
    destruct c; cbn [closing rd out eof_sent].
    + destruct body; eexists; reflexivity.
    + destruct body; cbn [closing rd out eof_sent]; eexists; reflexivity.
  - destruct w. eexists. reflexivity.
Qed.

Lemma send_message_set_rd (w : sock) (h : json) (body : bytes) (r : reader) :
  send_message (set_rd w r) h body =
  (fst (send_message w h body), set_rd (snd (send_message w h body)) r).
Proof.
  unfold send_message. destruct (pack_u32be _) as [pre|]; [|reflexivity].
  unfold write, set_rd, drain. destruct w as [r0 o c e].
  cbn [closing rd out eof_sent]. destruct c; destruct body; reflexivity.
Qed.

Lemma with_client_side_id (st : hstate) :
  exists o, st = with_client_side st (rd (cl st)) o.
Proof.
  destruct st as [[[r o c e]|] [r' o' c' e']].
  - exists o. reflexivity.
  - exists []. reflexivity.
Qed.

Lemma with_client_side_twice (st : hstate) (r1 r2 : reader) (o1 o2 : bytes) :
  with_client_side (with_client_side st r1 o1) r2 o2 = with_client_side st r2 o2.
Proof. destruct st as [[u|] c]; reflexivity. Qed.

Lemma with_uplink_side_id (st : hstate) :
  exists r, st = with_uplink_side st r (out (cl st)).
Proof.
  destruct st as [[[r o c e]|] [r' o' c' e']].
  - exists r. reflexivity.
  - exists []. reflexivity.
Qed.

Lemma with_uplink_side_twice (st : hstate) (r1 r2 : reader) (o1 o2 : bytes) :
  with_uplink_side (with_uplink_side st r1 o1) r2 o2 = with_uplink_side st r2 o2.
Proof. destruct st as [[u|] c]; reflexivity. Qed.

Lemma with_sides_commute (st : hstate) (ra rb : reader) (oa ob : bytes) :
  with_uplink_side (with_client_side st ra oa) rb ob
  = with_client_side (with_uplink_side st rb ob) ra oa.
Proof. destruct st as [[u|] c]; reflexivity. Qed.

(** [up_send] touches the uplink's written bytes only. *)
Lemma up_send_owns (h : json) (body : bytes) (st : hstate) :
  exists o, snd (up_send h body st) = with_client_side st (rd (cl st)) o.
Proof.
  unfold up_send. destruct st as [[u|] c]; cbn [up cl].
  - destruct (send_message_shape u h body) as (o & E).
    destruct (send_message u h body) as [r w']. cbn [snd] in *. subst w'.
    exists o. destruct c. reflexivity.
  - exists []. destruct (pack_u32be _); destruct c; reflexivity.
Qed.

Lemma up_send_frame (h : json) (body : bytes) (st : hstate)
  (r : reader) (o : bytes) :
  up_send h body (with_uplink_side st r o) =
  (fst (up_send h body st), with_uplink_side (snd (up_send h body st)) r o).
Proof.
  unfold up_send, with_uplink_side. destruct st as [[u|] c]; cbn [up cl option_map].
  - rewrite send_message_set_rd. destruct (send_message u h body). reflexivity.
  - destruct (pack_u32be _); reflexivity.
Qed.

Lemma client_to_uplink_S (fuel : nat) (st : hstate) :
  client_to_uplink (S fuel) st =
  let (chunk, r') := read (rd (cl st)) 4096 in
  let st1 := mkH (up st) (set_rd (cl st) r') in
  match chunk with
  | [] => up_send data_end_header [] st1
  | _ :: _ =>
      match up_send (data_header chunk) chunk st1 with
      | (Ok _, st2) => client_to_uplink fuel st2
      | (Err e, st2) => (Err e, st2)
      end
  end.
Proof.
  cbn [client_to_uplink]. unfold bind, cl_read.
  destruct (read (rd (cl st)) 4096) as [chunk r'].
  destruct chunk; reflexivity.
Qed.

(** [read_client_send] changes what it owns and nothing else. *)
Lemma client_to_uplink_owns (fuel : nat) :
  forall st, exists r o,
    snd (client_to_uplink fuel st) = with_client_side st r o.
Proof.
  induction fuel as [|fuel IH]; intros st.
  - destruct (with_client_side_id st) as (o & E). exists (rd (cl st)), o. exact E.
  - rewrite client_to_uplink_S.
    destruct (read (rd (cl st)) 4096) as [chunk r']. cbv zeta.
    destruct (with_client_side_id st) as (o0 & E0).
    assert (E1 : mkH (up st) (set_rd (cl st) r') = with_client_side st r' o0).
    { rewrite E0 at 1. destruct st as [[u|] c]; reflexivity. }
    rewrite E1.
    destruct chunk as [|x chunk].
    + destruct (up_send_owns data_end_header [] (with_client_side st r' o0))
        as (o & E).
      rewrite E, with_client_side_twice. eauto.
    + destruct (up_send_owns (data_header (x :: chunk)) (x :: chunk)
                  (with_client_side st r' o0)) as (o & E).
      destruct (up_send _ _ _) as [[[]|e] st1]; cbn [snd] in E; subst st1.
      * destruct (IH (with_client_side (with_client_side st r' o0)
                        (rd (cl (with_client_side st r' o0))) o)) as (r2 & o2 & E2).
        rewrite E2, !with_client_side_twice. eauto.
      * cbn [snd]. rewrite with_client_side_twice. eauto.
Qed.

Lemma client_to_uplink_frame (fuel : nat) :
  forall st r o,
    client_to_uplink fuel (with_uplink_side st r o) =
    (fst (client_to_uplink fuel st),
     with_uplink_side (snd (client_to_uplink fuel st)) r o).
Proof.
  induction fuel as [|fuel IH]; intros st r o; [reflexivity|].
  rewrite !client_to_uplink_S.
  cbn [with_uplink_side cl rd up].
  destruct (read (rd (cl st)) 4096) as [chunk r']. cbv zeta.
  change (mkH (option_map (fun u => set_rd u r) (up st))
            (set_rd (mkSock (rd (cl st)) o (closing (cl st)) (eof_sent (cl st))) r'))
    with (with_uplink_side (mkH (up st) (set_rd (cl st) r')) r o).
  destruct chunk as [|x chunk]; [apply up_send_frame|].
  rewrite up_send_frame.
  destruct (up_send _ _ (mkH (up st) (set_rd (cl st) r'))) as [[[]|e] st1];
    cbn [fst snd]; [apply IH|reflexivity].
Qed.

Lemma read_client_send_owns (st : hstate) :
  exists r o, read_client_send st = (Ok tt, with_client_side st r o).
Proof.
  unfold read_client_send, try_except.
  destruct (client_to_uplink_owns (S (length (content (rd (cl st))))) st)
    as (r & o & E).
  destruct (client_to_uplink _ st) as [[[]|e] st1]; cbn [snd] in E; subst st1.
  - eauto.
  - destruct (up_send_owns data_end_header [] (with_client_side st r o)) as (o' & E').
    destruct (up_send _ _ _) as [[[]|e'] st2]; cbn [snd] in E'; subst st2;
      unfold ret; rewrite with_client_side_twice; eauto.
Qed.

Lemma read_client_send_frame (st : hstate) (r : reader) (o : bytes) :
  read_client_send (with_uplink_side st r o) =
  (fst (read_client_send st), with_uplink_side (snd (read_client_send st)) r o).
Proof.
  unfold read_client_send, try_except.
  change (rd (cl (with_uplink_side st r o))) with (rd (cl st)).
  rewrite client_to_uplink_frame.
  destruct (client_to_uplink _ st) as [[[]|e] st1]; cbn [fst snd]; [reflexivity|].
  rewrite up_send_frame.
  destruct (up_send _ _ st1) as [[[]|e'] st2]; reflexivity.
Qed.

Lemma uplink_to_client_S (fuel : nat) (st : hstate) :
  uplink_to_client (S fuel) st =
  match up_read_message st with
  | (Err e, st1) => (Err e, st1)
  | (Ok (h, b), st1) =>
      match get h k_type with
      | Err e => (Err e, st1)
      | Ok t =>
          if is_str t "DATA" then
            match b with
            | [] => uplink_to_client fuel st1
            | _ :: _ =>
                let st2 := mkH (up st1) (write (cl st1) b) in
                match drain (cl st2) with
                | Ok _ => uplink_to_client fuel st2
                | Err e => (Err e, st2)
                end
            end
          else if is_str t "DATA_END" then (Ok tt, st1)
          else uplink_to_client fuel st1
      end
  end.
Proof.
  cbn [uplink_to_client]. unfold bind at 1.
  destruct (up_read_message st) as [[[h b]|e] st1]; [|reflexivity].
  unfold bind at 1. unfold lift at 1.
  destruct (get h k_type) as [t|e]; [|reflexivity].
  destruct (is_str t "DATA"); [|destruct (is_str t "DATA_END"); reflexivity].
  destruct b as [|x b]; [reflexivity|].
  unfold bind, cl_write, cl_drain, modify. cbn [up cl].
  destruct (drain _); reflexivity.
Qed.

Lemma up_read_message_owns (st : hstate) :
  exists r, snd (up_read_message st) = with_uplink_side st r (out (cl st)).
Proof.
  unfold up_read_message. destruct st as [[u|] c]; cbn [up cl].
  - destruct (read_message (rd u)) as [res r']. exists r'. destruct c; reflexivity.
  - exists []. destruct c; reflexivity.
Qed.

Lemma up_read_message_frame (st : hstate) (r : reader) (o : bytes) :
  up_read_message (with_client_side st r o) =
  (fst (up_read_message st), with_client_side (snd (up_read_message st)) r o).
Proof.
  unfold up_read_message, with_client_side.
  destruct st as [[u|] c]; cbn [up cl option_map rd]; [|reflexivity].
  destruct (read_message (rd u)). reflexivity.
Qed.

(** [read_offshore_write] changes what it owns and nothing else. *)
Lemma uplink_to_client_owns (fuel : nat) :
  forall st, exists r o,
    snd (uplink_to_client fuel st) = with_uplink_side st r o.
Proof.
  induction fuel as [|fuel IH]; intros st.
  - destruct (with_uplink_side_id st) as (r & E). exists r, (out (cl st)). exact E.
  - rewrite uplink_to_client_S.
    destruct (up_read_message_owns st) as (r1 & E1).
    destruct (up_read_message st) as [[[h b]|e] st1]; cbn [snd] in E1; subst st1;
      [|cbn [snd]; eauto].
    destruct (get h k_type) as [t|e]; [|cbn [snd]; eauto].
    assert (Hnext : forall o1, exists r o,
               snd (uplink_to_client fuel (with_uplink_side st r1 o1))
               = with_uplink_side st r o).
    { intros o1. destruct (IH (with_uplink_side st r1 o1)) as (r & o & E).
      rewrite E, with_uplink_side_twice. eauto. }
    destruct (is_str t "DATA").
    + destruct b as [|x b]; [apply Hnext|]. cbv zeta.
      set (w := write (cl (with_uplink_side st r1 (out (cl st)))) (x :: b)).
      assert (Ew : mkH (up (with_uplink_side st r1 (out (cl st)))) w
                   = with_uplink_side st r1 (out w)).
      { subst w. destruct st as [u0 [r0 o0 [] e0]]; reflexivity. }
      rewrite Ew. cbn [cl with_uplink_side].
      destruct (drain _); [apply Hnext|]. cbn [snd].
      exists r1, (out w). reflexivity.
    + destruct (is_str t "DATA_END"); [cbn [snd]; eauto|apply Hnext].
Qed.

Lemma uplink_to_client_frame (fuel : nat) :
  forall st r o,
    uplink_to_client fuel (with_client_side st r o) =
    (fst (uplink_to_client fuel st),
     with_client_side (snd (uplink_to_client fuel st)) r o).
Proof.
  induction fuel as [|fuel IH]; intros st r o; [reflexivity|].
  rewrite !uplink_to_client_S, up_read_message_frame.
  destruct (up_read_message st) as [[[h b]|e] st1]; cbn [fst snd]; [|reflexivity].
  destruct (get h k_type) as [t|e]; [|reflexivity].
  destruct (is_str t "DATA").
  - destruct b as [|x b]; [apply IH|]. cbv zeta.
    assert (Ew : mkH (up (with_client_side st1 r o))
                   (write (cl (with_client_side st1 r o)) (x :: b))
                 = with_client_side (mkH (up st1) (write (cl st1) (x :: b))) r o).
    { destruct st1 as [u1 [r1 o1 [] e1]]; reflexivity. }
    rewrite Ew.
    assert (Ed : drain (cl (with_client_side
                              (mkH (up st1) (write (cl st1) (x :: b))) r o))
                 = drain (cl (mkH (up st1) (write (cl st1) (x :: b))))).
    { reflexivity. }
    rewrite Ed. destruct (drain _); [apply IH|reflexivity].
  - destruct (is_str t "DATA_END"); [reflexivity|apply IH].
Qed.

Lemma read_offshore_write_owns (st : hstate) :
  exists r o, read_offshore_write st = (Ok tt, with_uplink_side st r o).
Proof.
  unfold read_offshore_write, try_except.
  destruct (uplink_to_client_owns (S (uplink_pending st)) st) as (r & o & E).
  destruct (uplink_to_client _ st) as [[[]|e] st1]; cbn [snd] in E; subst st1;
    unfold ret; eauto.
Qed.

Lemma read_offshore_write_frame (st : hstate) (r : reader) (o : bytes) :
  read_offshore_write (with_client_side st r o) =
  (fst (read_offshore_write st), with_client_side (snd (read_offshore_write st)) r o).
Proof.
  unfold read_offshore_write, try_except.
  assert (Ep : uplink_pending (with_client_side st r o) = uplink_pending st).
  { unfold uplink_pending, with_client_side. destruct (up st); reflexivity. }
  rewrite Ep, uplink_to_client_frame.
  destruct (uplink_to_client _ st) as [[[]|e] st1]; reflexivity.
Qed.

(** The two coroutines given to [asyncio.gather] in tunnel mode act on
    disjoint parts of the state: running one and then the other gives the
    same result in either order. *)
Lemma tunnel_tasks_commute (st : hstate) :
  (read_client_send ;;; read_offshore_write) st
  = (read_offshore_write ;;; read_client_send) st.
Proof.
  unfold bind.
  destruct (read_client_send_owns st) as (ra & oa & Ea).
  destruct (read_offshore_write_owns st) as (rb & ob & Eb).
  rewrite Ea, Eb.
  rewrite read_offshore_write_frame, read_client_send_frame, Ea, Eb.
  cbn [fst snd]. rewrite with_sides_commute. reflexivity.
Qed.




(** ** The CONNECT handler *)



(** ** The scenarios of the specification, run on the model *)

(** S1, plain GET: the client receives the response of the HTTP client,
    with the static reason phrase. *)
Example scenario_plain_get :
  let request := bytes_of "GET http://example.com/ HTTP/1.1" ++ bCRLF
                 ++ bytes_of "Host: example.com" ++ bCRLF ++ bCRLF in
  ship_serves request (offshore_reply hello_client (ship_request request))
  = [ bytes_of "HTTP/1.1 200 OK" ++ bCRLF
      ++ bytes_of "Content-Type: text/plain" ++ bCRLF ++ bCRLF
      ++ bytes_of "hello" ].
Proof. vm_compute. reflexivity. Qed.

(** S2, POST with a body: the body travels as the payload of the request
    frame, and an empty response has no payload. *)
Example scenario_post_with_body :
  let request := bytes_of "POST http://x/y HTTP/1.1" ++ bCRLF
                 ++ bytes_of "Content-Length: 5" ++ bCRLF ++ bCRLF
                 ++ bytes_of "HELLO" in
  (exists r h, read_message [ship_request request] = (Ok (h, bytes_of "HELLO"), r))
  /\ ship_serves request (offshore_reply created_client (ship_request request))
     = [ bytes_of "HTTP/1.1 201 OK" ++ bCRLF ++ bCRLF ].
Proof. vm_compute. split; [eexists; eexists|]; reflexivity. Qed.

(** S3, CONNECT tunnel: the client sends [AB], the target answers [BA]. *)
Example scenario_connect_tunnel :
  let request := bytes_of "CONNECT host:443 HTTP/1.1" ++ bCRLF ++ bCRLF in
  let reply := frames_wire [connect_ok_frame; data_frame (bytes_of "BA");
                            data_end_frame] in
  let s0 := mkShip None [Ok (fresh [reply])] 0 [] [] 0 [] in
  let s := worker (accept (fresh [request; bytes_of "AB"]) s0) in
  map out (handled s)
  = [ bytes_of "HTTP/1.1 200 Connection Established" ++ bCRLF ++ bCRLF
      ++ bytes_of "BA" ]
  /\ option_map out (uplink s)
     = Some (frames_wire [ (connect_header (str_of "host") 443, []);
                           data_frame (bytes_of "AB"); data_end_frame ]).
Proof. vm_compute. split; reflexivity. Qed.

(** S4, CONNECT dial failure: the Offshore answers with an ERROR frame and
    the client receives the 502. *)
Example scenario_connect_refused :
  let request := bytes_of "CONNECT host:443 HTTP/1.1" ++ bCRLF ++ bCRLF in
  ship_serves request (frames_wire [error_frame]) = [ bad_gateway ].
Proof. vm_compute. reflexivity. Qed.

(** S5, two clients: the uplink carries the first request, then the
    second, and each client gets its own response. *)
Example scenario_two_clients :
  let get := bytes_of "GET http://example.com/ HTTP/1.1" ++ bCRLF ++ bCRLF in
  let post := bytes_of "POST http://x/y HTTP/1.1" ++ bCRLF
              ++ bytes_of "Content-Length: 5" ++ bCRLF ++ bCRLF
              ++ bytes_of "HELLO" in
  let reply := offshore_reply hello_client (ship_request get)
               ++ offshore_reply created_client (ship_request post) in
  let s0 := mkShip None [Ok (fresh [reply])] 0 [] [] 0 [] in
  let s := worker (accept (fresh [post]) (accept (fresh [get]) s0)) in
  map out (handled s)
  = [ bytes_of "HTTP/1.1 200 OK" ++ bCRLF
      ++ bytes_of "Content-Type: text/plain" ++ bCRLF ++ bCRLF
      ++ bytes_of "hello";
      bytes_of "HTTP/1.1 201 OK" ++ bCRLF ++ bCRLF ]
  /\ option_map out (uplink s) = Some (ship_request get ++ ship_request post)
  /\ log s = [Picked 0; Done 0 (Ok tt); Picked 1; Done 1 (Ok tt)]
  /\ dials s = 1%nat.
Proof. vm_compute. repeat split; reflexivity. Qed.

(** ** The codec and the segmentation of the stream *)

Lemma read_exact_same_content (r1 r2 : reader) (n : Z) :
  content r1 = content r2 ->
  fst (read_exact r1 n) = fst (read_exact r2 n)
  /\ content (snd (read_exact r1 n)) = content (snd (read_exact r2 n)).
Proof.
  intros H.
  destruct (read_exact_spec r1 n) as (r1' & E1 & C1).
  destruct (read_exact_spec r2 n) as (r2' & E2 & C2).
  rewrite E1, E2. cbn [fst snd]. rewrite C1, C2, H. split; reflexivity.
Qed.

(** X1. What [read_message] returns, and what it leaves unread, depend
    only on the bytes of the stream, not on how the transport cut them
    into chunks: two readers with the same content give the same frame or
    the same exception, and the same remaining content. *)
Theorem read_message_same_content (r1 r2 : reader) :
  content r1 = content r2 ->
  fst (read_message r1) = fst (read_message r2)
  /\ content (snd (read_message r1)) = content (snd (read_message r2)).
Proof.
  intros H. unfold read_message.
  destruct (read_exact_same_content r1 r2 4 H) as [F1 C1].
  destruct (read_exact r1 4) as [[hdr|e] a1], (read_exact r2 4) as [[hdr'|e'] a2];
    cbn [fst snd] in F1, C1; try discriminate F1;
    [|inversion F1; subst; split; [reflexivity|exact C1]].
  inversion F1; subst hdr'; clear F1.
  destruct (unpack_u32be hdr) as [hlen|e]; [|split; [reflexivity|exact C1]].
  destruct (read_exact_same_content a1 a2 hlen C1) as [F2 C2].
  destruct (read_exact a1 hlen) as [[hj|e] b1], (read_exact a2 hlen) as [[hj'|e'] b2];
    cbn [fst snd] in F2, C2; try discriminate F2;
    [|inversion F2; subst; split; [reflexivity|exact C2]].
  inversion F2; subst hj'; clear F2.
  destruct (utf8_decode hj) as [text|e]; [|split; [reflexivity|exact C2]].
  destruct (loads text) as [header|e]; [|split; [reflexivity|exact C2]].
  destruct (get header k_body_len) as [field|e]; [|split; [reflexivity|exact C2]].
  set (v := match field with Some v => v | None => JInt 0 end).
  destruct (gt0 v) as [[|]|e]; try (split; [reflexivity|exact C2]).
  destruct (read_exact_same_content b1 b2 (as_count v) C2) as [F3 C3].
  destruct (read_exact b1 (as_count v)) as [[body|e] c1],
           (read_exact b2 (as_count v)) as [[body'|e'] c2];
    cbn [fst snd] in F3, C3; try discriminate F3;
    inversion F3; subst; split; [reflexivity|exact C3|reflexivity|exact C3].
Qed.

Lemma read_message_same_content_witness :
  let r1 := [[x00; x00]; [x00; x02; x7b]; [x7d; x41]] in
  let r2 := [[x00; x00; x00; x02; x7b; x7d; x41]] in
  fst (read_message r1) = fst (read_message r2)
  /\ content (snd (read_message r1)) = content (snd (read_message r2)).
Proof. apply (read_message_same_content _ _). reflexivity. Defined.

(** The header bytes of a frame are consumed before the header is
    examined: when they do not hold a header, the exception leaves the
    stream right after them. *)
Lemma read_message_header_err (r : reader) (pre hb rest : bytes) (e : exn) :
  content r = pre ++ hb ++ rest ->
  length pre = 4%nat ->
  unpack_u32be pre = Ok (len hb) ->
  match header_of hb with
  | Err e' => e' = e
  | Ok h => declared_body_len h = Err e
  end ->
  exists r', read_message r = (Err e, r') /\ content r' = rest.
Proof.
  intros Hc Hp Hu Hh. unfold read_message.
  destruct (read_exact_ok r 4 pre (hb ++ rest) Hc) as (r1 & E1 & C1).
  { unfold len. rewrite Hp. reflexivity. }
  rewrite E1, Hu.
  destruct (read_exact_ok r1 (len hb) hb rest C1 eq_refl) as (r2 & E2 & C2).
  rewrite E2. unfold header_of in Hh.
  destruct (utf8_decode hb) as [text|e1].
  - destruct (loads text) as [h|e2].
    + unfold declared_body_len in Hh.
      destruct (get h k_body_len) as [field|e3].
      * destruct (gt0 match field with Some v => v | None => JInt 0 end)
          as [[|]|e4]; try discriminate Hh.
        injection Hh as <-. exists r2. split; [reflexivity|exact C2].
      * injection Hh as <-. exists r2. split; [reflexivity|exact C2].
    + rewrite Hh. exists r2. split; [reflexivity|exact C2].
  - rewrite Hh. exists r2. split; [reflexivity|exact C2].
Qed.

(** X2. A frame whose header is not usable is refused with the exception
    of the step that met the problem, after the prefix and the header bytes
    have been consumed and before any payload is read: header bytes that
    are not UTF-8 or not JSON raise the decoder's exception, a JSON value
    that is not an object raises [AttributeError], and a [body_len] that is
    null, a string, an array or an object raises [TypeError].  What
    follows the header bytes stays in the stream.  (A header the model
    does not represent, which it reports as [OutsideModel], is set
    aside.) *)
Theorem read_message_unusable_header (r : reader) (pre hb rest : bytes)
  (e : exn) :
  content r = pre ++ hb ++ rest ->
  length pre = 4%nat ->
  unpack_u32be pre = Ok (len hb) ->
  header_problem hb = Some e ->
  e <> OutsideModel ->
  exists r', read_message r = (Err e, r') /\ content r' = rest.
Proof.
  intros Hc Hp Hu Hh _.
  apply (read_message_header_err r pre hb rest e Hc Hp Hu).
  unfold header_problem in Hh.
  destruct (header_of hb) as [h|e'].
  - destruct h; try (injection Hh as <-; reflexivity).
    unfold declared_body_len. cbn [get].
    destruct (dict_get k_body_len d) as [[]|]; try discriminate Hh;
      injection Hh as <-; reflexivity.
  - injection Hh as <-. reflexivity.
Qed.

Lemma read_message_unusable_header_witness :
  let hb := utf8_encode (dumps (JObj [(k_body_len, JStr (str_of "5"))])) in
  exists r',
    read_message [[x00; x00]; [x00; x11] ++ hb ++ bytes_of "12345"]
    = (Err TypeError, r')
    /\ content r' = bytes_of "12345".
Proof.
  apply (read_message_unusable_header _ [x00; x00; x00; x11]
           (utf8_encode (dumps (JObj [(k_body_len, JStr (str_of "5"))])))
           (bytes_of "12345") TypeError);
    try reflexivity; discriminate.
Defined.

(** ** The Ship's HTTP handler *)

Lemma str_eqb_neq (a b : str) : str_eqb a b = false <-> a <> b.
Proof.
  split.
  - intros H E. apply str_eqb_eq in E. rewrite E in H. discriminate.
  - intros H. destruct (str_eqb a b) eqn:E; [|reflexivity].
    apply str_eqb_eq in E. contradiction.
Qed.

Lemma headers_set_dict (d : list (str * str)) (k v : str) :
  dict_set (map (fun kv => (fst kv, JStr (snd kv))) d) k (JStr v)
  = map (fun kv => (fst kv, JStr (snd kv))) (headers_set d k v).
Proof.
  induction d as [|[k' v'] d IH]; [reflexivity|].
  cbn [map fst snd dict_set headers_set].
  destruct (str_eqb k k'); [reflexivity|].
  cbn [map fst snd]. rewrite IH. reflexivity.
Qed.

Lemma dict_of_response_headers (pairs : list (str * str)) :
  JObj (Offshore.dict_of pairs) = str_dict (response_headers pairs).
Proof.
  unfold Offshore.dict_of, response_headers, str_dict. f_equal.
  change (@nil (str * json))
    with (map (fun kv : str * str => (fst kv, JStr (snd kv))) []).
  generalize (@nil (str * str)) as acc.
  induction (map fst pairs) as [|k ks IH]; intros acc; [reflexivity|].
  cbn [fold_left]. destruct (Offshore.getone pairs k) as [v|]; [|apply IH].
  rewrite headers_set_dict. apply IH.
Qed.

Lemma headers_set_keys (d : list (str * str)) (k v : str) :
  map fst (headers_set d k v)
  = if existsb (str_eqb k) (map fst d) then map fst d else map fst d ++ [k].
Proof.
  induction d as [|[k' v'] d IH]; [reflexivity|].
  cbn [map fst headers_set existsb].
  destruct (str_eqb k k'); [reflexivity|].
  cbn [map fst orb]. rewrite IH.
  destruct (existsb (str_eqb k) (map fst d)); reflexivity.
Qed.

Lemma existsb_app_one (k k' : str) (ks : list str) :
  existsb (str_eqb k) (ks ++ [k']) = existsb (str_eqb k) ks || str_eqb k k'.
Proof. rewrite existsb_app. cbn. rewrite orb_false_r. reflexivity. Qed.

Lemma str_eqb_sym (a b : str) : str_eqb a b = str_eqb b a.
Proof.
  destruct (str_eqb a b) eqn:E.
  - apply str_eqb_eq in E. subst. symmetry. apply str_eqb_refl.
  - symmetry. apply str_eqb_neq. apply str_eqb_neq in E. congruence.
Qed.

Lemma keys_unique_snoc (ks : list str) (k : str) :
  keys_unique ks = true -> existsb (str_eqb k) ks = false ->
  keys_unique (ks ++ [k]) = true.
Proof.
  induction ks as [|k' ks IH]; [reflexivity|].
  cbn [keys_unique existsb app]. intros Hu He.
  apply andb_true_iff in Hu. destruct Hu as [Hn Hu].
  apply orb_false_iff in He. destruct He as [Hk He].
  rewrite existsb_app_one, (str_eqb_sym k' k), Hk, orb_false_r, Hn.
  cbn. apply IH; assumption.
Qed.

Lemma headers_set_unique (d : list (str * str)) (k v : str) :
  keys_unique (map fst d) = true ->
  keys_unique (map fst (headers_set d k v)) = true.
Proof.
  intros H. rewrite headers_set_keys.
  destruct (existsb (str_eqb k) (map fst d)) eqn:E; [exact H|].
  apply keys_unique_snoc; assumption.
Qed.

Lemma headers_of_unique (pairs : list (str * str)) :
  keys_unique (map fst (headers_of pairs)) = true.
Proof.
  unfold headers_of.
  assert (G : forall acc, keys_unique (map fst acc) = true ->
            keys_unique (map fst (fold_left
              (fun d kv => headers_set d (fst kv) (snd kv)) pairs acc)) = true).
  { induction pairs as [|[k v] pairs IH]; intros acc Ha; [exact Ha|].
    cbn [fold_left fst snd]. apply IH. apply headers_set_unique. exact Ha. }
  apply G. reflexivity.
Qed.

Lemma wf_str_dict (hs : list (str * str)) :
  keys_unique (map fst hs) = true -> wf_json (str_dict hs) = true.
Proof.
  intros H. unfold str_dict. cbn [wf_json]. rewrite map_map. cbn [fst].
  rewrite (map_ext _ fst) by reflexivity. rewrite H. cbn [andb].
  apply forallb_forall. intros x Hx. apply in_map_iff in Hx.
  destruct Hx as (kv & <- & _). reflexivity.
Qed.

Lemma response_headers_unique (pairs : list (str * str)) :
  keys_unique (map fst (response_headers pairs)) = true.
Proof.
  unfold response_headers.
  assert (G : forall acc, keys_unique (map fst acc) = true ->
            keys_unique (map fst (fold_left
              (fun d k => match Offshore.getone pairs k with
                          | Some v => headers_set d k v
                          | None => d
                          end) (map fst pairs) acc)) = true).
  { induction (map fst pairs) as [|k ks IH]; intros acc Ha; [exact Ha|].
    cbn [fold_left]. apply IH.
    destruct (Offshore.getone pairs k); [|exact Ha].
    apply headers_set_unique. exact Ha. }
  apply G. reflexivity.
Qed.

Lemma response_header_of_wf (status : Z) (hs : list (str * str)) (rb : bytes) :
  keys_unique (map fst hs) = true ->
  frame_wf (Offshore.response_header_of status (str_dict hs) rb, rb) = true.
Proof.
  intros Hk. unfold frame_wf, Offshore.response_header_of. cbn [fst snd].
  apply andb_true_iff. split.
  - pose proof (wf_str_dict _ Hk) as W.
    cbn [wf_json map fst snd forallb]. rewrite W. reflexivity.
  - cbn. apply Z.eqb_refl.
Qed.

Lemma response_header_wf (status : Z) (rh : list (str * str)) (rb : bytes) :
  frame_wf (Offshore.response_header status rh rb, rb) = true.
Proof.
  unfold Offshore.response_header. rewrite dict_of_response_headers.
  apply response_header_of_wf, response_headers_unique.
Qed.

Lemma write_headers_strs (hs : list (str * str)) :
  forall (u : option sock) (c : sock),
    closing c = false ->
    write_headers (map (fun kv => (fst kv, JStr (snd kv))) hs) (mkH u c)
    = (Ok tt,
       mkH u (mkSock (rd c) (out c ++ header_lines hs) false (eof_sent c))).
Proof.
  induction hs as [|[k v] hs IH]; intros u c Hc.
  - cbn [map write_headers header_lines flat_map]. unfold ret.
    rewrite <- (sock_eta c Hc). reflexivity.
  - cbn [map write_headers fst snd format].
    unfold bind at 1. unfold lift at 1.
    unfold bind at 1. unfold cl_write at 1, modify. cbn [up cl].
    rewrite write_out by exact Hc.
    rewrite IH by reflexivity. cbn [rd out eof_sent].
    unfold header_lines. cbn [flat_map fst snd]. rewrite <- app_assoc.
    reflexivity.
Qed.

(** The Ship relays a response frame to the client: one request frame
    written to the uplink, exactly the response frame consumed, and the
    client sent the status line, the headers in dictionary order, an
    empty line and the body, then closed. *)
Lemma relay_response (method target : str)
  (headers : list (str * str)) (body req resp tail : bytes) (u c : sock)
  (status : Z) (hs : list (str * str)) (rb : bytes) :
  closing u = false -> closing c = false ->
  keys_unique (map fst hs) = true ->
  frame_bytes (http_request_header method target headers body) body = Ok req ->
  frame_bytes (Offshore.response_header_of status (str_dict hs) rb) rb
  = Ok resp ->
  content (rd u) = resp ++ tail ->
  exists r',
    handle_http_request method target headers body (mkH (Some u) c) =
      (Ok tt,
       mkH (Some (mkSock r' (out u ++ req) false (eof_sent u)))
         (mkSock [] (out c ++ http_response status hs rb) true
            (eof_sent c)))
    /\ content r' = tail.
Proof.
  intros Hu Hc Hk Hq Hp Hr.
  pose proof (response_header_of_wf status hs rb Hk) as W.
  apply andb_true_iff in W. cbn [fst snd] in W. destruct W as [W1 W2].
  destruct (read_message_frame (rd u) _ rb resp tail W1 W2 Hp Hr)
    as (r' & Er & Cr).
  exists r'. split; [|exact Cr].
  unfold handle_http_request. unfold bind at 1.
  rewrite (up_send_live u c _ _ req Hu Hq).
  unfold bind at 1. unfold try_except, bind at 1.
  rewrite up_read_message_eq. cbn [rd]. rewrite Er. cbn [fst snd].
  unfold ret at 1.
  unfold Offshore.response_header_of, str_dict.
  cbn -[utf8_encode str_of_Z write_headers app].
  rewrite write_out by exact Hc.
  unfold bind at 1. rewrite write_headers_strs by reflexivity.
  cbn [rd out eof_sent closing].
  unfold http_response.
  destruct rb; cbn -[utf8_encode str_of_Z app header_lines];
    rewrite <- ?app_assoc; reflexivity.
Qed.

(** X3. Whatever goes wrong with the response, the client of a plain HTTP
    request is told 502.  On a live uplink, when reading the response
    frame raises any exception (the uplink at end-of-stream, a truncated
    or malformed frame) or the frame read is not of type HTTPResponse, the
    handler sends the client exactly the fixed 502 response, closes it and
    returns normally; the uplink is left open. *)
Theorem handle_http_request_502 (method target : str)
  (headers : list (str * str)) (body req : bytes) (u c : sock) :
  closing u = false -> closing c = false ->
  frame_bytes (http_request_header method target headers body) body = Ok req ->
  match fst (read_message (rd u)) with
  | Err e => e <> OutsideModel
  | Ok (h, _) => is_str (frame_type h) "HTTPResponse" = false
  end ->
  handle_http_request method target headers body (mkH (Some u) c) =
    (Ok tt,
     mkH (Some (mkSock (snd (read_message (rd u))) (out u ++ req) false
                  (eof_sent u)))
       (mkSock [] (out c ++ bad_gateway) true (eof_sent c))).
Proof.
  intros Hu Hc Hq Hr.
  unfold handle_http_request. unfold bind at 1.
  rewrite (up_send_live u c _ _ req Hu Hq).
  unfold bind at 1. unfold try_except, bind at 1.
  rewrite up_read_message_eq. cbn [rd].
  destruct (read_message (rd u)) as [[[h b]|e] r'] eqn:Er; cbn [fst snd] in *.
  - unfold ret at 1.
    destruct (read_message_dict _ _ _ _ Er) as [d ->].
    unfold bind at 1, lift at 1. cbn [get frame_type] in *. rewrite Hr.
    cbn [negb]. rewrite reply_bad_gateway_live by exact Hc.
    rewrite write_out by exact Hc. reflexivity.
  - unfold bind at 1. rewrite reply_bad_gateway_live by exact Hc.
    rewrite write_out by exact Hc. reflexivity.
Qed.

Lemma handle_http_request_502_witness :
  handle_http_request (str_of "GET") (str_of "http://example.com/") [] []
    (mkH (Some (peer_hung_up (fresh []))) (fresh [])) =
    (Ok tt,
     mkH (Some (mkSock [] ([] ++ frames_wire [(sample_get_header, [])]) false
                  false))
       (mkSock [] ([] ++ bad_gateway) true false)).
Proof.
  apply (handle_http_request_502 (str_of "GET") (str_of "http://example.com/")
           [] [] (frames_wire [(sample_get_header, [])])
           (peer_hung_up (fresh [])) (fresh []));
    [reflexivity|reflexivity|vm_compute; reflexivity|discriminate].
Defined.

(** ** The Ship's CONNECT handler *)

(** X4. The client of a CONNECT is told nothing when the handshake with
    the Offshore fails.  [_handle_connect] has no [try] around its read of
    the reply: when that read raises (the uplink at end-of-stream, a
    malformed frame), the exception goes to the serializer, which logs it
    and moves on; the client socket has had no byte written to it and is
    not closed. *)
Theorem handle_connect_unanswered (host : str) (port : Z) (client u : sock)
  (req : bytes) (e : exn) (r' : reader) (s : ship) :
  uplink s = Some u -> closing u = false ->
  frame_bytes (connect_header host port) [] = Ok req ->
  read_message (rd u) = (Err e, r') ->
  e <> OutsideModel ->
  let s' := worker_step run_task (ConnectTask host port) client s in
  handled s' = handled s ++ [client]
  /\ log s' = log s ++ [Picked (done s); Done (done s) (Err e)]
  /\ uplink s' = Some (mkSock r' (out u ++ req) false (eof_sent u))
  /\ done s' = S (done s).
Proof.
  intros Hs Hu Hq Hr _ s'. subst s'.
  assert (E : handle_connect host port (mkH (Some u) client)
              = (Err e, mkH (Some (mkSock r' (out u ++ req) false (eof_sent u)))
                          client)).
  { unfold handle_connect. unfold bind at 1.
    rewrite (up_send_live u client _ _ req Hu Hq).
    unfold bind at 1. rewrite up_read_message_eq. cbn [rd]. rewrite Hr.
    reflexivity. }
  unfold worker_step, ensure_offshore.
  cbn [uplink net dials queue handled done log].
  rewrite Hs, Hu. cbn [negb].
  cbn [uplink net dials queue handled done log run_task].
  rewrite E. cbn [handled log uplink done up cl].
  rewrite <- app_assoc. repeat split; reflexivity.
Qed.

Lemma handle_connect_unanswered_witness :
  let u := peer_hung_up (fresh []) in
  let s := mkShip (Some u) [] 0 [] [] 0 [] in
  let client := fresh [bytes_of "hello"] in
  let s' := worker_step run_task (ConnectTask (str_of "example.com") 443)
              client s in
  handled s' = [] ++ [client]
  /\ log s' = [] ++ [Picked 0%nat; Done 0%nat (Err EOFError)]
  /\ uplink s' =
       Some (mkSock []
               ([] ++ frames_wire [(connect_header (str_of "example.com") 443, [])])
               false false)
  /\ done s' = 1%nat.
Proof.
  apply (handle_connect_unanswered (str_of "example.com") 443
           (fresh [bytes_of "hello"]) (peer_hung_up (fresh []))
           (frames_wire [(connect_header (str_of "example.com") 443, [])])
           EOFError []
           (mkShip (Some (peer_hung_up (fresh []))) [] 0 [] [] 0 []));
    try (vm_compute; reflexivity); discriminate.
Defined.

(** X5. A response frame that does not say its status is relayed as a 502
    without headers.  On a live uplink, for a well-formed frame of type
    HTTPResponse whose header has neither [status_code] nor [headers], the
    handler sends the client the status line [HTTP/1.1 502 OK], an empty
    line and the payload of the frame, then closes it. *)
Theorem handle_http_request_defaults (method target : str)
  (headers : list (str * str)) (body req resp tail : bytes) (u c : sock)
  (d : dict) (rb : bytes) :
  closing u = false -> closing c = false ->
  frame_bytes (http_request_header method target headers body) body = Ok req ->
  frame_wf (JObj d, rb) = true ->
  frame_bytes (JObj d) rb = Ok resp ->
  is_str (dict_get k_type d) "HTTPResponse" = true ->
  dict_get (str_of "status_code") d = None ->
  dict_get (str_of "headers") d = None ->
  content (rd u) = resp ++ tail ->
  exists r',
    handle_http_request method target headers body (mkH (Some u) c) =
      (Ok tt,
       mkH (Some (mkSock r' (out u ++ req) false (eof_sent u)))
         (mkSock [] (out c ++ http_response 502 [] rb) true (eof_sent c)))
    /\ content r' = tail.
Proof.
  intros Hu Hc Hq Hwf Hp Ht Hs Hh Hr.
  unfold frame_wf in Hwf. apply andb_true_iff in Hwf. cbn [fst snd] in Hwf.
  destruct Hwf as [W1 W2].
  destruct (read_message_frame (rd u) _ rb resp tail W1 W2 Hp Hr)
    as (r' & Er & Cr).
  exists r'. split; [|exact Cr].
  unfold handle_http_request. unfold bind at 1.
  rewrite (up_send_live u c _ _ req Hu Hq).
  unfold bind at 1. unfold try_except, bind at 1.
  rewrite up_read_message_eq. cbn [rd]. rewrite Er. cbn [fst snd].
  unfold ret at 1. unfold bind at 1. unfold lift at 1. cbn [get].
  rewrite Ht. cbn [negb].
  unfold bind at 1. unfold lift at 1. rewrite Hs.
  unfold bind at 1. unfold lift at 1. rewrite Hh.
  cbn -[utf8_encode str_of_Z app write].
  rewrite (write_out c _ Hc).
  unfold http_response.
  destruct rb; cbn -[utf8_encode str_of_Z app];
    rewrite <- ?app_assoc; reflexivity.
Qed.

Lemma handle_http_request_defaults_witness :
  let d := [(k_type, JStr (str_of "HTTPResponse")); (k_body_len, JInt 2)] in
  let resp := frames_wire [(JObj d, bytes_of "ok")] in
  exists r',
    handle_http_request (str_of "GET") (str_of "http://example.com/") [] []
      (mkH (Some (fresh [resp])) (fresh [])) =
      (Ok tt,
       mkH (Some (mkSock r' ([] ++ frames_wire [(sample_get_header, [])])
                    false false))
         (mkSock [] ([] ++ http_response 502 [] (bytes_of "ok")) true false))
    /\ content r' = [].
Proof.
  intros d resp.
  apply (handle_http_request_defaults (str_of "GET")
           (str_of "http://example.com/") [] []
           (frames_wire [(sample_get_header, [])]) resp []
           (fresh [resp]) (fresh []) d (bytes_of "ok"));
    vm_compute; reflexivity.
Defined.

(** ** Tunnel mode, client to uplink *)

Lemma utf8_encode_length (s : str) :
  (length (utf8_encode s) <= 2 * length s)%nat.
Proof.
  induction s as [|c s IH]; [simpl; lia|].
  unfold utf8_encode in *. cbn [flat_map]. rewrite length_app.
  assert (length (utf8_char c) <= 2)%nat.
  { unfold utf8_char. destruct (ord c <? 128); simpl; lia. }
  cbn [length]. lia.
Qed.

Lemma small_numeral (n : nat) :
  (n <= 4096)%nat -> (length (str_of_Z (Z.of_nat n)) <= 4)%nat.
Proof.
  intros Hn.
  assert (F : forallb (fun k => length (str_of_Z (Z.of_nat k)) <=? 4)%nat
                (seq 0 4097) = true) by (vm_compute; reflexivity).
  rewrite forallb_forall in F.
  apply Nat.leb_le. apply F. apply in_seq. lia.
Qed.

Lemma data_header_dumps (chunk : bytes) :
  dumps (data_header chunk)
  = "{"%char :: dumps_str k_type ++ str_of ": " ++ dumps_str (str_of "DATA")
    ++ str_of ", " ++ dumps_str k_body_len ++ str_of ": "
    ++ str_of_Z (len chunk) ++ ["}"%char].
Proof.
  unfold data_header. cbn [dumps]. rewrite <- !app_assoc. reflexivity.
Qed.

Lemma data_frame_bytes (chunk : bytes) :
  len chunk <= 4096 ->
  exists fb, frame_bytes (data_header chunk) chunk = Ok fb.
Proof.
  intros Hn. apply frame_bytes_ok.
  pose proof (utf8_encode_length (dumps (data_header chunk))) as Hl.
  rewrite data_header_dumps in *.
  pose proof (small_numeral (length chunk)) as Hd.
  unfold len in *.
  cbn [length] in Hl. rewrite !length_app in Hl.
  change (length (dumps_str k_type)) with 6%nat in Hl.
  change (length (dumps_str (str_of "DATA"))) with 6%nat in Hl.
  change (length (dumps_str k_body_len)) with 10%nat in Hl.
  change (length (str_of ": ")) with 2%nat in Hl.
  change (length (str_of ", ")) with 2%nat in Hl.
  cbn [length] in Hl.
  specialize (Hd ltac:(lia)).
  change (2 ^ 32) with 4294967296. lia.
Qed.

Lemma data_end_frame_bytes :
  frame_bytes data_end_header [] = Ok (frames_wire [data_end_frame]).
Proof. vm_compute. reflexivity. Qed.

Lemma encode_frames_cons (f : json * bytes) (fs : list (json * bytes))
  (a b : bytes) :
  frame_bytes (fst f) (snd f) = Ok a -> encode_frames fs = Ok b ->
  encode_frames (f :: fs) = Ok (a ++ b).
Proof. intros Ha Hb. cbn [encode_frames]. rewrite Ha, Hb. reflexivity. Qed.

(** The loop of [read_client_send] on a live uplink: the client's bytes
    leave as DATA frames of at most 4096 bytes each, in order, followed by
    one DATA_END frame. *)
Lemma client_to_uplink_frames (fuel : nat) :
  forall (u c : sock),
    closing u = false ->
    (length (content (rd c)) < fuel)%nat ->
    exists chunks bs,
      concat chunks = content (rd c)
      /\ chunks_ok 4096 chunks
      /\ encode_frames (map data_frame chunks ++ [data_end_frame]) = Ok bs
      /\ client_to_uplink fuel (mkH (Some u) c)
         = (Ok tt,
            mkH (Some (mkSock (rd u) (out u ++ bs) false (eof_sent u)))
              (set_rd c [])).
Proof.
  induction fuel as [|fuel IH]; intros u c Hu Hf; [lia|].
  rewrite client_to_uplink_S. cbn [up cl].
  destruct (read_spec (rd c) 4096 ltac:(lia)) as (chunk & r' & E & Hc & Hl & He & _).
  rewrite E. destruct chunk as [|x chunk].
  - destruct (He eq_refl) as [Hc0 ->].
    exists [], (frames_wire [data_end_frame]).
    split; [rewrite Hc0; reflexivity|]. split; [constructor|].
    split; [vm_compute; reflexivity|].
    apply (up_send_live u (set_rd c []) _ _ _ Hu data_end_frame_bytes).
  - destruct (data_frame_bytes (x :: chunk) Hl) as [fb Hfb].
    rewrite (up_send_live u (set_rd c r') _ _ fb Hu Hfb).
    destruct (IH (mkSock (rd u) (out u ++ fb) false (eof_sent u))
                (set_rd c r') eq_refl) as (chunks & bs & H1 & H2 & H3 & H4).
    { cbn [rd set_rd]. rewrite <- Hc, length_app in Hf. cbn [length] in Hf. lia. }
    exists ((x :: chunk) :: chunks), (fb ++ bs).
    split; [cbn [concat]; cbn [rd set_rd] in H1; rewrite H1; exact Hc|].
    split.
    { constructor; [|exact H2]. unfold len in *. cbn [length] in *. lia. }
    split.
    { cbn [map app]. apply encode_frames_cons; [exact Hfb|exact H3]. }
    rewrite H4. cbn [rd out eof_sent set_rd]. rewrite <- app_assoc. reflexivity.
Qed.

(** X6. [read_client_send] forwards the client's bytes to the uplink
    unchanged and in order: on a live uplink it writes DATA frames whose
    payloads, each between 1 and 4096 bytes long and with [body_len] set to
    its length, concatenate to exactly what the client sent before closing,
    and then one DATA_END frame; it reads the client to end-of-stream and
    touches neither the uplink's reader nor the client's writer. *)
Theorem read_client_send_frames (u c : sock) :
  closing u = false ->
  exists chunks bs,
    concat chunks = content (rd c)
    /\ chunks_ok 4096 chunks
    /\ encode_frames (map data_frame chunks ++ [data_end_frame]) = Ok bs
    /\ read_client_send (mkH (Some u) c)
       = (Ok tt,
          mkH (Some (mkSock (rd u) (out u ++ bs) false (eof_sent u)))
            (set_rd c [])).
Proof.
  intros Hu.
  destruct (client_to_uplink_frames (S (length (content (rd c)))) u c Hu
              ltac:(lia)) as (chunks & bs & H1 & H2 & H3 & H4).
  exists chunks, bs. repeat split; try assumption.
  unfold read_client_send, try_except. cbn [cl]. rewrite H4. reflexivity.
Qed.

Lemma read_client_send_frames_witness :
  exists chunks bs,
    concat chunks = content [bytes_of "GET / "; bytes_of "HTTP/1.0"]
    /\ chunks_ok 4096 chunks
    /\ encode_frames (map data_frame chunks ++ [data_end_frame]) = Ok bs
    /\ read_client_send
         (mkH (Some (fresh [])) (fresh [bytes_of "GET / "; bytes_of "HTTP/1.0"]))
       = (Ok tt,
          mkH (Some (mkSock [] ([] ++ bs) false false))
            (set_rd (fresh [bytes_of "GET / "; bytes_of "HTTP/1.0"]) [])).
Proof.
  apply (read_client_send_frames (fresh [])
           (fresh [bytes_of "GET / "; bytes_of "HTTP/1.0"])).
  reflexivity.
Defined.

(** ** Tunnel mode as a whole *)

Lemma handle_connect_eq (host : str) (port : Z) (u c : sock)
  (req : bytes) (h : json) (b : bytes) (r' : reader) :
  closing u = false ->
  closing c = false ->
  frame_bytes (connect_header host port) [] = Ok req ->
  read_message (rd u) = (Ok (h, b), r') ->
  handle_connect host port (mkH (Some u) c) =
    let u1 := mkSock r' (out u ++ req) false (eof_sent u) in
    if is_str (frame_type h) "CONNECT_OK"
    then tunnel (mkH (Some u1)
                   (mkSock (rd c) (out c ++ connection_established) false
                      (eof_sent c)))
    else (Ok tt,
          mkH (Some u1) (mkSock [] (out c ++ bad_gateway) true (eof_sent c))).
Proof.
  intros Hu Hc Hf Hr.
  destruct (read_message_dict _ _ _ _ Hr) as (d & Hd).
  unfold handle_connect, bind.
  rewrite (up_send_live u c _ _ req Hu Hf).
  rewrite up_read_message_eq. cbn [rd]. rewrite Hr. cbn [fst snd].
  unfold lift. rewrite (get_type h d Hd).
  unfold set_rd. cbn [rd out closing eof_sent].
  destruct (is_str (frame_type h) "CONNECT_OK"); cbn [negb].
  - unfold cl_write, cl_drain, modify. cbn [up cl].
    rewrite write_out by exact Hc. unfold drain. cbn [closing]. reflexivity.
  - rewrite reply_bad_gateway_live by exact Hc.
    rewrite write_out by exact Hc. reflexivity.
Qed.

Lemma connect_ok_frame_bytes :
  frame_bytes (fst connect_ok_frame) (snd connect_ok_frame)
  = Ok (frames_wire [connect_ok_frame]).
Proof. vm_compute. reflexivity. Qed.

(** X7. A CONNECT tunnel carries the bytes of both directions intact and
    leaves the uplink in step.  With the uplink and the client live, when
    the Offshore answers CONNECT_OK and then sends the frames [fs]
    followed by DATA_END, the handler: writes the CONNECT frame, then the
    client's bytes as DATA frames and one DATA_END; sends the client the
    200 line followed by the payloads of the DATA frames among [fs], in
    order and nothing else; closes the client; and leaves the uplink open
    with its reader right after the DATA_END frame. *)
Theorem handle_connect_tunnels (host : str) (port : Z) (u c : sock)
  (req bs tail : bytes) (fs : list (json * bytes)) :
  closing u = false ->
  closing c = false ->
  frame_bytes (connect_header host port) [] = Ok req ->
  Forall (fun f => frame_wf f = true) fs ->
  (forall f, In f fs -> is_data_end f = false) ->
  encode_frames fs = Ok bs ->
  content (rd u)
  = frames_wire [connect_ok_frame] ++ bs ++ frames_wire [data_end_frame] ++ tail ->
  exists chunks sent r',
    concat chunks = content (rd c)
    /\ chunks_ok 4096 chunks
    /\ encode_frames (map data_frame chunks ++ [data_end_frame]) = Ok sent
    /\ handle_connect host port (mkH (Some u) c)
       = (Ok tt,
          mkH (Some (mkSock r' (out u ++ req ++ sent) false (eof_sent u)))
            (mkSock [] (out c ++ connection_established ++ data_payloads fs)
               true (eof_sent c)))
    /\ content r' = tail.
Proof.
  intros Hu Hc Hq Hwf Hne Hbs Hr.
  destruct (read_message_frame (rd u) (fst connect_ok_frame)
              (snd connect_ok_frame) _ _ eq_refl eq_refl
              connect_ok_frame_bytes Hr) as (r1 & E1 & C1).
  rewrite (handle_connect_eq host port u c req _ _ r1 Hu Hc Hq E1).
  change (is_str (frame_type (fst connect_ok_frame)) "CONNECT_OK") with true.
  cbv zeta iota.
  set (u1 := mkSock r1 (out u ++ req) false (eof_sent u)).
  set (c1 := mkSock (rd c) (out c ++ connection_established) false (eof_sent c)).
  destruct (client_to_uplink_frames (S (length (content (rd c1)))) u1 c1
              eq_refl ltac:(lia)) as (chunks & sent & H1 & H2 & H3 & H4).
  set (u2 := mkSock (rd u1) (out u1 ++ sent) false (eof_sent u1)) in *.
  destruct (uplink_to_client_frames fs
              (S (uplink_pending (mkH (Some u2) (set_rd c1 []))))
              u2 (set_rd c1 []) bs (frames_wire [data_end_frame]) tail
              data_end_frame Hwf Hne Hbs eq_refl eq_refl data_end_frame_bytes
              C1 eq_refl) as (r2 & E2 & C2).
  { unfold uplink_pending. cbn [up]. subst u2 u1. cbn [rd].
    rewrite C1, !length_app. apply encode_frames_length in Hbs. lia. }
  exists chunks, sent, r2.
  split; [exact H1|]. split; [exact H2|]. split; [exact H3|].
  split; [|exact C2].
  unfold tunnel. unfold bind at 1.
  unfold read_client_send at 1, try_except at 1. cbn [cl]. rewrite H4.
  unfold bind at 1.
  unfold read_offshore_write at 1, try_except at 1. fold u2. rewrite E2.
  unfold try_except, cl_close, modify. cbn [up cl].
  subst u2 u1 c1. unfold close, set_rd. cbn [rd out closing eof_sent].
  rewrite <- !app_assoc. reflexivity.
Qed.

Lemma handle_connect_tunnels_witness :
  let fs := [data_frame (bytes_of "pong"); error_frame] in
  let u := fresh [frames_wire [connect_ok_frame]; frames_wire fs;
                  frames_wire [data_end_frame]; bytes_of "next"] in
  let c := fresh [bytes_of "ping"] in
  exists chunks sent r',
    concat chunks = content (rd c)
    /\ chunks_ok 4096 chunks
    /\ encode_frames (map data_frame chunks ++ [data_end_frame]) = Ok sent
    /\ handle_connect (str_of "example.com") 443 (mkH (Some u) c)
       = (Ok tt,
          mkH (Some (mkSock r'
                       (out u
                        ++ frames_wire
                             [(connect_header (str_of "example.com") 443, [])]
                        ++ sent) false (eof_sent u)))
            (mkSock [] (out c ++ connection_established ++ data_payloads fs)
               true (eof_sent c)))
    /\ content r' = bytes_of "next".
Proof.
  intros fs u c.
  apply (handle_connect_tunnels (str_of "example.com") 443 u c
           (frames_wire [(connect_header (str_of "example.com") 443, [])])
           (frames_wire fs) (bytes_of "next") fs).
  - reflexivity.
  - reflexivity.
  - vm_compute. reflexivity.
  - repeat constructor.
  - intros f [<-|[<-|[]]]; reflexivity.
  - vm_compute. reflexivity.
  - vm_compute. reflexivity.
Defined.

(** X8. The two coroutines of tunnel mode cannot disturb each other.
    From any state, each of them returns without raising (it catches what
    its loop raises); [read_client_send] changes nothing but the client's
    reader and the bytes written to the uplink, [read_offshore_write]
    nothing but the uplink's reader and the bytes written to the client;
    and running one to its end and then the other gives the same result in
    either order. *)
Theorem tunnel_tasks_independent (st : hstate) :
  (exists r o, read_client_send st = (Ok tt, with_client_side st r o))
  /\ (exists r o, read_offshore_write st = (Ok tt, with_uplink_side st r o))
  /\ (read_client_send ;;; read_offshore_write) st
     = (read_offshore_write ;;; read_client_send) st.
Proof.
  split; [|split].
  - apply read_client_send_owns.
  - apply read_offshore_write_owns.
  - apply tunnel_tasks_commute.
Qed.

(** ** Requests and responses in order *)

Lemma encode_frames_cons_inv (f : json * bytes) (fs : list (json * bytes))
  (bs : bytes) :
  encode_frames (f :: fs) = Ok bs ->
  exists a b, frame_bytes (fst f) (snd f) = Ok a /\ encode_frames fs = Ok b
              /\ bs = a ++ b.
Proof.
  cbn [encode_frames].
  destruct (frame_bytes (fst f) (snd f)) as [a|e]; [|discriminate].
  destruct (encode_frames fs) as [b|e]; [|discriminate].
  intros H. injection H as <-. exists a, b. repeat split.
Qed.

(** X10. Responses reach the clients in the order of the requests.  With
    a live uplink on which the Offshore's response frames arrive one per
    request, in order, the serializer writes the request frames to the
    uplink in queue order, gives the k-th client the k-th response (status
    line, headers, empty line, body) and nothing else, closes every
    client, logs every item as done without exception, and leaves the
    uplink reader right after the last response. *)
Theorem worker_answers_in_order (xs : list exchange) :
  forall (s : ship) (u : sock) (reqs resps tail : bytes),
    uplink s = Some u -> closing u = false ->
    Forall (fun x => closing (x_client x) = false) xs ->
    encode_frames (map x_request xs) = Ok reqs ->
    encode_frames (map x_response xs) = Ok resps ->
    content (rd u) = resps ++ tail ->
    let s' := worker_loop run_task (map x_item xs) s in
    handled s' = handled s ++ map x_answered xs
    /\ log s' = log s ++ all_done (done s) (length xs)
    /\ exists r',
         uplink s' = Some (mkSock r' (out u ++ reqs) false (eof_sent u))
         /\ content r' = tail.
Proof.
  induction xs as [|x xs IH]; intros s u reqs resps tail Hs Hu Hc Hq Hp Hr;
    cbn [map worker_loop length all_done].
  - cbn [map encode_frames] in Hq, Hp. injection Hq as <-. injection Hp as <-.
    rewrite !app_nil_r. repeat split.
    exists (rd u). split; [|exact Hr].
    rewrite Hs. destruct u; cbn in *. subst. reflexivity.
  - cbn [map] in Hq, Hp.
    apply encode_frames_cons_inv in Hq. destruct Hq as (qa & qb & Q1 & Q2 & ->).
    apply encode_frames_cons_inv in Hp. destruct Hp as (pa & pb & P1 & P2 & ->).
    inversion Hc as [|? ? Hx Hxs]; subst.
    rewrite <- app_assoc in Hr.
    destruct (relay_response (x_method x) (x_target x) (x_headers x) (x_body x)
                qa pa (pb ++ tail) u (x_client x) (x_status x)
                (headers_of (x_rheaders x)) (x_rbody x) Hu Hx
                (headers_of_unique (x_rheaders x)) Q1 P1 Hr)
      as (r1 & E1 & C1).
    set (u1 := mkSock r1 (out u ++ qa) false (eof_sent u)) in *.
    assert (W : worker_step run_task
                  (HttpTask (x_method x) (x_target x) (x_headers x) (x_body x))
                  (x_client x) s
                = mkShip (Some u1) (net s) (dials s) (queue s)
                    (handled s ++ [x_answered x]) (S (done s))
                    (log s ++ [Picked (done s); Done (done s) (Ok tt)])).
    { unfold worker_step, ensure_offshore.
      cbn [uplink net dials queue handled done log]. rewrite Hs, Hu.
      cbn [negb uplink net dials queue handled done log run_task].
      rewrite E1. cbn [up cl]. rewrite <- app_assoc. reflexivity. }
    change (x_item x)
      with (HttpTask (x_method x) (x_target x) (x_headers x) (x_body x),
            x_client x).
    cbv iota. rewrite W.
    destruct (IH (mkShip (Some u1) (net s) (dials s) (queue s)
                    (handled s ++ [x_answered x]) (S (done s))
                    (log s ++ [Picked (done s); Done (done s) (Ok tt)]))
                u1 qb pb tail eq_refl eq_refl Hxs Q2 P2 C1)
      as (I1 & I2 & r' & I3 & I4).
    cbv zeta in *. cbn [handled log done] in I1, I2.
    rewrite I1, I2, <- !app_assoc. repeat split.
    exists r'. split; [|exact I4]. rewrite I3. subst u1.
    cbn [out eof_sent]. rewrite <- app_assoc. reflexivity.
Qed.

Lemma worker_answers_in_order_witness :
  let a := mkExchange (str_of "GET") (str_of "http://a/") [] [] (fresh [])
             200 [(str_of "Content-Type", str_of "text/plain")]
             (bytes_of "first") in
  let b := mkExchange (str_of "POST") (str_of "http://b/")
             [(str_of "Content-Length", str_of "2")] (bytes_of "hi") (fresh [])
             404 [] (bytes_of "second") in
  let xs := [a; b] in
  let u := fresh [frames_wire (map x_response xs)] in
  let s := mkShip (Some u) [] 1 [] [] 0 [] in
  let s' := worker_loop run_task (map x_item xs) s in
  handled s' = handled s ++ map x_answered xs
  /\ log s' = log s ++ all_done (done s) (length xs)
  /\ exists r',
       uplink s' = Some (mkSock r' (out u ++ frames_wire (map x_request xs))
                           false (eof_sent u))
       /\ content r' = [].
Proof.
  intros a b xs u s.
  apply (worker_answers_in_order xs s u (frames_wire (map x_request xs))
           (frames_wire (map x_response xs)) []).
  - reflexivity.
  - reflexivity.
  - repeat constructor.
  - vm_compute. reflexivity.
  - vm_compute. reflexivity.
  - vm_compute. reflexivity.
Defined.

(** ** Dial failures *)

Section DialFailures.

Variable T : Type.
Variable task_func : T -> Handler unit.

(** X11. While the Offshore cannot be reached, work items are dropped
    without a word to their clients.  Starting without a usable uplink
    (none yet, or one that is closing), when every dial fails, the
    serializer makes one dial attempt per item, logs the exception of each,
    never runs a handler, and leaves every client socket exactly as it
    was: nothing written to it, not closed. *)
Theorem worker_drops_items_when_dial_fails (items : list (T * sock)) :
  forall (s : ship) (errs : list exn) (rest : list (result sock)),
    match uplink s with Some u => closing u = true | None => True end ->
    net s = map Err errs ++ rest ->
    length errs = length items ->
    let s' := worker_loop task_func items s in
    handled s' = handled s ++ map snd items
    /\ log s' = log s ++ all_failed (done s) errs
    /\ uplink s' = uplink s
    /\ dials s' = dials s
    /\ net s' = rest.
Proof.
  induction items as [|[args c] items IH]; intros s errs rest Hu Hn Hl;
    destruct errs as [|e errs]; try discriminate Hl;
    cbn [worker_loop map snd all_failed].
  - rewrite !app_nil_r. repeat split. exact Hn.
  - assert (W : worker_step task_func args c s
                = mkShip (uplink s) (map Err errs ++ rest) (dials s) (queue s)
                    (handled s ++ [c]) (S (done s))
                    (log s ++ [Picked (done s); Done (done s) (Err e)])).
    { unfold worker_step, ensure_offshore.
      cbn [uplink net dials queue handled done log]. rewrite Hn.
      destruct (uplink s) as [u|]; [rewrite Hu|];
        cbn [negb map app uplink net dials queue handled done log];
        rewrite <- app_assoc; reflexivity. }
    rewrite W.
    destruct (IH (mkShip (uplink s) (map Err errs ++ rest) (dials s) (queue s)
                    (handled s ++ [c]) (S (done s))
                    (log s ++ [Picked (done s); Done (done s) (Err e)]))
                errs rest Hu eq_refl ltac:(cbn [length] in Hl; lia))
      as (I1 & I2 & I3 & I4 & I5).
    cbv zeta in *. cbn [handled log done uplink dials] in *.
    rewrite I1, I2, <- !app_assoc. repeat split; assumption.
Qed.

End DialFailures.

Lemma worker_drops_items_when_dial_fails_witness :
  let s := mkShip None [Err OSError; Err OSError; Ok (fresh [])] 0 [] [] 0 [] in
  let items := [(sample_get, fresh [bytes_of "a"]);
                (ConnectTask (str_of "example.com") 443, fresh [bytes_of "b"])] in
  let s' := worker_loop run_task items s in
  handled s' = handled s ++ map snd items
  /\ log s' = log s ++ all_failed (done s) [OSError; OSError]
  /\ uplink s' = uplink s
  /\ dials s' = dials s
  /\ net s' = [Ok (fresh [])].
Proof.
  intros s items.
  apply (worker_drops_items_when_dial_fails task run_task items s
           [OSError; OSError] [Ok (fresh [])]).
  - exact I.
  - reflexivity.
  - reflexivity.
Defined.

(** ** The acceptor: lines *)

Lemma readline_from_line (r : reader) :
  forall (acc line rest : bytes),
    content r = line ++ bLF :: rest ->
    ~ In bLF line ->
    exists r', readline_from r acc = (acc ++ line ++ [bLF], r')
               /\ content r' = rest.
Proof.
  induction r as [|c r IH]; intros acc line rest Hc Hn.
  - destruct line; discriminate Hc.
  - cbn [readline_from].
    assert (Hscan : forall c' pre line,
      c' ++ content r = line ++ bLF :: rest -> ~ In bLF line ->
      exists r',
        (fix scan (pre c : bytes) : bytes * reader :=
           match c with
           | [] => readline_from r (acc ++ pre)
           | x :: c' =>
               if Byte.eqb x bLF then
                 (acc ++ pre ++ [x],
                  match c' with [] => r | _ :: _ => c' :: r end)
               else scan (pre ++ [x]) c'
           end) pre c' = (acc ++ pre ++ line ++ [bLF], r')
        /\ content r' = rest).
    { clear Hc Hn line. induction c' as [|x c' IHc]; intros pre line Hc Hn.
      - destruct (IH (acc ++ pre) line rest Hc Hn) as (r' & E & C').
        exists r'. rewrite E, <- app_assoc. split; [reflexivity|exact C'].
      - destruct (Byte.eqb x bLF) eqn:Ex.
        + apply Byte.byte_dec_bl in Ex. subst x.
          destruct line as [|y line].
          * cbn [app] in Hc. injection Hc as Hc.
            eexists. split; [reflexivity|].
            destruct c'; [exact Hc|]. unfold content in *.
            rewrite concat_cons. exact Hc.
          * cbn [app] in Hc. injection Hc as Hy _. subst y.
            elim Hn. left. reflexivity.
        + destruct line as [|y line].
          * cbn [app] in Hc. injection Hc as Hx _. subst x.
            apply Byte.eqb_false in Ex. elim Ex. reflexivity.
          * cbn [app] in Hc. injection Hc as Hy Hc. subst y.
            destruct (IHc (pre ++ [x]) line Hc) as (r' & E & C').
            { intros Hi. apply Hn. right. exact Hi. }
            exists r'. rewrite E. split; [|exact C'].
            rewrite <- !app_assoc. reflexivity. }
    destruct (Hscan c [] line) as (r' & E & C'); [|exact Hn|].
    + unfold content in *. rewrite concat_cons in Hc. exact Hc.
    + exists r'. rewrite E. split; [reflexivity|exact C'].
Qed.

Lemma utf8_char_no_LF (c : ascii) : In bLF (utf8_char c) -> c = LF.
Proof.
  each_char c; cbn; intros H; repeat (destruct H as [H|H]; try discriminate H);
    try contradiction; reflexivity.
Qed.

Lemma one_line_no_LF (s : str) : one_line s = true -> ~ In bLF (utf8_encode s).
Proof.
  induction s as [|c s IH]; cbn [one_line forallb utf8_encode flat_map];
    [intros _ []|].
  intros H Hi. apply andb_true_iff in H. destruct H as [Hc Hs].
  apply in_app_or in Hi. destruct Hi as [Hi|Hi].
  - apply utf8_char_no_LF in Hi. subst c. discriminate Hc.
  - exact (IH Hs Hi).
Qed.

Lemma one_line_app (a b : str) :
  one_line (a ++ b) = one_line a && one_line b.
Proof. unfold one_line. apply forallb_app. Qed.

Lemma is_field_one_line (s : str) : is_field s = true -> one_line s = true.
Proof. unfold is_field. intros H. apply andb_true_iff in H. tauto. Qed.

Lemma is_field_no_SP (s : str) : is_field s = true -> contains SP s = false.
Proof.
  unfold is_field. intros H. apply andb_true_iff in H.
  destruct H as [_ H]. apply negb_true_iff in H. exact H.
Qed.

Lemma lstrip_crlf_one_line (s : str) :
  one_line s = true -> forall t, lstrip_crlf (rev s ++ t) = rev s ++ t
                                 \/ s = [].
Proof.
  intros H t. destruct s as [|c s] using rev_ind; [right; reflexivity|left].
  rewrite rev_app_distr. cbn [rev app lstrip_crlf].
  rewrite one_line_app in H. apply andb_true_iff in H. destruct H as [_ H].
  cbn [one_line forallb] in H. rewrite andb_true_r in H.
  apply negb_true_iff in H. rewrite H. reflexivity.
Qed.

Lemma rstrip_crlf_one_line (s : str) :
  one_line s = true -> rstrip_crlf (s ++ sCRLF) = s.
Proof.
  intros H. unfold rstrip_crlf, sCRLF. rewrite rev_app_distr.
  cbn [rev app lstrip_crlf].
  rewrite Ascii.eqb_refl, orb_true_r, Ascii.eqb_refl, orb_true_l.
  destruct (lstrip_crlf_one_line s H []) as [E| ->]; [|reflexivity].
  rewrite app_nil_r in E. rewrite E. apply rev_involutive.
Qed.

Lemma decode_line (s : str) :
  utf8_decode (utf8_encode s ++ bCRLF) = Ok (s ++ sCRLF).
Proof. rewrite utf8_decode_app. reflexivity. Qed.

Lemma split_one (sep : ascii) (s : str) :
  contains sep s = false -> split sep s = [s].
Proof.
  induction s as [|c s IH]; cbn [contains existsb split]; [reflexivity|].
  intros H. apply orb_false_iff in H. destruct H as [Hc Hs].
  rewrite Ascii.eqb_sym, Hc. unfold contains in IH. rewrite (IH Hs). reflexivity.
Qed.

Lemma split_app (sep : ascii) (a b : str) :
  contains sep a = false -> split sep (a ++ sep :: b) = a :: split sep b.
Proof.
  induction a as [|c a IH]; cbn [contains existsb split app].
  - intros _. rewrite Ascii.eqb_refl. reflexivity.
  - intros H. apply orb_false_iff in H. destruct H as [Hc Hs].
    rewrite Ascii.eqb_sym, Hc. unfold contains in IH. rewrite (IH Hs).
    reflexivity.
Qed.

Lemma split_cons (sep : ascii) (s : str) :
  exists a l, split sep s = a :: l.
Proof.
  induction s as [|c s IH]; cbn [split]; [eauto|].
  destruct (Ascii.eqb c sep); [eauto|].
  destruct IH as (a & l & ->). eauto.
Qed.

Lemma split1_app (sep : ascii) (a b : str) :
  contains sep a = false -> split1 sep (a ++ sep :: b) = Some (a, b).
Proof.
  induction a as [|c a IH]; cbn [contains existsb split1 app].
  - intros _. rewrite Ascii.eqb_refl. reflexivity.
  - intros H. apply orb_false_iff in H. destruct H as [Hc Hs].
    rewrite Ascii.eqb_sym, Hc. unfold contains in IH. rewrite (IH Hs).
    reflexivity.
Qed.

(** ** The acceptor: the header block *)

Lemma str_eqb_true (a b : str) : str_eqb a b = true -> a = b.
Proof. apply str_eqb_eq. Qed.

Lemma bytes_eqb_true (a b : bytes) : bytes_eqb a b = true -> a = b.
Proof.
  revert b. induction a as [|x a IH]; intros [|y b]; cbn [bytes_eqb];
    try discriminate; [reflexivity|].
  intros H. apply andb_true_iff in H. destruct H as [Hx Hab].
  apply Byte.byte_dec_bl in Hx. subst y. rewrite (IH b Hab). reflexivity.
Qed.

Lemma utf8_encode_app (a b : str) :
  utf8_encode (a ++ b) = utf8_encode a ++ utf8_encode b.
Proof. unfold utf8_encode. apply flat_map_app. Qed.

Lemma utf8_char_cons (c : ascii) : exists x t, utf8_char c = x :: t.
Proof. unfold utf8_char. destruct (ord c <? 128); eauto. Qed.

Lemma readline_line (c : sock) (text : str) (rest : bytes) :
  content (rd c) = utf8_encode text ++ bCRLF ++ rest ->
  one_line text = true ->
  exists r',
    readline c = (Ok (utf8_encode text ++ bCRLF), set_rd c r')
    /\ content r' = rest.
Proof.
  intros Hc Ht. unfold readline.
  destruct (readline_from_line (rd c) [] (utf8_encode text ++ [bCR]) rest)
    as (r' & E & C').
  - rewrite Hc, <- app_assoc. reflexivity.
  - intros Hi. apply in_app_or in Hi. destruct Hi as [Hi|[Hi|[]]].
    + exact (one_line_no_LF text Ht Hi).
    + discriminate Hi.
  - exists r'. rewrite E. cbn [app]. rewrite <- app_assoc.
    split; [reflexivity|exact C'].
Qed.

(** The bytes of one header line, and of a block of them. *)
Lemma header_block_cons (kv : str * str) (hs : list (str * str)) :
  flat_map (fun kv => utf8_encode (fst kv ++ str_of ": " ++ snd kv) ++ bCRLF)
    (kv :: hs)
  = utf8_encode (fst kv ++ str_of ": " ++ snd kv) ++ bCRLF
    ++ flat_map (fun kv => utf8_encode (fst kv ++ str_of ": " ++ snd kv) ++ bCRLF)
         hs.
Proof. cbn [flat_map]. rewrite <- app_assoc. reflexivity. Qed.

Lemma readline_from_eof (r : reader) :
  forall acc, content r = [] ->
    exists r', readline_from r acc = (acc, r') /\ content r' = [].
Proof.
  induction r as [|c r IH]; intros acc Hc; cbn [readline_from].
  - exists []. split; reflexivity.
  - unfold content in Hc. rewrite concat_cons in Hc.
    apply app_eq_nil in Hc. destruct Hc as [-> Hc].
    destruct (IH (acc ++ []) Hc) as (r' & E & C'). rewrite app_nil_r in E.
    exists r'. rewrite app_nil_r. split; [exact E|exact C'].
Qed.

(** The header block ends with an empty line, or with the end of the
    stream. *)
Lemma read_headers_block (hs : list (str * str)) :
  forall (fuel : nat) (acc : list (str * str)) (c : sock) (term rest : bytes),
    Forall (fun kv => is_header kv = true) hs ->
    content (rd c)
    = flat_map (fun kv => utf8_encode (fst kv ++ str_of ": " ++ snd kv) ++ bCRLF)
        hs ++ term ->
    term = bCRLF ++ rest \/ (term = [] /\ rest = []) ->
    (length hs < fuel)%nat ->
    exists r',
      read_headers fuel acc c
      = (Ok (fold_left (fun d kv => headers_set d (fst kv) (snd kv)) hs acc),
         set_rd c r')
      /\ content r' = rest.
Proof.
  induction hs as [|[k v] hs IH]; intros fuel acc c term rest Hh Hc Hterm Hf;
    (destruct fuel as [|fuel]; [cbn [length] in Hf; lia|]);
    cbn [read_headers]; unfold bind at 1.
  - destruct Hterm as [->|[-> ->]].
    + destruct (readline_line c [] rest Hc eq_refl) as (r' & E & C').
      rewrite E. exists r'. split; [reflexivity|exact C'].
    + unfold readline.
      destruct (readline_from_eof (rd c) [] Hc) as (r' & E & C').
      rewrite E. exists r'. split; [reflexivity|exact C'].
  - inversion Hh as [|? ? Hkv Hhs]; subst.
    unfold is_header in Hkv. cbn [fst snd] in Hkv.
    repeat (apply andb_true_iff in Hkv; destruct Hkv as [Hkv ?]).
    apply negb_true_iff in Hkv.
    rewrite header_block_cons in Hc. cbn [fst snd] in Hc.
    rewrite <- !app_assoc in Hc.
    destruct (readline_line c (k ++ str_of ": " ++ v) _ Hc) as (r1 & E & C1).
    { rewrite !one_line_app. rewrite H2, H1. reflexivity. }
    rewrite E.
    assert (Hne : bytes_eqb (utf8_encode (k ++ str_of ": " ++ v) ++ bCRLF) []
                  || bytes_eqb (utf8_encode (k ++ str_of ": " ++ v) ++ bCRLF)
                       bCRLF = false).
    { apply orb_false_iff. split.
      - destruct (utf8_encode _); reflexivity.
      - destruct (bytes_eqb _ bCRLF) eqn:Eb; [|reflexivity].
        apply bytes_eqb_true in Eb.
        apply (f_equal (@length byte)) in Eb.
        rewrite length_app, !utf8_encode_app, !length_app in Eb.
        cbn in Eb. lia. }
    rewrite Hne. unfold bind at 1. unfold lift at 1.
    rewrite decode_line.
    rewrite rstrip_crlf_one_line
      by (rewrite !one_line_app; rewrite H2, H1; reflexivity).
    change (k ++ str_of ": " ++ v) with (k ++ ":"%char :: SP :: v).
    rewrite (split1_app ":"%char k (SP :: v) Hkv).
    apply str_eqb_true in H0, H.
    assert (Hv : strip (SP :: v) = v) by exact H.
    rewrite H0, Hv.
    destruct (IH fuel (headers_set acc k v) (set_rd c r1) term rest Hhs C1
                Hterm ltac:(cbn [length] in Hf; lia)) as (r' & E2 & C2).
    rewrite E2. exists r'. split; [reflexivity|exact C2].
Qed.

(** What [handle_client] has done once the request line and the headers
    are read: the branch on the method, run on the rest of the stream. *)
Lemma parse_client_head (c : sock) (method target proto : str)
  (hs : list (str * str)) (term rest : bytes) :
  content (rd c) = open_head method target proto hs ++ term ->
  term = bCRLF ++ rest \/ (term = [] /\ rest = []) ->
  is_field method = true -> is_field target = true -> one_line proto = true ->
  Forall (fun kv => is_header kv = true) hs ->
  exists r',
    content r' = rest
    /\ parse_client c =
       (if str_eqb (upper method) (str_of "CONNECT") then
          hp <- (if contains ":"%char target then
                   match split ":"%char target with
                   | [host; port] =>
                       p <- lift (int_of_str port) ;; ret (host, p)
                   | _ => raise ValueError
                   end
                 else ret (target, 443)) ;;
          ret (Some (ConnectTask (fst hp) (snd hp)))
        else
          cl <- lift (content_length (headers_of hs)) ;;
          body <- (if 0 <? cl then c_read_exact cl else ret []) ;;
          ret (Some (HttpTask method target (headers_of hs) body)))
         (set_rd c r').
Proof.
  intros Hc Hterm Hm Ht Hp Hh.
  unfold open_head in Hc. rewrite <- !app_assoc in Hc.
  destruct (readline_line c (method ++ [SP] ++ target ++ [SP] ++ proto) _ Hc)
    as (r1 & E1 & C1).
  { rewrite !one_line_app.
    rewrite (is_field_one_line _ Hm), (is_field_one_line _ Ht), Hp.
    reflexivity. }
  destruct (read_headers_block hs (S (length (content r1))) [] (set_rd c r1)
              term rest Hh C1 Hterm) as (r2 & E2 & C2).
  { rewrite C1, length_app.
    assert (G : forall l : list (str * str),
              (length l
               <= length (flat_map
                    (fun kv => utf8_encode (fst kv ++ str_of ": " ++ snd kv)
                               ++ bCRLF) l))%nat).
    { induction l as [|kv l IHl]; [apply Nat.le_refl|].
      rewrite header_block_cons, !length_app. unfold bCRLF at 1.
      cbn [length]. lia. }
    specialize (G hs). lia. }
  exists r2. split; [exact C2|].
  unfold parse_client. unfold bind at 1. rewrite E1.
  destruct (utf8_encode (method ++ [SP] ++ target ++ [SP] ++ proto) ++ bCRLF)
    as [|x line] eqn:El.
  { apply (f_equal (@length byte)) in El. rewrite length_app in El.
    cbn in El. lia. }
  rewrite <- El. unfold bind at 1. unfold lift at 1. rewrite decode_line.
  rewrite rstrip_crlf_one_line
    by (rewrite !one_line_app;
        rewrite (is_field_one_line _ Hm), (is_field_one_line _ Ht), Hp;
        reflexivity).
  change (method ++ [SP] ++ target ++ [SP] ++ proto)
    with (method ++ SP :: (target ++ SP :: proto)).
  rewrite (split_app SP method _ (is_field_no_SP _ Hm)).
  rewrite (split_app SP target _ (is_field_no_SP _ Ht)).
  destruct (split_cons SP proto) as (p1 & pl & Esp). rewrite Esp.
  unfold bind at 1. cbn [rd set_rd]. rewrite E2.
  reflexivity.
Qed.

Lemma request_head_open (c : sock) (method target proto : str)
  (hs : list (str * str)) (rest : bytes) :
  content (rd c) = request_head method target proto hs ++ rest ->
  content (rd c) = open_head method target proto hs ++ bCRLF ++ rest.
Proof.
  intros ->. unfold request_head, open_head. rewrite <- !app_assoc.
  reflexivity.
Qed.

(** ** The acceptor: what it puts on the queue *)

(** X12. A plain request is queued as the client sent it.  For a request
    head made of a request line (a method and a target without spaces,
    then the rest of the line, which may hold more than one field), header
    lines [name: value] and an empty line, followed by [rest], and a method
    other than CONNECT, the acceptor queues one work item holding the
    method and the target unchanged, the headers as a dictionary (a
    repeated name keeps its first place and takes its last value), and as
    body the first [Content-Length] bytes of [rest], or no body when the
    header is missing, empty or not positive; the bytes after the body
    stay unread in the client's reader. *)
Theorem handle_client_http (c : sock) (method target proto : str)
  (hs : list (str * str)) (rest : bytes) (n : Z) :
  content (rd c) = request_head method target proto hs ++ rest ->
  len (request_head method target proto hs) <= line_limit ->
  is_field method = true -> is_field target = true -> one_line proto = true ->
  Forall (fun kv => is_header kv = true) hs ->
  str_eqb (upper method) (str_of "CONNECT") = false ->
  content_length (headers_of hs) = Ok n ->
  n <= len rest ->
  exists r',
    handle_client c
    = Enqueued (mkItem (HttpTask method target (headers_of hs)
                          (firstn (Z.to_nat n) rest))
                  (set_rd c r'))
    /\ content r' = skipn (Z.to_nat n) rest.
Proof.
  intros Hc _ Hm Ht Hp Hh Hx Hl Hn.
  destruct (parse_client_head c method target proto hs (bCRLF ++ rest) rest
              (request_head_open _ _ _ _ _ _ Hc) (or_introl eq_refl)
              Hm Ht Hp Hh) as (r1 & C1 & E).
  unfold handle_client. rewrite E, Hx, Hl. unfold bind at 1. unfold lift at 1.
  unfold bind at 1.
  destruct (0 <? n) eqn:E0.
  - apply Z.ltb_lt in E0. unfold c_read_exact. cbn [rd set_rd].
    destruct (read_exact_spec r1 n) as (r2 & E2 & C2). rewrite E2.
    rewrite C1 in *.
    destruct (n <=? 0) eqn:E3; [apply Z.leb_le in E3; lia|].
    destruct (n <=? len rest) eqn:E4; [|apply Z.leb_gt in E4; lia].
    exists r2. split; [reflexivity|exact C2].
  - apply Z.ltb_ge in E0. unfold ret.
    replace (Z.to_nat n) with 0%nat by lia.
    exists r1. split; [reflexivity|exact C1].
Qed.

Lemma handle_client_http_witness :
  let hs := [(str_of "Host", str_of "x"); (str_of "Content-Length", str_of "5")] in
  let c := fresh [request_head (str_of "POST") (str_of "http://x/y")
                    (str_of "HTTP/1.1 and more") hs;
                  bytes_of "HEL"; bytes_of "LOmore"] in
  exists r',
    handle_client c
    = Enqueued (mkItem (HttpTask (str_of "POST") (str_of "http://x/y")
                          (headers_of hs)
                          (firstn (Z.to_nat 5) (bytes_of "HELLOmore")))
                  (set_rd c r'))
    /\ content r' = skipn (Z.to_nat 5) (bytes_of "HELLOmore").
Proof.
  intros hs c.
  apply (handle_client_http c (str_of "POST") (str_of "http://x/y")
           (str_of "HTTP/1.1 and more") hs (bytes_of "HELLOmore") 5).
  - vm_compute. reflexivity.
  - vm_compute. discriminate.
  - reflexivity.
  - reflexivity.
  - reflexivity.
  - repeat constructor.
  - reflexivity.
  - reflexivity.
  - vm_compute. discriminate.
Defined.

(** X13. A request whose body cannot be read is dropped in silence.  With
    the same request head and a method other than CONNECT, when the value
    of [Content-Length] is not an integer, or is larger than the number of
    bytes the client sends before closing, the acceptor queues nothing and
    closes the client without writing a byte to it.  (Digits grouped by
    underscores, which [int] accepts and the model reports as
    [OutsideModel], are set aside.) *)
Theorem handle_client_bad_length (c : sock) (method target proto : str)
  (hs : list (str * str)) (rest : bytes) :
  content (rd c) = request_head method target proto hs ++ rest ->
  len (request_head method target proto hs) <= line_limit ->
  is_field method = true -> is_field target = true -> one_line proto = true ->
  Forall (fun kv => is_header kv = true) hs ->
  str_eqb (upper method) (str_of "CONNECT") = false ->
  match content_length (headers_of hs) with
  | Ok n => len rest < n
  | Err e => e <> OutsideModel
  end ->
  handle_client c = Closed (mkSock [] (out c) true (eof_sent c)).
Proof.
  intros Hc _ Hm Ht Hp Hh Hx Hl.
  destruct (parse_client_head c method target proto hs (bCRLF ++ rest) rest
              (request_head_open _ _ _ _ _ _ Hc) (or_introl eq_refl)
              Hm Ht Hp Hh) as (r1 & C1 & E).
  unfold handle_client. rewrite E, Hx. unfold bind at 1. unfold lift at 1.
  destruct (content_length (headers_of hs)) as [n|e]; [|reflexivity].
  unfold bind at 1.
  assert (E0 : (0 <? n) = true).
  { apply Z.ltb_lt. pose proof (len_nonneg rest). lia. }
  rewrite E0. unfold c_read_exact. cbn [rd set_rd].
  destruct (read_exact_eof r1 n) as (r2 & E2 & C2); [rewrite C1; exact Hl|].
  rewrite E2. reflexivity.
Qed.

Lemma handle_client_bad_length_witness :
  let hs := [(str_of "Content-Length", str_of "50")] in
  let c := fresh [request_head (str_of "POST") (str_of "http://x/y")
                    (str_of "HTTP/1.1") hs; bytes_of "HELLO"] in
  handle_client c = Closed (mkSock [] (out c) true (eof_sent c)).
Proof.
  intros hs c.
  apply (handle_client_bad_length c (str_of "POST") (str_of "http://x/y")
           (str_of "HTTP/1.1") hs (bytes_of "HELLO")).
  - vm_compute. reflexivity.
  - vm_compute. discriminate.
  - reflexivity.
  - reflexivity.
  - reflexivity.
  - repeat constructor.
  - reflexivity.
  - vm_compute. reflexivity.
Defined.

(** X14. A request head cut short by the end of the stream is queued all
    the same.  When the client closes after the request line and the
    header lines without sending the empty line that ends the head, the
    acceptor takes the end of the stream for the end of the headers: a
    request other than CONNECT that announces no body is queued with the
    headers read so far and an empty body. *)
Theorem handle_client_unterminated (c : sock) (method target proto : str)
  (hs : list (str * str)) (n : Z) :
  content (rd c) = open_head method target proto hs ->
  len (open_head method target proto hs) <= line_limit ->
  is_field method = true -> is_field target = true -> one_line proto = true ->
  Forall (fun kv => is_header kv = true) hs ->
  str_eqb (upper method) (str_of "CONNECT") = false ->
  content_length (headers_of hs) = Ok n ->
  n <= 0 ->
  exists r',
    handle_client c
    = Enqueued (mkItem (HttpTask method target (headers_of hs) [])
                  (set_rd c r'))
    /\ content r' = [].
Proof.
  intros Hc _ Hm Ht Hp Hh Hx Hl Hn.
  destruct (parse_client_head c method target proto hs [] []
              ltac:(rewrite app_nil_r; exact Hc)
              (or_intror (conj eq_refl eq_refl)) Hm Ht Hp Hh)
    as (r1 & C1 & E).
  unfold handle_client. rewrite E, Hx, Hl. unfold bind at 1. unfold lift at 1.
  unfold bind at 1.
  destruct (0 <? n) eqn:E0; [apply Z.ltb_lt in E0; lia|].
  exists r1. split; [reflexivity|exact C1].
Qed.

Lemma handle_client_unterminated_witness :
  let hs := [(str_of "Host", str_of "example.com")] in
  let c := fresh [open_head (str_of "GET") (str_of "http://example.com/")
                    (str_of "HTTP/1.1") hs] in
  exists r',
    handle_client c
    = Enqueued (mkItem (HttpTask (str_of "GET") (str_of "http://example.com/")
                          (headers_of hs) [])
                  (set_rd c r'))
    /\ content r' = [].
Proof.
  intros hs c.
  apply (handle_client_unterminated c (str_of "GET")
           (str_of "http://example.com/") (str_of "HTTP/1.1") hs 0).
  - vm_compute. reflexivity.
  - vm_compute. discriminate.
  - reflexivity.
  - reflexivity.
  - reflexivity.
  - repeat constructor.
  - reflexivity.
  - reflexivity.
  - apply Z.le_refl.
Defined.

Lemma split_contains (sep : ascii) (s : str) :
  contains sep s = true -> exists a b l, split sep s = a :: b :: l.
Proof.
  induction s as [|c s IH]; cbn [contains existsb split]; [discriminate|].
  rewrite Ascii.eqb_sym. destruct (Ascii.eqb c sep).
  - intros _. destruct s as [|c' s]; cbn [split]; [eauto|].
    destruct (Ascii.eqb c' sep); [eauto|].
    destruct (split sep s); eauto.
  - cbn [orb]. intros H. destruct (IH H) as (a & b & l & E).
    rewrite E. eauto.
Qed.

(** X15. What a CONNECT request puts on the queue depends on the colons of
    its target.  For a request head whose method is CONNECT in any letter
    case: a target without a colon is queued with port 443; a target
    [host:port] is queued with that host and [int(port)], and dropped when
    the port is not an integer; a target with two or more colons (a
    bracketed IPv6 address with a port, for one) is dropped.  A dropped
    request closes the client without a response.  Nothing after the head
    is read: it stays in the client's reader for the tunnel.  (The target
    holds no underscore, which [int] accepts between digits and the model
    does not.) *)
Theorem handle_client_connect (c : sock) (method target proto : str)
  (hs : list (str * str)) (rest : bytes) :
  content (rd c) = request_head method target proto hs ++ rest ->
  len (request_head method target proto hs) <= line_limit ->
  is_field method = true -> is_field target = true -> one_line proto = true ->
  contains "_"%char target = false ->
  Forall (fun kv => is_header kv = true) hs ->
  str_eqb (upper method) (str_of "CONNECT") = true ->
  exists r',
    content r' = rest
    /\ handle_client c =
       let dropped := Closed (mkSock [] (out c) true (eof_sent c)) in
       match split ":"%char target with
       | [host] => Enqueued (mkItem (ConnectTask host 443) (set_rd c r'))
       | [host; port] =>
           match int_of_str port with
           | Ok p => Enqueued (mkItem (ConnectTask host p) (set_rd c r'))
           | Err _ => dropped
           end
       | _ => dropped
       end.
Proof.
  intros Hc _ Hm Ht Hp _ Hh Hx.
  destruct (parse_client_head c method target proto hs (bCRLF ++ rest) rest
              (request_head_open _ _ _ _ _ _ Hc) (or_introl eq_refl)
              Hm Ht Hp Hh) as (r1 & C1 & E).
  exists r1. split; [exact C1|].
  unfold handle_client. rewrite E, Hx. unfold bind at 1.
  destruct (contains ":"%char target) eqn:Ec.
  - destruct (split_contains _ _ Ec) as (a & b & l & Es). rewrite Es.
    destruct l as [|x l]; [|reflexivity].
    unfold bind at 1. unfold lift at 1.
    destruct (int_of_str b); reflexivity.
  - rewrite (split_one _ _ Ec). reflexivity.
Qed.

Lemma handle_client_connect_witness :
  let c := fresh [request_head (str_of "connect") (str_of "[::1]:443")
                    (str_of "HTTP/1.1") [(str_of "Host", str_of "[::1]:443")];
                  bytes_of "hello"] in
  exists r',
    content r' = bytes_of "hello"
    /\ handle_client c =
       let dropped := Closed (mkSock [] (out c) true (eof_sent c)) in
       match split ":"%char (str_of "[::1]:443") with
       | [host] => Enqueued (mkItem (ConnectTask host 443) (set_rd c r'))
       | [host; port] =>
           match int_of_str port with
           | Ok p => Enqueued (mkItem (ConnectTask host p) (set_rd c r'))
           | Err _ => dropped
           end
       | _ => dropped
       end.
Proof.
  intros c.
  apply (handle_client_connect c (str_of "connect") (str_of "[::1]:443")
           (str_of "HTTP/1.1") [(str_of "Host", str_of "[::1]:443")]
           (bytes_of "hello")).
  - vm_compute. reflexivity.
  - vm_compute. discriminate.
  - reflexivity.
  - reflexivity.
  - reflexivity.
  - reflexivity.
  - repeat constructor.
  - reflexivity.
Defined.

(** ** The acceptor never writes *)

Lemma readline_writer (c : sock) :
  exists line r', readline c = (Ok line, set_rd c r').
Proof.
  unfold readline. destruct (readline_from (rd c) []) as [line r']. eauto.
Qed.

Lemma read_headers_writer (fuel : nat) :
  forall (acc : list (str * str)) (c : sock),
    exists r', snd (read_headers fuel acc c) = set_rd c r'.
Proof.
  induction fuel as [|fuel IH]; intros acc c; cbn [read_headers].
  - exists (rd c). destruct c; reflexivity.
  - unfold bind at 1. destruct (readline_writer c) as (line & r1 & E).
    rewrite E.
    destruct (bytes_eqb line [] || bytes_eqb line bCRLF); [exists r1; reflexivity|].
    unfold bind at 1. unfold lift at 1.
    destruct (utf8_decode line) as [text|e]; [|exists r1; reflexivity].
    destruct (split1 ":"%char (rstrip_crlf text)) as [[k v]|];
      [destruct (IH (headers_set acc (strip k) (strip v)) (set_rd c r1))
         as (r2 & E2)
      |destruct (IH acc (set_rd c r1)) as (r2 & E2)];
      rewrite E2; exists r2; reflexivity.
Qed.

Lemma parse_client_writer (c : sock) :
  exists r',
    match fst (parse_client c) with
    | Ok None => snd (parse_client c) = close c
    | _ => snd (parse_client c) = set_rd c r'
    end.
Proof.
  remember (parse_client c) as p eqn:Ep.
  unfold parse_client in Ep. unfold bind at 1 in Ep.
  destruct (readline_writer c) as (line & r1 & E). rewrite E in Ep.
  destruct line as [|x line].
  { subst p. exists []. cbn. reflexivity. }
  unfold bind at 1 in Ep. unfold lift at 1 in Ep.
  destruct (utf8_decode (x :: line)) as [text|e];
    [|subst p; exists r1; cbn; reflexivity].
  destruct (split SP (rstrip_crlf text)) as [|method [|target [|proto l]]];
    try (subst p; exists []; cbn; reflexivity).
  unfold bind at 1 in Ep. cbn [rd set_rd] in Ep.
  destruct (read_headers_writer (S (length (content r1))) [] (set_rd c r1))
    as (r2 & E2).
  destruct (read_headers _ [] (set_rd c r1)) as [[hs|e] c2]; cbn [snd] in E2;
    subst c2; [|subst p; exists r2; cbn; reflexivity].
  destruct (str_eqb (upper method) (str_of "CONNECT")).
  - unfold bind at 1 in Ep.
    destruct (contains ":"%char target); [|subst p; exists r2; cbn; reflexivity].
    destruct (split ":"%char target) as [|a [|b [|d l']]];
      try (subst p; exists r2; cbn; reflexivity).
    unfold bind at 1 in Ep. unfold lift at 1 in Ep.
    destruct (int_of_str b); subst p; exists r2; cbn; reflexivity.
  - unfold bind at 1 in Ep. unfold lift at 1 in Ep.
    assert (G : forall n : Z,
              exists r',
                snd ((body <- (if 0 <? n then c_read_exact n else ret []);;
                      ret (Some (HttpTask method target hs body)))
                       (set_rd (set_rd c r1) r2)) = set_rd c r'
                /\ fst ((body <- (if 0 <? n then c_read_exact n else ret []);;
                         ret (Some (HttpTask method target hs body)))
                          (set_rd (set_rd c r1) r2)) <> Ok None).
    { intros n. unfold bind. destruct (0 <? n).
      - unfold c_read_exact. cbn [rd set_rd].
        destruct (read_exact r2 n) as [[body|e] r3]; exists r3;
          split; try reflexivity; discriminate.
      - exists r2. split; [reflexivity|discriminate]. }
    destruct (headers_get (str_of "Content-Length") hs) as [[|y v]|];
      [destruct (G 0) as (r3 & G1 & G2)
      |destruct (int_of_str (y :: v)) as [n|e];
         [destruct (G n) as (r3 & G1 & G2)
         |subst p; exists r2; cbn; reflexivity]
      |destruct (G 0) as (r3 & G1 & G2)];
      subst p; exists r3;
      match goal with
      | |- match fst ?t with _ => _ end =>
          destruct (fst t) as [[?|]|?]; [exact G1|elim G2; reflexivity|exact G1]
      end.
Qed.

(** X16. The acceptor reads and never writes.  Whatever bytes a client
    sends, [handle_client] ends in one of two ways: it queues one work item
    with the client socket open and nothing written to it, or it queues
    nothing and closes the client, again with nothing written: a request
    it cannot parse gets no error response. *)
Theorem handle_client_never_writes (c : sock) :
  match handle_client c with
  | Enqueued it =>
      out (it_client it) = out c /\ closing (it_client it) = closing c
      /\ eof_sent (it_client it) = eof_sent c
  | Closed c' =>
      out c' = out c /\ closing c' = true /\ eof_sent c' = eof_sent c
  end.
Proof.
  unfold handle_client. destruct (parse_client_writer c) as (r' & H).
  destruct (parse_client c) as [[[t|]|e] c']; cbn [fst snd] in H; subst c';
    cbn [it_client set_rd close out closing eof_sent]; repeat split.
Qed.

(** ** Offshore: the bridge of a CONNECT *)

Lemma link_read_message_eq (l t : sock) :
  Offshore.link_read_message (Offshore.mkBridge l t)
  = (fst (read_message (rd l)),
     Offshore.mkBridge (set_rd l (snd (read_message (rd l)))) t).
Proof.
  unfold Offshore.link_read_message. cbn [Offshore.link Offshore.target].
  destruct (read_message (rd l)). reflexivity.
Qed.

Lemma set_rd_same (w : sock) : set_rd w (rd w) = w.
Proof. destruct w; reflexivity. Qed.

(** The loop of [ship_to_target] over frames that are not DATA_END, with
    the target live: the payloads of the DATA frames are written to the
    target in order, the other frames are skipped, and the loop goes on
    with what follows them. *)
Lemma uplink_to_target_frames (fs : list (json * bytes)) :
  forall (k : nat) (l t : sock) (bs rest : bytes),
    Forall (fun f => frame_wf f = true) fs ->
    (forall f, In f fs -> is_data_end f = false) ->
    encode_frames fs = Ok bs ->
    content (rd l) = bs ++ rest ->
    closing t = false ->
    exists r',
      content r' = rest
      /\ Offshore.uplink_to_target (length fs + k) (Offshore.mkBridge l t)
         = Offshore.uplink_to_target k
             (Offshore.mkBridge (set_rd l r')
                (mkSock (rd t) (out t ++ data_payloads fs) false (eof_sent t))).
Proof.
  induction fs as [|[h p] fs IH]; intros k l t bs rest Hwf Hne Hbs Hc Ht.
  - cbn [encode_frames] in Hbs. injection Hbs as <-.
    exists (rd l). split; [exact Hc|].
    cbn [length Nat.add data_payloads flat_map].
    rewrite set_rd_same, <- (sock_eta t Ht). reflexivity.
  - inversion Hwf as [|? ? Hwf1 Hwf']; subst.
    unfold frame_wf in Hwf1. apply andb_true_iff in Hwf1.
    destruct Hwf1 as [Hw1 Hw2]. cbn [fst snd] in *.
    apply encode_frames_cons_inv in Hbs.
    destruct Hbs as (a & b & Ea & Eb & ->). cbn [fst snd] in Ea.
    rewrite <- app_assoc in Hc.
    destruct (read_message_frame (rd l) h p a _ Hw1 Hw2 Ea Hc) as (r1 & Er & Cr).
    destruct (read_message_dict _ _ _ _ Er) as (d & Hd).
    assert (Hnd : is_str (frame_type h) "DATA_END" = false)
      by (apply (Hne (h, p)); left; reflexivity).
    cbn [length Nat.add Offshore.uplink_to_target].
    unfold bind at 1. rewrite link_read_message_eq, Er. cbn [fst snd].
    unfold bind at 1. unfold lift at 1. rewrite (get_type h d Hd).
    cbn [data_payloads flat_map]. unfold is_data at 1. cbn [fst snd].
    destruct (is_str (frame_type h) "DATA") eqn:Edata.
    + destruct p as [|x p].
      * unfold bind at 1. unfold ret at 1.
        destruct (IH k (set_rd l r1) t b rest Hwf'
                    (fun f Hf => Hne f (or_intror Hf)) Eb Cr Ht)
          as (r' & C' & E).
        exists r'. split; [exact C'|]. rewrite E. reflexivity.
      * unfold bind at 1. unfold bind at 1.
        unfold Offshore.target_write, Offshore.target_drain, modify.
        cbn [Offshore.link Offshore.target].
        rewrite write_out by exact Ht. unfold drain. cbn [closing].
        destruct (IH k (set_rd l r1)
                    (mkSock (rd t) (out t ++ x :: p) false (eof_sent t))
                    b rest Hwf' (fun f Hf => Hne f (or_intror Hf)) Eb Cr eq_refl)
          as (r' & C' & E).
        exists r'. split; [exact C'|]. rewrite E.
        cbn [rd out eof_sent]. rewrite <- app_assoc. reflexivity.
    + rewrite Hnd.
      destruct (IH k (set_rd l r1) t b rest Hwf'
                  (fun f Hf => Hne f (or_intror Hf)) Eb Cr Ht)
        as (r' & C' & E).
      exists r'. split; [exact C'|]. rewrite E. reflexivity.
Qed.

Lemma ship_to_target_fuel (l : sock) (fs : list (json * bytes))
  (bs rest : bytes) :
  encode_frames fs = Ok bs -> content (rd l) = bs ++ rest ->
  exists k, S (length (content (rd l))) = (length fs + S k)%nat.
Proof.
  intros Hbs Hc. apply encode_frames_length in Hbs.
  exists (length (content (rd l)) - length fs)%nat.
  rewrite Hc, length_app. lia.
Qed.

(** X17. [ship_to_target] delivers the Ship's DATA payloads to the target
    unchanged and in order.  With the target live, for frames [fs] none of
    which is DATA_END followed by a DATA_END frame, it writes to the
    target exactly the payloads of the DATA frames among [fs], in order,
    skips the frames of any other type, then closes the target; it writes
    nothing to the uplink and leaves its reader right after the DATA_END
    frame. *)
Theorem ship_to_target_frames (fs : list (json * bytes)) (l t : sock)
  (bs tail : bytes) :
  Forall (fun f => frame_wf f = true) fs ->
  (forall f, In f fs -> is_data_end f = false) ->
  encode_frames fs = Ok bs ->
  content (rd l) = bs ++ frames_wire [data_end_frame] ++ tail ->
  closing t = false ->
  exists r',
    Offshore.ship_to_target (Offshore.mkBridge l t)
    = (Ok tt,
       Offshore.mkBridge (set_rd l r')
         (mkSock [] (out t ++ data_payloads fs) true (eof_sent t)))
    /\ content r' = tail.
Proof.
  intros Hwf Hne Hbs Hc Ht.
  destruct (ship_to_target_fuel l fs bs _ Hbs Hc) as (k & Hk).
  destruct (uplink_to_target_frames fs (S k) l t bs _ Hwf Hne Hbs Hc Ht)
    as (r1 & C1 & E1).
  destruct (read_message_frame r1 (fst data_end_frame) (snd data_end_frame)
              _ tail eq_refl eq_refl data_end_frame_bytes C1)
    as (r2 & E2 & C2).
  exists r2. split; [|exact C2].
  unfold Offshore.ship_to_target, try_except. cbn [Offshore.link].
  rewrite Hk, E1. cbn [Offshore.uplink_to_target].
  unfold bind at 1. rewrite link_read_message_eq. cbn [rd set_rd].
  rewrite E2. reflexivity.
Qed.

Lemma ship_to_target_frames_witness :
  let fs := [data_frame (bytes_of "GET / HTTP/1.0"); error_frame;
             data_frame (bytes_of "...")] in
  let l := fresh [frames_wire fs; frames_wire [data_end_frame]; bytes_of "next"] in
  let t := fresh [bytes_of "unread"] in
  exists r',
    Offshore.ship_to_target (Offshore.mkBridge l t)
    = (Ok tt,
       Offshore.mkBridge (set_rd l r')
         (mkSock [] (out t ++ data_payloads fs) true (eof_sent t)))
    /\ content r' = bytes_of "next".
Proof.
  intros fs l t.
  apply (ship_to_target_frames fs l t (frames_wire fs) (bytes_of "next")).
  - repeat constructor.
  - intros f [<-|[<-|[<-|[]]]]; reflexivity.
  - vm_compute. reflexivity.
  - vm_compute. reflexivity.
  - reflexivity.
Defined.

(** X18. When the uplink ends inside a tunnel, the target is left open.
    With the target live, for frames [fs] none of which is DATA_END
    followed by the end of the stream (fewer than four bytes left),
    [ship_to_target] writes the DATA payloads to the target, swallows the
    [EOFError] of the next read and returns: the target socket has not
    been closed. *)
Theorem ship_to_target_link_lost (fs : list (json * bytes)) (l t : sock)
  (bs junk : bytes) :
  Forall (fun f => frame_wf f = true) fs ->
  (forall f, In f fs -> is_data_end f = false) ->
  encode_frames fs = Ok bs ->
  content (rd l) = bs ++ junk ->
  len junk < 4 ->
  closing t = false ->
  exists r',
    Offshore.ship_to_target (Offshore.mkBridge l t)
    = (Ok tt,
       Offshore.mkBridge (set_rd l r')
         (mkSock (rd t) (out t ++ data_payloads fs) false (eof_sent t)))
    /\ content r' = [].
Proof.
  intros Hwf Hne Hbs Hc Hj Ht.
  destruct (ship_to_target_fuel l fs bs _ Hbs Hc) as (k & Hk).
  destruct (uplink_to_target_frames fs (S k) l t bs _ Hwf Hne Hbs Hc Ht)
    as (r1 & C1 & E1).
  destruct (read_exact_eof r1 4) as (r2 & E2 & C2); [rewrite C1; exact Hj|].
  exists r2. split; [|exact C2].
  unfold Offshore.ship_to_target, try_except. cbn [Offshore.link].
  rewrite Hk, E1. cbn [Offshore.uplink_to_target].
  unfold bind at 1. rewrite link_read_message_eq. cbn [rd set_rd].
  unfold read_message. rewrite E2. reflexivity.
Qed.

Lemma ship_to_target_link_lost_witness :
  let fs := [data_frame (bytes_of "half a requ")] in
  let l := fresh [frames_wire fs] in
  let t := fresh [bytes_of "unread"] in
  exists r',
    Offshore.ship_to_target (Offshore.mkBridge l t)
    = (Ok tt,
       Offshore.mkBridge (set_rd l r')
         (mkSock (rd t) (out t ++ data_payloads fs) false (eof_sent t)))
    /\ content r' = [].
Proof.
  intros fs l t.
  apply (ship_to_target_link_lost fs l t (frames_wire fs) []).
  - repeat constructor.
  - intros f [<-|[]]; reflexivity.
  - vm_compute. reflexivity.
  - vm_compute. reflexivity.
  - reflexivity.
  - reflexivity.
Defined.

Lemma link_send_live (l t : sock) (h : json) (body bs : bytes) :
  closing l = false ->
  frame_bytes h body = Ok bs ->
  Offshore.link_send h body (Offshore.mkBridge l t)
  = (Ok tt,
     Offshore.mkBridge (mkSock (rd l) (out l ++ bs) false (eof_sent l)) t).
Proof.
  intros Hc Hf. unfold Offshore.link_send. cbn [Offshore.link Offshore.target].
  rewrite send_message_frame by exact Hc. rewrite Hf. reflexivity.
Qed.

Lemma target_to_uplink_frames (fuel : nat) :
  forall (l t : sock),
    closing l = false ->
    (length (content (rd t)) < fuel)%nat ->
    exists chunks bs,
      concat chunks = content (rd t)
      /\ chunks_ok 1024 chunks
      /\ encode_frames (map data_frame chunks ++ [data_end_frame]) = Ok bs
      /\ Offshore.target_to_uplink fuel (Offshore.mkBridge l t)
         = (Ok tt,
            Offshore.mkBridge (mkSock (rd l) (out l ++ bs) false (eof_sent l))
              (set_rd t [])).
Proof.
  induction fuel as [|fuel IH]; intros l t Hl Hf; [lia|].
  cbn [Offshore.target_to_uplink]. unfold bind at 1.
  unfold Offshore.target_read. cbn [Offshore.link Offshore.target].
  destruct (read_spec (rd t) 1024 ltac:(lia))
    as (chunk & r' & E & Hc & Hn & He & _).
  rewrite E. destruct chunk as [|x chunk].
  - destruct (He eq_refl) as [Hc0 ->].
    exists [], (frames_wire [data_end_frame]).
    split; [rewrite Hc0; reflexivity|]. split; [constructor|].
    split; [vm_compute; reflexivity|].
    apply (link_send_live l (set_rd t []) _ _ _ Hl data_end_frame_bytes).
  - destruct (data_frame_bytes (x :: chunk) ltac:(lia)) as [fb Hfb].
    unfold bind at 1.
    rewrite (link_send_live l (set_rd t r') _ _ fb Hl Hfb).
    destruct (IH (mkSock (rd l) (out l ++ fb) false (eof_sent l))
                (set_rd t r') eq_refl) as (chunks & bs & H1 & H2 & H3 & H4).
    { cbn [rd set_rd]. rewrite <- Hc, length_app in Hf. cbn [length] in Hf. lia. }
    exists ((x :: chunk) :: chunks), (fb ++ bs).
    split; [cbn [concat]; cbn [rd set_rd] in H1; rewrite H1; exact Hc|].
    split.
    { constructor; [|exact H2]. unfold len in *. cbn [length] in *. lia. }
    split.
    { cbn [map app]. apply encode_frames_cons; [exact Hfb|exact H3]. }
    rewrite H4. cbn [rd out eof_sent set_rd]. rewrite <- app_assoc. reflexivity.
Qed.

(** X19. [target_to_ship] forwards the target's bytes to the Ship
    unchanged and in order: on a live uplink it writes DATA frames whose
    payloads, each between 1 and 1024 bytes long and with [body_len] set to
    its length, concatenate to exactly what the target sent before closing,
    and then one DATA_END frame; it writes nothing to the target. *)
Theorem target_to_ship_frames (l t : sock) :
  closing l = false ->
  exists chunks bs,
    concat chunks = content (rd t)
    /\ chunks_ok 1024 chunks
    /\ encode_frames (map data_frame chunks ++ [data_end_frame]) = Ok bs
    /\ Offshore.target_to_ship (Offshore.mkBridge l t)
       = (Ok tt,
          Offshore.mkBridge (mkSock (rd l) (out l ++ bs) false (eof_sent l))
            (set_rd t [])).
Proof.
  intros Hl.
  destruct (target_to_uplink_frames (S (length (content (rd t)))) l t Hl
              ltac:(lia)) as (chunks & bs & H1 & H2 & H3 & H4).
  exists chunks, bs. repeat split; try assumption.
  unfold Offshore.target_to_ship, try_except. cbn [Offshore.target].
  rewrite H4. reflexivity.
Qed.

Lemma target_to_ship_frames_witness :
  let t := fresh [bytes_of "HTTP/1.0 200 OK"; bCRLF ++ bCRLF] in
  exists chunks bs,
    concat chunks = content (rd t)
    /\ chunks_ok 1024 chunks
    /\ encode_frames (map data_frame chunks ++ [data_end_frame]) = Ok bs
    /\ Offshore.target_to_ship (Offshore.mkBridge (fresh []) t)
       = (Ok tt,
          Offshore.mkBridge (mkSock [] ([] ++ bs) false false) (set_rd t [])).
Proof.
  intros t. apply (target_to_ship_frames (fresh []) t). reflexivity.
Defined.

(** ** Offshore: the serving loop *)

Section Serving.

Variable http_request :
  json -> json -> json -> bytes -> result (Z * list (str * str) * bytes).
Variable open_connection : json -> Z -> result sock.
Variable message : exn -> str.
Variable schedule : list bool.

Lemma getitem_dict (h v : json) (k : str) :
  getitem h k = Ok v -> exists d, h = JObj d.
Proof. destruct h; try discriminate. eauto. Qed.

Lemma offshore_answers (w : sock) (h : json) (b : bytes) (m u : json) :
  is_str (frame_type h) "HTTPRequest" = true ->
  getitem h (str_of "method") = Ok m ->
  getitem h (str_of "url") = Ok u ->
  closing w = false ->
  Offshore.handle_http_request http_request h b w
  = (Ok tt,
     mkSock (rd w) (out w ++ offshore_answer http_request (h, b)) false
       (eof_sent w)).
Proof.
  intros Ht Hm Hu Hw.
  unfold offshore_answer. cbn [fst snd]. rewrite Ht, Hm, Hu.
  unfold Offshore.handle_http_request, bind, lift. rewrite Hm, Hu.
  destruct (getitem_dict _ _ _ Hm) as [d ->].
  cbn [get request_headers]. unfold try_except.
  destruct (http_request m u _ b) as [[[status rh] rb]|e].
  - rewrite send_message_frame by exact Hw.
    destruct (frame_bytes (Offshore.response_header status rh rb) rb) as [bs|e];
      [reflexivity|].
    rewrite send_message_frame by exact Hw.
    rewrite bad_gateway_frame_bytes. reflexivity.
  - rewrite send_message_frame by exact Hw.
    rewrite bad_gateway_frame_bytes. reflexivity.
Qed.

Lemma ship_read_message_eq (w : sock) :
  Offshore.ship_read_message w
  = (fst (read_message (rd w)), set_rd w (snd (read_message (rd w)))).
Proof.
  unfold Offshore.ship_read_message. destruct (read_message (rd w)).
  reflexivity.
Qed.

(** The loop of [handle_ship] over frames it can serve. *)
Lemma serve_frames (fs : list (json * bytes)) :
  forall (k : nat) (w : sock) (bs rest : bytes),
    Forall (fun f => served f = true) fs ->
    encode_frames fs = Ok bs ->
    content (rd w) = bs ++ rest ->
    closing w = false ->
    exists r',
      content r' = rest
      /\ Offshore.serve http_request open_connection message schedule
           (length fs + k) w
         = Offshore.serve http_request open_connection message schedule k
             (mkSock r' (out w ++ flat_map (offshore_answer http_request) fs)
                false (eof_sent w)).
Proof.
  induction fs as [|[h p] fs IH]; intros k w bs rest Hs Hbs Hc Hw.
  - cbn [encode_frames] in Hbs. injection Hbs as <-.
    exists (rd w). split; [exact Hc|].
    cbn [length Nat.add flat_map]. rewrite <- (sock_eta w Hw). reflexivity.
  - inversion Hs as [|? ? Hs1 Hs']; subst.
    unfold served in Hs1. cbn [fst snd] in Hs1.
    apply andb_true_iff in Hs1. destruct Hs1 as [Hs1 Hre].
    apply andb_true_iff in Hs1. destruct Hs1 as [Hwf Hnc].
    apply negb_true_iff in Hnc.
    unfold frame_wf in Hwf. apply andb_true_iff in Hwf.
    destruct Hwf as [Hw1 Hw2]. cbn [fst snd] in *.
    apply encode_frames_cons_inv in Hbs.
    destruct Hbs as (a & b & Ea & Eb & ->). cbn [fst snd] in Ea.
    rewrite <- app_assoc in Hc.
    destruct (read_message_frame (rd w) h p a _ Hw1 Hw2 Ea Hc) as (r1 & Er & Cr).
    destruct (read_message_dict _ _ _ _ Er) as (d & Hd).
    cbn [length Nat.add Offshore.serve].
    unfold bind at 1. rewrite ship_read_message_eq, Er. cbn [fst snd].
    unfold bind at 1. unfold lift at 1. rewrite (get_type h d Hd).
    unfold bind at 1. cbn [flat_map].
    destruct (is_str (frame_type h) "HTTPRequest") eqn:Et.
    + unfold request_error in Hre. rewrite Et in Hre.
      destruct (getitem h (str_of "method")) as [m|] eqn:Em; [|discriminate].
      destruct (getitem h (str_of "url")) as [u|] eqn:Eu; [|discriminate].
      rewrite (offshore_answers (set_rd w r1) h p m u Et Em Eu Hw).
      cbn [rd set_rd out eof_sent].
      destruct (IH k (mkSock r1 (out w ++ offshore_answer http_request (h, p))
                        false (eof_sent w)) b rest Hs' Eb Cr eq_refl)
        as (r' & C' & E).
      exists r'. split; [exact C'|]. rewrite E.
      cbn [out eof_sent]. rewrite <- app_assoc. reflexivity.
    + rewrite Hnc. unfold ret at 1.
      assert (Ea0 : offshore_answer http_request (h, p) = []).
      { unfold offshore_answer. cbn [fst]. rewrite Et. reflexivity. }
      rewrite Ea0. cbn [app].
      destruct (IH k (set_rd w r1) b rest Hs' Eb Cr Hw) as (r' & C' & E).
      exists r'. split; [exact C'|]. rewrite E. reflexivity.
Qed.

Lemma serve_fuel (w : sock) (fs : list (json * bytes)) (bs rest : bytes) :
  encode_frames fs = Ok bs -> content (rd w) = bs ++ rest ->
  exists k, S (length (content (rd w))) = (length fs + S k)%nat.
Proof.
  intros Hbs Hc. apply encode_frames_length in Hbs.
  exists (length (content (rd w)) - length fs)%nat.
  rewrite Hc, length_app. lia.
Qed.

(** X20. The Offshore answers the requests of the uplink one by one, in
    order, until the Ship hangs up.  For frames [fs] that are well formed
    and not CONNECT, followed by the end of the stream, [handle_ship]
    writes to the uplink exactly one frame per HTTPRequest frame, in the
    order of the requests (the response of the HTTP client, or the
    synthetic 502 when the client raises or the response cannot be framed)
    and nothing for a frame of an unknown type; when the stream ends it
    closes the uplink. *)
Theorem handle_ship_answers_in_order (fs : list (json * bytes)) (w : sock)
  (bs junk : bytes) :
  Forall (fun f => served f = true) fs ->
  encode_frames fs = Ok bs ->
  content (rd w) = bs ++ junk ->
  len junk < 4 ->
  closing w = false ->
  Offshore.handle_ship http_request open_connection message schedule w
  = (Ok tt,
     mkSock [] (out w ++ flat_map (offshore_answer http_request) fs) true
       (eof_sent w)).
Proof.
  intros Hs Hbs Hc Hj Hw.
  destruct (serve_fuel w fs bs junk Hbs Hc) as (k & Hk).
  destruct (serve_frames fs (S k) w bs junk Hs Hbs Hc Hw) as (r1 & C1 & E1).
  destruct (read_exact_eof r1 4) as (r2 & E2 & C2); [rewrite C1; exact Hj|].
  unfold Offshore.handle_ship, try_except. rewrite Hk, E1.
  cbn [Offshore.serve]. unfold bind at 1.
  rewrite ship_read_message_eq. cbn [rd]. unfold read_message. rewrite E2.
  reflexivity.
Qed.

(** X21. One request frame with a missing field takes the uplink down.
    After frames [fs] served as above, a well-formed HTTPRequest frame
    without [method] or [url], or a CONNECT frame without [host] or [port]
    or with a [port] that is not an integer, raises before the handler's
    [try] is entered: [handle_ship] writes nothing for it, closes the
    uplink and never reads what follows. *)
Theorem handle_ship_drops_bad_request (fs : list (json * bytes)) (w : sock)
  (bs fb tail : bytes) (h : json) (p : bytes) (e : exn) :
  Forall (fun f => served f = true) fs ->
  encode_frames fs = Ok bs ->
  frame_wf (h, p) = true ->
  frame_bytes h p = Ok fb ->
  request_error h = Some e ->
  e <> OutsideModel ->
  content (rd w) = bs ++ fb ++ tail ->
  closing w = false ->
  Offshore.handle_ship http_request open_connection message schedule w
  = (Ok tt,
     mkSock [] (out w ++ flat_map (offshore_answer http_request) fs) true
       (eof_sent w)).
Proof.
  intros Hs Hbs Hwf Hfb He _ Hc Hw.
  destruct (serve_fuel w fs bs _ Hbs Hc) as (k & Hk).
  destruct (serve_frames fs (S k) w bs _ Hs Hbs Hc Hw) as (r1 & C1 & E1).
  unfold frame_wf in Hwf. apply andb_true_iff in Hwf.
  destruct Hwf as [Hw1 Hw2]. cbn [fst snd] in *.
  destruct (read_message_frame r1 h p fb tail Hw1 Hw2 Hfb C1) as (r2 & E2 & C2).
  destruct (read_message_dict _ _ _ _ E2) as (d & Hd).
  unfold Offshore.handle_ship, try_except. rewrite Hk, E1.
  cbn [Offshore.serve]. unfold bind at 1.
  rewrite ship_read_message_eq. cbn [rd]. rewrite E2. cbn [fst snd].
  unfold bind at 1. unfold lift at 1. rewrite (get_type h d Hd).
  unfold bind at 1. unfold request_error in He.
  destruct (is_str (frame_type h) "HTTPRequest").
  - unfold Offshore.handle_http_request. unfold bind at 1. unfold lift at 1.
    destruct (getitem h (str_of "method")) as [m|e1]; [|reflexivity].
    unfold bind at 1. unfold lift at 1.
    destruct (getitem h (str_of "url")) as [u|e1]; [discriminate He|reflexivity].
  - destruct (is_str (frame_type h) "CONNECT"); [|discriminate He].
    unfold Offshore.handle_connect. unfold bind at 1. unfold lift at 1.
    destruct (getitem h (str_of "host")) as [host|e1]; [|reflexivity].
    unfold bind at 1. unfold lift at 1.
    destruct (getitem h (str_of "port")) as [pv|e1]; [|reflexivity].
    unfold bind at 1. unfold lift at 1.
    destruct (Offshore.int_of pv) as [port|e1]; [discriminate He|reflexivity].
Qed.

End Serving.

Lemma handle_ship_answers_in_order_witness :
  let fs := [(sample_get_header, []); error_frame;
             (http_request_header (str_of "POST") (str_of "http://x/y") []
                (bytes_of "hi"), bytes_of "hi")] in
  let w := fresh [frames_wire fs; [x00; x00]] in
  Offshore.handle_ship hello_client (fun _ _ => Err OSError) (fun _ => [])
    [] w
  = (Ok tt,
     mkSock [] (out w ++ flat_map (offshore_answer hello_client) fs) true
       (eof_sent w)).
Proof.
  intros fs w.
  apply (handle_ship_answers_in_order hello_client (fun _ _ => Err OSError)
           (fun _ => []) [] fs w (frames_wire fs) [x00; x00]).
  - repeat constructor.
  - vm_compute. reflexivity.
  - vm_compute. reflexivity.
  - reflexivity.
  - reflexivity.
Defined.

Lemma handle_ship_drops_bad_request_witness :
  let fs := [(sample_get_header, [])] in
  let h := JObj [(k_type, JStr (str_of "CONNECT"));
                 (str_of "host", JStr (str_of "example.com"));
                 (str_of "port", JStr (str_of "https"))] in
  let w := fresh [frames_wire fs; frames_wire [(h, [])];
                  frames_wire [(sample_get_header, [])]] in
  Offshore.handle_ship hello_client (fun _ _ => Err OSError) (fun _ => [])
    [] w
  = (Ok tt,
     mkSock [] (out w ++ flat_map (offshore_answer hello_client) fs) true
       (eof_sent w)).
Proof.
  intros fs h w.
  apply (handle_ship_drops_bad_request hello_client (fun _ _ => Err OSError)
           (fun _ => []) [] fs w (frames_wire fs)
           (frames_wire [(h, [])]) (frames_wire [(sample_get_header, [])])
           h [] ValueError).
  - repeat constructor.
  - vm_compute. reflexivity.
  - reflexivity.
  - vm_compute. reflexivity.
  - reflexivity.
  - discriminate.
  - vm_compute. reflexivity.
  - reflexivity.
Defined.

(** ** Ship and Offshore together *)

Lemma request_header_wf (method target : str) (headers : list (str * str))
  (body : bytes) :
  keys_unique (map fst headers) = true ->
  frame_wf (http_request_header method target headers body, body) = true.
Proof.
  intros Hk. unfold frame_wf, http_request_header. cbn [fst snd].
  apply andb_true_iff. split.
  - pose proof (wf_str_dict _ Hk) as W.
    cbn [wf_json map fst snd forallb]. rewrite W. reflexivity.
  - cbn. apply Z.eqb_refl.
Qed.

Lemma serve_at_eof
  (http_request : json -> json -> json -> bytes ->
                  result (Z * list (str * str) * bytes))
  (open_connection : json -> Z -> result sock) (message : exn -> str)
  (schedule : list bool)
  (k : nat) (w : sock) :
  len (content (rd w)) < 4 ->
  exists r',
    Offshore.serve http_request open_connection message schedule (S k) w
    = (Err EOFError, set_rd w r').
Proof.
  intros Hj. destruct (read_exact_eof (rd w) 4 Hj) as (r2 & E2 & C2).
  exists r2. cbn [Offshore.serve]. unfold bind at 1.
  rewrite ship_read_message_eq. unfold read_message. rewrite E2. reflexivity.
Qed.

(** X22. A plain request, end to end.  The request frame the Ship writes
    for a client's method, target, headers and body makes the Offshore
    call its HTTP client with exactly that method, URL, header dictionary
    and body; the frame the Offshore writes for the client's response
    makes the Ship send its client that status, that body, and the
    response headers as [dict(resp.headers)] holds them: one line per
    name, with the value of the first header of that name.  [req] and
    [resp] are the two frames on the wire. *)
Theorem plain_http_end_to_end
  (http_request : json -> json -> json -> bytes ->
                  result (Z * list (str * str) * bytes))
  (open_connection : json -> Z -> result sock) (message : exn -> str)
  (schedule : list bool)
  (method target : str) (headers : list (str * str)) (body : bytes)
  (status : Z) (rh : list (str * str)) (rb : bytes)
  (req resp tail : bytes) (w u c : sock) :
  keys_unique (map fst headers) = true ->
  frame_bytes (http_request_header method target headers body) body = Ok req ->
  http_request (JStr method) (JStr target) (str_dict headers) body
  = Ok (status, rh, rb) ->
  frame_bytes (Offshore.response_header status rh rb) rb = Ok resp ->
  closing w = false -> content (rd w) = req ->
  closing u = false -> closing c = false -> content (rd u) = resp ++ tail ->
  Offshore.handle_ship http_request open_connection message schedule w
  = (Ok tt, mkSock [] (out w ++ resp) true (eof_sent w))
  /\ exists r',
       handle_http_request method target headers body (mkH (Some u) c)
       = (Ok tt,
          mkH (Some (mkSock r' (out u ++ req) false (eof_sent u)))
            (mkSock [] (out c ++ http_response status (response_headers rh) rb)
               true (eof_sent c)))
       /\ content r' = tail.
Proof.
  intros Hk Hq Hh Hp Hw Hcw Hu Hc Hcu.
  split.
  2:{ apply (relay_response method target headers body req resp tail u c
               status (response_headers rh) rb Hu Hc
               (response_headers_unique rh) Hq); [|exact Hcu].
      unfold Offshore.response_header in Hp.
      rewrite dict_of_response_headers in Hp. exact Hp. }
  set (f := (http_request_header method target headers body, body)).
  assert (Hs : Forall (fun f => served f = true) [f]).
  { constructor; [|constructor]. unfold served, f.
    rewrite (request_header_wf method target headers body Hk). reflexivity. }
  assert (Hb : encode_frames [f] = Ok (req ++ [])).
  { apply encode_frames_cons; [exact Hq|reflexivity]. }
  assert (Hcw' : content (rd w) = (req ++ []) ++ []).
  { rewrite !app_nil_r. exact Hcw. }
  destruct (serve_fuel w [f] _ _ Hb Hcw') as (k & Hk').
  destruct (serve_frames http_request open_connection message schedule [f] (S k)
              w _ _ Hs Hb Hcw' Hw) as (r1 & C1 & E1).
  destruct (serve_at_eof http_request open_connection message schedule k
              (mkSock r1 (out w ++ flat_map (offshore_answer http_request) [f])
                 false (eof_sent w))) as (r2 & E2).
  { cbn [rd]. rewrite C1. reflexivity. }
  unfold Offshore.handle_ship, try_except. rewrite Hk', E1, E2.
  cbn [flat_map]. rewrite app_nil_r.
  unfold offshore_answer, f. cbn [fst snd].
  change (is_str (frame_type (http_request_header method target headers body))
            "HTTPRequest") with true.
  cbv iota.
  change (getitem (http_request_header method target headers body)
            (str_of "method")) with (@Ok json (JStr method)).
  change (getitem (http_request_header method target headers body)
            (str_of "url")) with (@Ok json (JStr target)).
  change (request_headers (http_request_header method target headers body))
    with (str_dict headers).
  cbv iota. rewrite Hh, Hp. reflexivity.
Qed.

Lemma plain_http_end_to_end_witness :
  let headers := [(str_of "Host", str_of "example.com")] in
  let rh := [ (str_of "Set-Cookie", str_of "a=1");
              (str_of "Content-Type", str_of "text/plain");
              (str_of "Set-Cookie", str_of "b=2");
              (str_of "set-cookie", str_of "c=3") ] in
  let req := frames_wire [(http_request_header (str_of "GET")
                             (str_of "http://example.com/") headers [], [])] in
  let resp := frames_wire [(Offshore.response_header 200 rh (bytes_of "hello"),
                            bytes_of "hello")] in
  let w := fresh [req] in
  let u := fresh [resp] in
  let c := fresh [] in
  Offshore.handle_ship cookie_client (fun _ _ => Err OSError) (fun _ => [])
    [] w
  = (Ok tt, mkSock [] (out w ++ resp) true (eof_sent w))
  /\ exists r',
       handle_http_request (str_of "GET") (str_of "http://example.com/")
         headers [] (mkH (Some u) c)
       = (Ok tt,
          mkH (Some (mkSock r' (out u ++ req) false (eof_sent u)))
            (mkSock [] (out c ++ http_response 200 (response_headers rh)
                                   (bytes_of "hello")) true (eof_sent c)))
       /\ content r' = [].
Proof.
  intros headers rh req resp w u c.
  apply (plain_http_end_to_end cookie_client (fun _ _ => Err OSError)
           (fun _ => []) [] (str_of "GET")
           (str_of "http://example.com/") headers [] 200 rh (bytes_of "hello")
           req resp [] w u c).
  - reflexivity.
  - vm_compute. reflexivity.
  - reflexivity.
  - vm_compute. reflexivity.
  - reflexivity.
  - vm_compute. reflexivity.
  - reflexivity.
  - reflexivity.
  - vm_compute. reflexivity.
Defined.

(** The dictionary of a response that repeats a header name: the name
    keeps the value of its first header, and a second spelling of the
    name gets that value too. *)
Example response_headers_first_wins :
  response_headers
    [ (str_of "Set-Cookie", str_of "a=1");
      (str_of "Content-Type", str_of "text/plain");
      (str_of "Set-Cookie", str_of "b=2");
      (str_of "set-cookie", str_of "c=3") ]
  = [ (str_of "Set-Cookie", str_of "a=1");
      (str_of "Content-Type", str_of "text/plain");
      (str_of "set-cookie", str_of "a=1") ].
Proof. reflexivity. Qed.

(** X23. A CONNECT the Offshore cannot dial, end to end.  The CONNECT
    frame the Ship writes for [host] and [port] makes the Offshore call
    [open_connection] with that host and port; when the call raises, the
    Offshore answers with one ERROR frame carrying the text of the
    exception and no CONNECT_OK, and that frame makes the Ship send its
    client the fixed 502 response and close it, with the uplink still in
    step. *)
Theorem connect_refused_end_to_end
  (http_request : json -> json -> json -> bytes ->
                  result (Z * list (str * str) * bytes))
  (open_connection : json -> Z -> result sock) (message : exn -> str)
  (schedule : list bool)
  (host : str) (port : Z) (e : exn) (req resp tail : bytes) (w u c : sock) :
  frame_bytes (connect_header host port) [] = Ok req ->
  open_connection (JStr host) port = Err e ->
  frame_bytes (Offshore.error_header (message e)) [] = Ok resp ->
  closing w = false -> content (rd w) = req ->
  closing u = false -> closing c = false -> content (rd u) = resp ++ tail ->
  Offshore.handle_ship http_request open_connection message schedule w
  = (Ok tt, mkSock [] (out w ++ resp) true (eof_sent w))
  /\ exists r',
       handle_connect host port (mkH (Some u) c)
       = (Ok tt,
          mkH (Some (mkSock r' (out u ++ req) false (eof_sent u)))
            (mkSock [] (out c ++ bad_gateway) true (eof_sent c)))
       /\ content r' = tail.
Proof.
  intros Hq Ho Hp Hw Hcw Hu Hc Hcu. split.
  - assert (Hcw' : content (rd w) = req ++ []) by (rewrite app_nil_r; exact Hcw).
    destruct (read_message_frame (rd w) (connect_header host port) [] req []
                eq_refl eq_refl Hq Hcw') as (r1 & E1 & C1).
    pose proof (frame_bytes_length _ _ _ Hq) as Hlen.
    destruct (length (content (rd w))) as [|k] eqn:Ek;
      [rewrite Hcw in Ek; rewrite Ek in Hlen; lia|].
    destruct (serve_at_eof http_request open_connection message schedule k
                (mkSock r1 (out w ++ resp) false (eof_sent w))) as (r2 & E2).
    { cbn [rd]. rewrite C1. reflexivity. }
    unfold Offshore.handle_ship, try_except. rewrite Ek.
    change (Offshore.serve http_request open_connection message schedule
              (S (S k)) w)
      with ((m <- Offshore.ship_read_message ;;
             let (header, body) := (m : json * bytes) in
             mtype <- lift (get header k_type) ;;
             (if is_str mtype "HTTPRequest" then
                Offshore.handle_http_request http_request header body
              else if is_str mtype "CONNECT" then
                Offshore.handle_connect open_connection message schedule header
              else ret tt) ;;;
             Offshore.serve http_request open_connection message schedule (S k))
              w).
    unfold bind at 1. rewrite ship_read_message_eq, E1. cbn [fst snd].
    unfold bind at 1. unfold lift at 1.
    change (get (connect_header host port) k_type)
      with (@Ok (option json) (Some (JStr (str_of "CONNECT")))).
    unfold bind at 1.
    change (is_str (Some (JStr (str_of "CONNECT"))) "HTTPRequest") with false.
    change (is_str (Some (JStr (str_of "CONNECT"))) "CONNECT") with true.
    cbv iota.
    assert (Eh : Offshore.handle_connect open_connection message schedule
                   (connect_header host port) (set_rd w r1)
                 = (Ok tt, mkSock r1 (out w ++ resp) false (eof_sent w))).
    { unfold Offshore.handle_connect, bind, lift.
      change (getitem (connect_header host port) (str_of "host"))
        with (@Ok json (JStr host)).
      change (getitem (connect_header host port) (str_of "port"))
        with (@Ok json (JInt port)).
      cbn [Offshore.int_of]. unfold try_except. rewrite Ho.
      rewrite send_message_frame by exact Hw. rewrite Hp. reflexivity. }
    rewrite Eh, E2. reflexivity.
  - destruct (read_message_frame (rd u) (Offshore.error_header (message e)) []
                resp tail eq_refl eq_refl Hp Hcu) as (r' & Er & Cr).
    exists r'. split; [|exact Cr].
    rewrite (handle_connect_eq host port u c req _ _ r' Hu Hc Hq Er).
    reflexivity.
Qed.

Lemma connect_refused_end_to_end_witness :
  let req := frames_wire [(connect_header (str_of "example.com") 443, [])] in
  let resp := frames_wire [(Offshore.error_header (str_of "refused"), [])] in
  let w := fresh [req] in
  let u := fresh [resp] in
  let c := fresh [bytes_of "hello"] in
  Offshore.handle_ship hello_client (fun _ _ => Err OSError)
    (fun _ => str_of "refused") [] w
  = (Ok tt, mkSock [] (out w ++ resp) true (eof_sent w))
  /\ exists r',
       handle_connect (str_of "example.com") 443 (mkH (Some u) c)
       = (Ok tt,
          mkH (Some (mkSock r' (out u ++ req) false (eof_sent u)))
            (mkSock [] (out c ++ bad_gateway) true (eof_sent c)))
       /\ content r' = [].
Proof.
  intros req resp w u c.
  apply (connect_refused_end_to_end hello_client (fun _ _ => Err OSError)
           (fun _ => str_of "refused") [] (str_of "example.com")
           443 OSError req resp [] w u c).
  - vm_compute. reflexivity.
  - reflexivity.
  - vm_compute. reflexivity.
  - reflexivity.
  - vm_compute. reflexivity.
  - reflexivity.
  - reflexivity.
  - vm_compute. reflexivity.
Defined.

(** ** Offshore: the two coroutines of a bridge, interleaved *)

(** The loops of the two coroutines are their passes, repeated. *)
Lemma uplink_to_target_pass (n : nat) (st : Offshore.bridge) :
  Offshore.uplink_to_target (S n) st
  = match Offshore.ship_to_target_pass st with
    | (Ok true, st') => Offshore.uplink_to_target n st'
    | (Ok false, st') => (Ok tt, st')
    | (Err e, st') => (Err e, st')
    end.
Proof.
  cbn [Offshore.uplink_to_target]. unfold Offshore.ship_to_target_pass.
  unfold bind at 1 5.
  destruct (Offshore.link_read_message st) as [[[h b]|e] st1]; [|reflexivity].
  unfold bind at 1 4. unfold lift.
  destruct (get h k_type) as [t|e]; [|reflexivity].
  destruct (is_str t "DATA").
  - unfold bind at 1 3.
    destruct b as [|x b].
    + reflexivity.
    + destruct ((Offshore.target_write (x :: b);;; Offshore.target_drain) st1)
        as [[[]|e] st2]; reflexivity.
  - destruct (is_str t "DATA_END"); [|reflexivity].
    unfold bind, Offshore.target_close, modify, ret. reflexivity.
Qed.

Lemma target_to_uplink_pass (n : nat) (st : Offshore.bridge) :
  Offshore.target_to_uplink (S n) st
  = match Offshore.target_to_ship_pass st with
    | (Ok true, st') => Offshore.target_to_uplink n st'
    | (Ok false, st') => (Ok tt, st')
    | (Err e, st') => (Err e, st')
    end.
Proof.
  cbn [Offshore.target_to_uplink]. unfold Offshore.target_to_ship_pass.
  unfold bind at 1 3.
  destruct (Offshore.target_read 1024 st) as [[chunk|e] st1]; [|reflexivity].
  destruct chunk as [|x chunk]; unfold bind.
  - destruct (Offshore.link_send data_end_header [] st1) as [[[]|e] st2];
      reflexivity.
  - destruct (Offshore.link_send (data_header (x :: chunk)) (x :: chunk) st1)
      as [[[]|e] st2]; reflexivity.
Qed.

Lemma pass_ship_frame (l t : sock) (h : json) (p a rest : bytes) :
  closing t = false ->
  frame_wf (h, p) = true ->
  is_data_end (h, p) = false ->
  frame_bytes h p = Ok a ->
  content (rd l) = a ++ rest ->
  exists r1,
    content r1 = rest
    /\ Offshore.guarded Offshore.ship_to_target_pass (Offshore.mkBridge l t)
       = (true,
          Offshore.mkBridge (set_rd l r1)
            (mkSock (rd t) (out t ++ data_payloads [(h, p)]) false (eof_sent t))).
Proof.
  intros Ht Hwf Hnd Ha Hc.
  unfold frame_wf in Hwf. apply andb_true_iff in Hwf.
  destruct Hwf as [Hw1 Hw2]. cbn [fst snd] in *.
  destruct (read_message_frame (rd l) h p a rest Hw1 Hw2 Ha Hc) as (r1 & Er & Cr).
  destruct (read_message_dict _ _ _ _ Er) as (d & Hd).
  exists r1. split; [exact Cr|].
  unfold Offshore.guarded, Offshore.ship_to_target_pass.
  unfold bind at 1. rewrite link_read_message_eq, Er. cbn [fst snd].
  unfold bind at 1. unfold lift at 1. rewrite (get_type h d Hd).
  unfold is_data_end in Hnd. cbn [fst] in Hnd.
  cbn [data_payloads flat_map]. unfold is_data. cbn [fst snd].
  rewrite app_nil_r.
  destruct (is_str (frame_type h) "DATA").
  - destruct p as [|x p].
    + unfold bind, ret. rewrite <- (sock_eta t Ht). reflexivity.
    + unfold bind, Offshore.target_write, Offshore.target_drain, modify, ret.
      cbn [Offshore.link Offshore.target].
      rewrite write_out by exact Ht. unfold drain. cbn [closing]. reflexivity.
  - rewrite Hnd. unfold ret. rewrite <- (sock_eta t Ht). reflexivity.
Qed.

Lemma pass_ship_end (l t : sock) (tail : bytes) :
  content (rd l) = frames_wire [data_end_frame] ++ tail ->
  exists r1,
    content r1 = tail
    /\ Offshore.guarded Offshore.ship_to_target_pass (Offshore.mkBridge l t)
       = (false, Offshore.mkBridge (set_rd l r1) (close t)).
Proof.
  intros Hc.
  destruct (read_message_frame (rd l) (fst data_end_frame) (snd data_end_frame)
              _ tail eq_refl eq_refl data_end_frame_bytes Hc)
    as (r1 & Er & Cr).
  exists r1. split; [exact Cr|].
  unfold Offshore.guarded, Offshore.ship_to_target_pass.
  unfold bind at 1. rewrite link_read_message_eq, Er. reflexivity.
Qed.

Lemma pass_target_chunk (l t : sock) (x : byte) (chunk : bytes) (r' : reader) :
  closing l = false ->
  read (rd t) 1024 = (x :: chunk, r') ->
  len (x :: chunk) <= 1024 ->
  exists fb,
    frame_bytes (data_header (x :: chunk)) (x :: chunk) = Ok fb
    /\ Offshore.guarded Offshore.target_to_ship_pass (Offshore.mkBridge l t)
       = (true,
          Offshore.mkBridge (mkSock (rd l) (out l ++ fb) false (eof_sent l))
            (set_rd t r')).
Proof.
  intros Hl Er Hn.
  destruct (data_frame_bytes (x :: chunk) ltac:(lia)) as [fb Hfb].
  exists fb. split; [exact Hfb|].
  unfold Offshore.guarded, Offshore.target_to_ship_pass.
  unfold bind at 1. unfold Offshore.target_read.
  cbn [Offshore.link Offshore.target]. rewrite Er.
  unfold bind at 1.
  rewrite (link_send_live l (set_rd t r') _ _ fb Hl Hfb). reflexivity.
Qed.

Lemma pass_target_end (l t : sock) (r' : reader) :
  closing l = false ->
  read (rd t) 1024 = ([], r') ->
  Offshore.guarded Offshore.target_to_ship_pass (Offshore.mkBridge l t)
  = (false,
     Offshore.mkBridge
       (mkSock (rd l) (out l ++ frames_wire [data_end_frame]) false (eof_sent l))
       (set_rd t r')).
Proof.
  intros Hl Er.
  unfold Offshore.guarded, Offshore.target_to_ship_pass.
  unfold bind at 1. unfold Offshore.target_read.
  cbn [Offshore.link Offshore.target]. rewrite Er.
  unfold bind at 1.
  rewrite (link_send_live l (set_rd t r') _ _ _ Hl data_end_frame_bytes).
  reflexivity.
Qed.

Lemma data_payloads_cons (f : json * bytes) (fs : list (json * bytes)) :
  data_payloads (f :: fs) = data_payloads [f] ++ data_payloads fs.
Proof.
  unfold data_payloads. cbn [flat_map]. rewrite app_nil_r. reflexivity.
Qed.

(** The bridge under any schedule.  While [ship_to_target] runs ([a]) the
    uplink holds the frames [fs], none of them DATA_END, then a DATA_END
    frame and [tail]; the target is open.  The fuel covers the passes of
    the coroutines still running. *)
Lemma run_bridge_spec (fuel : nat) :
  forall (sched : list bool) (a b : bool) (l t : sock)
         (fs : list (json * bytes)) (bs tail : bytes),
    closing l = false ->
    (a = true ->
     closing t = false
     /\ Forall (fun f => frame_wf f = true) fs
     /\ (forall f, In f fs -> is_data_end f = false)
     /\ encode_frames fs = Ok bs
     /\ content (rd l) = bs ++ frames_wire [data_end_frame] ++ tail) ->
    ((if a then S (length fs) else 0)
     + (if b then S (length (content (rd t))) else 0) <= fuel)%nat ->
    exists sent r' t',
      Offshore.run_bridge fuel sched a b (Offshore.mkBridge l t)
      = (Ok tt,
         Offshore.mkBridge (mkSock r' (out l ++ sent) false (eof_sent l)) t')
      /\ (if b then forwarded 1024 (content (rd t)) sent else sent = [])
      /\ (if a then content r' = tail
                    /\ out t' = out t ++ data_payloads fs
                    /\ closing t' = true
          else r' = rd l /\ out t' = out t /\ closing t' = closing t)
      /\ eof_sent t' = eof_sent t.
Proof.
  induction fuel as [|fuel IH]; intros sched a b l t fs bs tail Hl Ha Hf.
  { destruct a, b; cbn in Hf; try lia.
    exists [], (rd l), t. cbn [Offshore.run_bridge negb andb].
    rewrite <- (sock_eta l Hl). repeat split. }
  (* a pass of ship_to_target *)
  assert (StepA : forall (sched' : list bool) (b : bool) (l t : sock)
                    (fs : list (json * bytes)) (bs tail : bytes),
    closing l = false -> closing t = false ->
    Forall (fun f => frame_wf f = true) fs ->
    (forall f, In f fs -> is_data_end f = false) ->
    encode_frames fs = Ok bs ->
    content (rd l) = bs ++ frames_wire [data_end_frame] ++ tail ->
    (S (length fs) + (if b then S (length (content (rd t))) else 0)
     <= S fuel)%nat ->
    exists sent r' t',
      (let (go, st') :=
         Offshore.guarded Offshore.ship_to_target_pass (Offshore.mkBridge l t) in
       Offshore.run_bridge fuel sched' go b st')
      = (Ok tt,
         Offshore.mkBridge (mkSock r' (out l ++ sent) false (eof_sent l)) t')
      /\ (if b then forwarded 1024 (content (rd t)) sent else sent = [])
      /\ (content r' = tail /\ out t' = out t ++ data_payloads fs
          /\ closing t' = true)
      /\ eof_sent t' = eof_sent t).
  { clear sched a b l t fs bs tail Hl Ha Hf.
    intros sched' b l t fs bs tail Hl Ht Hwf Hne Hbs Hc Hf.
    destruct fs as [|[h p] fs].
    - cbn [encode_frames] in Hbs. injection Hbs as <-. cbn [app] in Hc.
      destruct (pass_ship_end l t tail Hc) as (r1 & C1 & E1). rewrite E1.
      destruct (IH sched' false b (set_rd l r1) (close t) [] [] tail Hl
                  ltac:(discriminate)) as (sent & r' & t' & E & Hb & Hna & He).
      { destruct b; cbn [close rd content concat length] in *; lia. }
      exists sent, r', t'. split; [exact E|].
      destruct Hna as (-> & Ho & Hcl). cbn [rd set_rd] in *.
      split.
      { destruct b; [|exact Hb].
        destruct Hb as (chunks & rest & H1 & H2 & H3).
        cbn [close rd content concat] in H1.
        apply app_eq_nil in H1. destruct H1 as [H1 _].
        exists chunks, (content (rd t)). rewrite H1.
        repeat split; assumption. }
      split; [|exact He].
      cbn [data_payloads flat_map]. rewrite app_nil_r.
      repeat split; [exact C1|exact Ho|exact Hcl].
    - inversion Hwf as [|? ? Hwf1 Hwf']; subst.
      apply encode_frames_cons_inv in Hbs.
      destruct Hbs as (a1 & b1 & Ea & Eb & ->). cbn [fst snd] in Ea.
      rewrite <- app_assoc in Hc.
      destruct (pass_ship_frame l t h p a1 _ Ht Hwf1
                  (Hne (h, p) (or_introl eq_refl)) Ea Hc) as (r1 & C1 & E1).
      rewrite E1.
      destruct (IH sched' true b (set_rd l r1)
                  (mkSock (rd t) (out t ++ data_payloads [(h, p)]) false
                     (eof_sent t)) fs b1 tail Hl) as (sent & r' & t' & E & Hb & Hna & He).
      { intros _. repeat split; try assumption.
        intros f Hin. apply Hne. right. exact Hin. }
      { cbn [rd length] in *. destruct b; lia. }
      exists sent, r', t'. split; [exact E|]. cbn [rd out eof_sent] in *.
      split; [exact Hb|]. split; [|exact He].
      destruct Hna as (Hr & Ho & Hcl).
      rewrite data_payloads_cons, app_assoc.
      repeat split; assumption. }
  (* a pass of target_to_ship *)
  assert (StepB : forall (sched' : list bool) (a : bool) (l t : sock)
                    (fs : list (json * bytes)) (bs tail : bytes),
    closing l = false ->
    (a = true ->
     closing t = false
     /\ Forall (fun f => frame_wf f = true) fs
     /\ (forall f, In f fs -> is_data_end f = false)
     /\ encode_frames fs = Ok bs
     /\ content (rd l) = bs ++ frames_wire [data_end_frame] ++ tail) ->
    ((if a then S (length fs) else 0) + S (length (content (rd t)))
     <= S fuel)%nat ->
    exists sent r' t',
      (let (go, st') :=
         Offshore.guarded Offshore.target_to_ship_pass (Offshore.mkBridge l t) in
       Offshore.run_bridge fuel sched' a go st')
      = (Ok tt,
         Offshore.mkBridge (mkSock r' (out l ++ sent) false (eof_sent l)) t')
      /\ forwarded 1024 (content (rd t)) sent
      /\ (if a then content r' = tail
                    /\ out t' = out t ++ data_payloads fs
                    /\ closing t' = true
          else r' = rd l /\ out t' = out t /\ closing t' = closing t)
      /\ eof_sent t' = eof_sent t).
  { clear sched a b l t fs bs tail Hl Ha Hf.
    intros sched' a l t fs bs tail Hl Ha Hf.
    destruct (read_spec (rd t) 1024 ltac:(lia))
      as (chunk & r2 & Er & Hc & Hn & He0 & _).
    destruct chunk as [|x chunk].
    - destruct (He0 eq_refl) as [Hc0 ->].
      rewrite (pass_target_end l t [] Hl Er).
      destruct (IH sched' a false
                  (mkSock (rd l) (out l ++ frames_wire [data_end_frame]) false
                     (eof_sent l)) (set_rd t []) fs bs tail eq_refl)
        as (sent & r' & t' & E & Hb & Hna & He).
      { intros Hat. destruct (Ha Hat) as (H1 & H2 & H3 & H4 & H5).
        repeat split; assumption. }
      { destruct a; lia. }
      subst sent. exists (frames_wire [data_end_frame]), r', t'.
      cbn [rd out eof_sent set_rd closing] in *.
      rewrite app_nil_r in E. split; [exact E|].
      split.
      { exists [], []. rewrite Hc0.
        split; [reflexivity|split; [constructor|vm_compute; reflexivity]]. }
      split; [exact Hna|exact He].
    - destruct (pass_target_chunk l t x chunk r2 Hl Er Hn) as (fb & Hfb & E1).
      rewrite E1.
      destruct (IH sched' a true
                  (mkSock (rd l) (out l ++ fb) false (eof_sent l))
                  (set_rd t r2) fs bs tail eq_refl)
        as (sent & r' & t' & E & Hb & Hna & He).
      { intros Hat. destruct (Ha Hat) as (H1 & H2 & H3 & H4 & H5).
        repeat split; assumption. }
      { cbn [rd set_rd]. rewrite <- Hc, length_app in Hf.
        cbn [length] in Hf. destruct a; lia. }
      exists (fb ++ sent), r', t'.
      cbn [rd out eof_sent set_rd closing] in *.
      rewrite <- app_assoc in E. split; [exact E|].
      split.
      { destruct Hb as (chunks & rest & H1 & H2 & H3).
        exists ((x :: chunk) :: chunks), rest. split.
        - cbn [concat]. rewrite <- app_assoc, H1. exact Hc.
        - split.
          + constructor; [|exact H2]. unfold len in *. cbn [length] in *. lia.
          + cbn [map app]. apply encode_frames_cons; [exact Hfb|exact H3]. }
      split; [exact Hna|exact He]. }
  cbn [Offshore.run_bridge].
  destruct a.
  - destruct (Ha eq_refl) as (Ht & Hwf & Hne & Hbs & Hc).
    destruct b; cbn [negb andb orb].
    + destruct sched as [|[|] sched]; cbn [tl orb].
      * apply (StepA [] true l t fs bs tail Hl Ht Hwf Hne Hbs Hc Hf).
      * apply (StepA sched true l t fs bs tail Hl Ht Hwf Hne Hbs Hc Hf).
      * apply (StepB sched true l t fs bs tail Hl Ha Hf).
    + rewrite orb_true_r.
      destruct (StepA (tl sched) false l t fs bs tail Hl Ht Hwf Hne Hbs Hc)
        as (sent & r' & t' & E & H1 & H2 & H3).
      { lia. }
      exists sent, r', t'.
      split; [exact E|]. split; [exact H1|]. split; [exact H2|exact H3].
  - destruct b; cbn [negb andb orb].
    + apply (StepB (tl sched) false l t fs bs tail Hl Ha Hf).
    + exists [], (rd l), t. rewrite <- (sock_eta l Hl). repeat split.
Qed.

(** X24. A CONNECT bridge under any interleaving of its two coroutines.
    With the uplink and the target open, when the Ship sends the frames
    [fs], none of them DATA_END, followed by DATA_END, then however the
    event loop interleaves [ship_to_target] and [target_to_ship]: the
    target receives exactly the payloads of the DATA frames among [fs], in
    order, and is then closed; the Ship is sent DATA frames that carry a
    prefix of what the target sends (each payload 1 to 1024 bytes), then
    exactly one DATA_END, and what the target sends after it has been
    closed is lost; the uplink stays open with its reader right after the
    Ship's DATA_END. *)
Theorem gather_any_schedule (schedule : list bool) (l t : sock)
  (fs : list (json * bytes)) (bs tail : bytes) :
  closing l = false -> closing t = false ->
  Forall (fun f => frame_wf f = true) fs ->
  (forall f, In f fs -> is_data_end f = false) ->
  encode_frames fs = Ok bs ->
  content (rd l) = bs ++ frames_wire [data_end_frame] ++ tail ->
  exists sent r' t',
    Offshore.gather schedule (Offshore.mkBridge l t)
    = (Ok tt,
       Offshore.mkBridge (mkSock r' (out l ++ sent) false (eof_sent l)) t')
    /\ forwarded 1024 (content (rd t)) sent
    /\ content r' = tail
    /\ out t' = out t ++ data_payloads fs
    /\ closing t' = true.
Proof.
  intros Hl Ht Hwf Hne Hbs Hc.
  destruct (run_bridge_spec
              (S (S (length (content (rd l)) + length (content (rd t)))))
              schedule true true l t fs bs tail Hl)
    as (sent & r' & t' & E & Hb & (H1 & H2 & H3) & _).
  - intros _. repeat split; assumption.
  - pose proof (encode_frames_length _ _ Hbs) as Hlen.
    rewrite Hc, length_app. lia.
  - exists sent, r', t'. unfold Offshore.gather.
    cbn [Offshore.link Offshore.target]. repeat split; assumption.
Qed.

Lemma gather_any_schedule_witness :
  let fs := [data_frame (bytes_of "GET / HTTP/1.0"); error_frame] in
  let l := fresh [frames_wire fs; frames_wire [data_end_frame]; bytes_of "next"] in
  let t := fresh [bytes_of "HTTP/1.0 200 OK"; bytes_of "late"] in
  exists sent r' t',
    Offshore.gather [false; true; true; false] (Offshore.mkBridge l t)
    = (Ok tt,
       Offshore.mkBridge (mkSock r' (out l ++ sent) false (eof_sent l)) t')
    /\ forwarded 1024 (content (rd t)) sent
    /\ content r' = bytes_of "next"
    /\ out t' = out t ++ data_payloads fs
    /\ closing t' = true.
Proof.
  intros fs l t.
  apply (gather_any_schedule [false; true; true; false] l t fs
           (frames_wire fs) (bytes_of "next")).
  - reflexivity.
  - reflexivity.
  - repeat constructor.
  - intros f [<-|[<-|[]]]; reflexivity.
  - vm_compute. reflexivity.
  - vm_compute. reflexivity.
Defined.

(** How much the target's bytes reach the Ship depends on the schedule:
    when [target_to_ship] reads first the reply is forwarded, when
    [ship_to_target] meets DATA_END first it is lost. *)
Example gather_schedules_differ :
  let l := fresh [frames_wire [data_end_frame]] in
  let t := fresh [bytes_of "reply"] in
  out (Offshore.link (snd (Offshore.gather [false] (Offshore.mkBridge l t))))
  = frames_wire [data_frame (bytes_of "reply"); data_end_frame]
  /\ out (Offshore.link (snd (Offshore.gather [true] (Offshore.mkBridge l t))))
     = frames_wire [data_end_frame].
Proof. vm_compute. split; reflexivity. Qed.

(** X25. A CONNECT the Offshore can dial.  For a CONNECT frame naming
    [host] and [port] the Offshore calls [open_connection] with them; when
    the call returns a socket it writes CONNECT_OK before anything else,
    then bridges: under any interleaving, for frames [fs] without DATA_END
    followed by DATA_END on the uplink, it writes after CONNECT_OK the DATA
    frames of a prefix of the target's bytes and exactly one DATA_END,
    never an ERROR frame, and returns to the serving loop with the uplink
    open and its reader right after the Ship's DATA_END. *)
Theorem offshore_connect_bridges (open_connection : json -> Z -> result sock)
  (message : exn -> str) (schedule : list bool) (host : str) (port : Z)
  (w t : sock) (fs : list (json * bytes)) (bs tail : bytes) :
  open_connection (JStr host) port = Ok t ->
  closing w = false -> closing t = false ->
  Forall (fun f => frame_wf f = true) fs ->
  (forall f, In f fs -> is_data_end f = false) ->
  encode_frames fs = Ok bs ->
  content (rd w) = bs ++ frames_wire [data_end_frame] ++ tail ->
  exists sent r',
    Offshore.handle_connect open_connection message schedule
      (connect_header host port) w
    = (Ok tt,
       mkSock r' (out w ++ frames_wire [connect_ok_frame] ++ sent) false
         (eof_sent w))
    /\ forwarded 1024 (content (rd t)) sent
    /\ content r' = tail.
Proof.
  intros Ho Hw Ht Hwf Hne Hbs Hc.
  set (w1 := mkSock (rd w) (out w ++ frames_wire [connect_ok_frame]) false
               (eof_sent w)).
  destruct (run_bridge_spec
              (S (S (length (content (rd w1)) + length (content (rd t)))))
              schedule true true w1 t fs bs tail eq_refl)
    as (sent & r' & t' & E & Hb & (H1 & H2 & H3) & _).
  - intros _. repeat split; assumption.
  - pose proof (encode_frames_length _ _ Hbs) as Hlen.
    subst w1. cbn [rd]. rewrite Hc, length_app. lia.
  - exists sent, r'. split; [|split; assumption].
    unfold Offshore.handle_connect, bind, lift.
    change (getitem (connect_header host port) (str_of "host"))
      with (@Ok json (JStr host)).
    change (getitem (connect_header host port) (str_of "port"))
      with (@Ok json (JInt port)).
    cbn [Offshore.int_of]. unfold try_except. rewrite Ho.
    rewrite send_message_frame by exact Hw.
    change (frame_bytes Offshore.connect_ok_header [])
      with (frame_bytes (fst connect_ok_frame) (snd connect_ok_frame)).
    rewrite connect_ok_frame_bytes. fold w1.
    unfold Offshore.gather. cbn [Offshore.link Offshore.target].
    rewrite E. cbn [Offshore.link]. subst w1. cbn [out eof_sent].
    rewrite <- app_assoc. reflexivity.
Qed.

Lemma offshore_connect_bridges_witness :
  let fs := [data_frame (bytes_of "GET / HTTP/1.0")] in
  let w := fresh [frames_wire fs; frames_wire [data_end_frame];
                  frames_wire [(sample_get_header, [])]] in
  let t := fresh [bytes_of "HTTP/1.0 200 OK"] in
  exists sent r',
    Offshore.handle_connect (fun _ _ => Ok t) (fun _ => []) [false; false]
      (connect_header (str_of "example.com") 443) w
    = (Ok tt,
       mkSock r' (out w ++ frames_wire [connect_ok_frame] ++ sent) false
         (eof_sent w))
    /\ forwarded 1024 (content (rd t)) sent
    /\ content r' = frames_wire [(sample_get_header, [])].
Proof.
  intros fs w t.
  apply (offshore_connect_bridges (fun _ _ => Ok t) (fun _ => [])
           [false; false] (str_of "example.com") 443 w t fs (frames_wire fs)
           (frames_wire [(sample_get_header, [])])).
  - reflexivity.
  - reflexivity.
  - reflexivity.
  - repeat constructor.
  - intros f [<-|[]]; reflexivity.
  - vm_compute. reflexivity.
  - vm_compute. reflexivity.
Defined.

(** ** The schedule that lets [ship_to_target] finish first *)

Lemma ship_pass_measure (st st1 : Offshore.bridge) (r : result bool) :
  Offshore.ship_to_target_pass st = (r, st1) ->
  (length (content (rd (Offshore.target st1)))
   <= length (content (rd (Offshore.target st))))%nat
  /\ (r = Ok true ->
      (length (content (rd (Offshore.link st1)))
       < length (content (rd (Offshore.link st))))%nat).
Proof.
  unfold Offshore.ship_to_target_pass. unfold bind at 1.
  unfold Offshore.link_read_message.
  destruct (read_message (rd (Offshore.link st))) as [[[h b]|e] r1] eqn:Er.
  - pose proof (read_message_length _ _ _ _ Er) as Hlen.
    unfold bind at 1. unfold lift.
    destruct (get h k_type) as [t|e].
    + destruct (is_str t "DATA").
      * destruct b as [|x b].
        -- unfold bind, ret. intros H. injection H as <- <-.
           cbn [Offshore.link Offshore.target rd set_rd]. split; [lia|].
           intros _. lia.
        -- unfold bind, Offshore.target_write, Offshore.target_drain, modify, ret.
           cbn [Offshore.link Offshore.target].
           destruct (drain (write (Offshore.target st) (x :: b))) as [[]|e];
             intros H; injection H as <- <-;
             cbn [Offshore.link Offshore.target rd set_rd];
             (assert (Hw : rd (write (Offshore.target st) (x :: b))
                           = rd (Offshore.target st))
                by (unfold write; destruct (closing (Offshore.target st));
                    reflexivity));
             rewrite Hw; split; try lia; intros; try discriminate; lia.
      * destruct (is_str t "DATA_END").
        -- unfold bind, Offshore.target_close, modify, ret.
           intros H. injection H as <- <-.
           cbn [Offshore.link Offshore.target rd set_rd close content concat length].
           split; [lia|discriminate].
        -- unfold ret. intros H. injection H as <- <-.
           cbn [Offshore.link Offshore.target rd set_rd]. split; [lia|].
           intros _. lia.
    + intros H. injection H as <- <-.
      cbn [Offshore.link Offshore.target rd set_rd]. split; [lia|discriminate].
  - intros H. injection H as <- <-.
    cbn [Offshore.link Offshore.target rd set_rd]. split; [lia|discriminate].
Qed.

Lemma target_pass_measure (st st1 : Offshore.bridge) :
  Offshore.target_to_ship_pass st = (Ok true, st1) ->
  (length (content (rd (Offshore.target st1)))
   < length (content (rd (Offshore.target st))))%nat.
Proof.
  unfold Offshore.target_to_ship_pass. unfold bind at 1.
  unfold Offshore.target_read.
  pose proof (read_length (rd (Offshore.target st)) 1024 ltac:(lia)) as Hlen.
  destruct (read (rd (Offshore.target st)) 1024) as [chunk r1].
  destruct chunk as [|x chunk]; unfold bind, Offshore.link_send;
    cbn [Offshore.link Offshore.target].
  - destruct (send_message _ _ _) as [[[]|e] w']; discriminate.
  - destruct (send_message _ _ _) as [[[]|e] w']; [|discriminate].
    unfold ret. intros H. injection H as <-.
    cbn [Offshore.target rd set_rd]. cbn [length] in Hlen. lia.
Qed.

Lemma ship_phase (n : nat) :
  forall (st : Offshore.bridge) (b : bool),
    (length (content (rd (Offshore.link st))) < n)%nat ->
    exists f st',
      (f <= n)%nat
      /\ try_except (Offshore.uplink_to_target n) (fun _ => ret tt) st
         = (Ok tt, st')
      /\ (length (content (rd (Offshore.target st')))
          <= length (content (rd (Offshore.target st))))%nat
      /\ forall k,
           Offshore.run_bridge (f + k) [] true b st
           = Offshore.run_bridge k [] false b st'.
Proof.
  induction n as [|n IH]; intros st b Hn; [lia|].
  unfold try_except. rewrite uplink_to_target_pass.
  pose proof (ship_pass_measure st) as Hm.
  destruct (Offshore.ship_to_target_pass st) as [[[|]|e] st1] eqn:Ep;
    destruct (Hm st1 _ eq_refl) as [Ht Hl].
  - destruct (IH st1 b ltac:(specialize (Hl eq_refl); lia))
      as (f & st' & Hf & E & Ht' & Hr).
    unfold try_except in E.
    exists (S f), st'. split; [lia|]. split; [exact E|]. split; [lia|].
    intros k. cbn [Nat.add Offshore.run_bridge negb andb orb tl].
    unfold Offshore.guarded. rewrite Ep. apply Hr.
  - exists 1%nat, st1. split; [lia|]. split; [reflexivity|]. split; [exact Ht|].
    intros k. cbn [Nat.add Offshore.run_bridge negb andb orb tl].
    unfold Offshore.guarded. rewrite Ep. reflexivity.
  - exists 1%nat, st1. split; [lia|]. split; [reflexivity|]. split; [exact Ht|].
    intros k. cbn [Nat.add Offshore.run_bridge negb andb orb tl].
    unfold Offshore.guarded. rewrite Ep. reflexivity.
Qed.

Lemma target_phase (n : nat) :
  forall (st : Offshore.bridge),
    (length (content (rd (Offshore.target st))) < n)%nat ->
    exists f st',
      (f <= n)%nat
      /\ try_except (Offshore.target_to_uplink n) (fun _ => ret tt) st
         = (Ok tt, st')
      /\ forall k,
           Offshore.run_bridge (f + k) [] false true st = (Ok tt, st').
Proof.
  induction n as [|n IH]; intros st Hn; [lia|].
  unfold try_except. rewrite target_to_uplink_pass.
  destruct (Offshore.target_to_ship_pass st) as [[[|]|e] st1] eqn:Ep.
  - pose proof (target_pass_measure st st1 Ep) as Hl.
    destruct (IH st1 ltac:(lia)) as (f & st' & Hf & E & Hr).
    unfold try_except in E.
    exists (S f), st'. split; [lia|]. split; [exact E|].
    intros k. cbn [Nat.add Offshore.run_bridge negb andb orb tl].
    unfold Offshore.guarded. rewrite Ep. apply Hr.
  - exists 1%nat, st1. split; [lia|]. split; [reflexivity|].
    intros k. cbn [Nat.add Offshore.run_bridge negb andb orb tl].
    unfold Offshore.guarded. rewrite Ep. destruct k; reflexivity.
  - exists 1%nat, st1. split; [lia|]. split; [reflexivity|].
    intros k. cbn [Nat.add Offshore.run_bridge negb andb orb tl].
    unfold Offshore.guarded. rewrite Ep. destruct k; reflexivity.
Qed.

(** When the event loop lets [ship_to_target] run to its end before
    [target_to_ship] makes its first pass, [gather] is the two coroutines
    run one after the other, from every state of the bridge. *)
Lemma gather_ship_first (st : Offshore.bridge) :
  Offshore.gather [] st
  = (Offshore.ship_to_target ;;; Offshore.target_to_ship) st.
Proof.
  destruct (ship_phase (S (length (content (rd (Offshore.link st))))) st true
              ltac:(lia)) as (f & st' & Hf & E & Ht & Hr).
  destruct (target_phase (S (length (content (rd (Offshore.target st'))))) st'
              ltac:(lia)) as (f' & st'' & Hf' & E' & Hr').
  unfold bind, Offshore.ship_to_target, Offshore.target_to_ship.
  rewrite E, E'. unfold Offshore.gather.
  replace (S (S (length (content (rd (Offshore.link st)))
                 + length (content (rd (Offshore.target st))))))
    with (f + (f' + (S (S (length (content (rd (Offshore.link st)))
                           + length (content (rd (Offshore.target st)))))
                     - f - f')))%nat by lia.
  rewrite Hr, Hr'. reflexivity.
Qed.

(** ** What the Ship writes to the uplink *)

Lemma encode_frames_app (a b : list (json * bytes)) (ba bb : bytes) :
  encode_frames a = Ok ba -> encode_frames b = Ok bb ->
  encode_frames (a ++ b) = Ok (ba ++ bb).
Proof.
  revert ba. induction a as [|f a IH]; intros ba Ha Hb.
  - cbn [encode_frames] in Ha. injection Ha as <-. exact Hb.
  - apply encode_frames_cons_inv in Ha. destruct Ha as (x & y & H1 & H2 & ->).
    cbn [app]. rewrite <- app_assoc.
    apply encode_frames_cons; [exact H1|]. apply IH; assumption.
Qed.

Lemma writes_frames_refl (st : hstate) : writes_frames st st.
Proof.
  unfold writes_frames. destruct (up st); [|exact I].
  exists [], []. rewrite app_nil_r. repeat split. constructor.
Qed.

Lemma writes_frames_up (st st' : hstate) :
  up st' = up st -> writes_frames st st'.
Proof.
  intros H. unfold writes_frames. rewrite H. destruct (up st); [|exact I].
  exists [], []. rewrite app_nil_r. repeat split. constructor.
Qed.

Lemma writes_frames_trans (a b c : hstate) :
  writes_frames a b -> writes_frames b c -> writes_frames a c.
Proof.
  unfold writes_frames.
  destruct (up a) as [ua|], (up b) as [ub|], (up c) as [uc|]; try tauto.
  intros (f1 & b1 & W1 & E1 & O1) (f2 & b2 & W2 & E2 & O2).
  exists (f1 ++ f2), (b1 ++ b2). split; [apply Forall_app; tauto|].
  split; [apply encode_frames_app; assumption|].
  rewrite O2, O1, app_assoc. reflexivity.
Qed.

Lemma frames_only_bind {A B} (m : Handler A) (k : A -> Handler B) :
  frames_only m -> (forall a, frames_only (k a)) -> frames_only (bind m k).
Proof.
  intros Hm Hk st. unfold bind. specialize (Hm st).
  destruct (m st) as [[a|e] st1]; cbn [snd] in *; [|exact Hm].
  eapply writes_frames_trans; [exact Hm|apply Hk].
Qed.

Lemma frames_only_try {A} (m : Handler A) (h : exn -> Handler A) :
  frames_only m -> (forall e, frames_only (h e)) -> frames_only (try_except m h).
Proof.
  intros Hm Hh st. unfold try_except. specialize (Hm st).
  destruct (m st) as [[a|e] st1]; cbn [snd] in *; [exact Hm|].
  eapply writes_frames_trans; [exact Hm|apply Hh].
Qed.

Lemma frames_only_ret {A} (a : A) : frames_only (ret a).
Proof. intros st. apply writes_frames_refl. Qed.

Lemma frames_only_raise {A} (e : exn) : frames_only (@raise hstate A e).
Proof. intros st. apply writes_frames_refl. Qed.

Lemma frames_only_lift {A} (r : result A) : frames_only (lift r).
Proof. intros st. apply writes_frames_refl. Qed.

Lemma frames_only_up_send (h : json) (body : bytes) :
  frame_wf (h, body) = true -> frames_only (up_send h body).
Proof.
  intros Hwf st. unfold up_send, writes_frames.
  destruct (up st) as [w|] eqn:E.
  - destruct (closing w) eqn:Ew.
    + assert (Hs : snd (send_message w h body) = w).
      { assert (Hw : forall d, write w d = w)
          by (intros d; unfold write; rewrite Ew; reflexivity).
        unfold send_message. destruct (pack_u32be _); [|reflexivity].
        cbv zeta. cbn [snd]. rewrite !Hw.
        destruct body; reflexivity. }
      destruct (send_message w h body) as [r w']. cbn [snd up] in *. subst w'.
      exists [], []. rewrite app_nil_r. repeat split. constructor.
    + rewrite send_message_frame by exact Ew.
      destruct (frame_bytes h body) as [bs|e] eqn:Ef; cbn [snd up].
      * exists [(h, body)], (bs ++ []). split; [repeat constructor; exact Hwf|].
        split; [apply encode_frames_cons; [exact Ef|reflexivity]|].
        cbn [out]. rewrite app_nil_r. reflexivity.
      * exists [], []. rewrite app_nil_r. repeat split. constructor.
  - destruct (pack_u32be _); cbn [snd]; rewrite E; exact I.
Qed.

Lemma frames_only_up_read_message : frames_only up_read_message.
Proof.
  intros st. unfold up_read_message, writes_frames.
  destruct (up st) as [w|] eqn:E.
  - destruct (read_message (rd w)) as [r r']. cbn [snd up set_rd out].
    exists [], []. rewrite app_nil_r. repeat split. constructor.
  - cbn [snd]. rewrite E. exact I.
Qed.

Lemma frames_only_cl_write (data : bytes) : frames_only (cl_write data).
Proof. intros st. apply writes_frames_up. reflexivity. Qed.

Lemma frames_only_cl_drain : frames_only cl_drain.
Proof. intros st. apply writes_frames_up. reflexivity. Qed.

Lemma frames_only_cl_close : frames_only cl_close.
Proof. intros st. apply writes_frames_up. reflexivity. Qed.

Lemma frames_only_cl_read (n : Z) : frames_only (cl_read n).
Proof.
  intros st. apply writes_frames_up. unfold cl_read.
  destruct (read (rd (cl st)) n). reflexivity.
Qed.

Lemma data_frame_wf (chunk : bytes) : frame_wf (data_header chunk, chunk) = true.
Proof.
  unfold frame_wf, data_header. cbn. apply Z.eqb_refl.
Qed.

Lemma frames_only_data_end : frames_only (up_send data_end_header []).
Proof. apply frames_only_up_send. reflexivity. Qed.

Lemma frames_only_data (chunk : bytes) :
  frames_only (up_send (data_header chunk) chunk).
Proof. apply frames_only_up_send. apply data_frame_wf. Qed.

Create HintDb frames.
#[local] Hint Resolve frames_only_ret frames_only_raise frames_only_lift
  frames_only_up_read_message frames_only_cl_write frames_only_cl_drain
  frames_only_cl_close frames_only_cl_read frames_only_data_end
  frames_only_data : frames.

Ltac frames_step :=
  repeat first
    [ solve [auto with frames]
    | apply frames_only_bind; [|intros ?]
    | apply frames_only_try; [|intros ?]
    | match goal with
      | |- frames_only (match ?x with _ => _ end) => destruct x
      | |- frames_only (let (_, _) := ?x in _) => destruct x
      end ].

Lemma frames_only_write_headers (d : dict) : frames_only (write_headers d).
Proof.
  induction d as [|[k v] d IH]; cbn [write_headers]; frames_step.
Qed.

Lemma frames_only_client_to_uplink (fuel : nat) :
  frames_only (client_to_uplink fuel).
Proof.
  induction fuel as [|fuel IH]; cbn [client_to_uplink]; frames_step.
Qed.

Lemma frames_only_uplink_to_client (fuel : nat) :
  frames_only (uplink_to_client fuel).
Proof.
  induction fuel as [|fuel IH]; cbn [uplink_to_client]; frames_step.
Qed.

Lemma frames_only_tunnel : frames_only tunnel.
Proof.
  unfold tunnel.
  apply frames_only_bind; [|intros _; apply frames_only_bind; [|intros _]].
  - intros st. unfold read_client_send.
    apply frames_only_try; [apply frames_only_client_to_uplink|].
    intros e. frames_step.
  - intros st. unfold read_offshore_write.
    apply frames_only_try; [apply frames_only_uplink_to_client|].
    intros e. frames_step.
  - frames_step.
Qed.

(** X27. The Ship never puts anything but whole frames on the uplink.
    Whatever a handler meets (a short or malformed reply, a client that
    has gone, a request too large to frame), what it has written to the
    uplink when it returns or raises is a sequence of complete frames, each
    with a header that is a JSON object with distinct keys and a
    [body_len] equal to the length of its payload, or absent with no
    payload: the Offshore can always tell where one frame ends and the
    next begins. *)
Theorem run_task_writes_frames (t : task) (st : hstate) :
  match t with
  | HttpTask _ _ headers _ => keys_unique (map fst headers) = true
  | ConnectTask _ _ => True
  end ->
  writes_frames st (snd (run_task t st)).
Proof.
  intros Hok. revert st. change (frames_only (run_task t)).
  pose proof frames_only_write_headers.
  pose proof frames_only_tunnel.
  destruct t as [method target headers body|host port]; cbn [run_task].
  - pose proof (frames_only_up_send _ _
                  (request_header_wf method target headers body Hok)).
    unfold handle_http_request, reply_bad_gateway. frames_step.
  - pose proof (frames_only_up_send (connect_header host port) [] eq_refl).
    unfold handle_connect, reply_bad_gateway. frames_step.
Qed.

Lemma run_task_writes_frames_witness :
  writes_frames
    (mkH (Some (fresh [[x00; x00; x01]])) (fresh []))
    (snd (run_task sample_get
            (mkH (Some (fresh [[x00; x00; x01]])) (fresh [])))).
Proof.
  apply (run_task_writes_frames sample_get). reflexivity.
Defined.
